(** * The S3 weekly-archival script (src/main.py), embedded in Rocq

    The script mirrors a bucket into /tmp/s3_files/, packs the mirror into
    /tmp/weekly-archive.tar.gz, uploads archive and run log, and removes its
    scratch files.  The embedding follows the source function by function:

    - Python strings and [bytes] objects are Rocq [string]s (sequences of
      8-bit characters);
    - the local file system is a tree of directories and regular files, the
      only kinds of entry the script creates, addressed by path strings that
      are parsed the way the kernel parses them;
    - every function that touches the file system, the bucket, the clock or
      the log is a computation in a state-and-exception monad over [world];
      an exception leaves the state as it was when it was raised;
    - library calls ([os.path], [os], [tarfile], [gzip], [logging], boto3)
      are modelled by what CPython 3.11 and boto3 document and do; the byte
      layouts that stay abstract (tar headers, DEFLATE, CRC-32) are fields of
      [Codec]. *)

From Stdlib Require Import ZArith QArith Qabs Qround String Ascii List Bool Arith Lia.
Import ListNotations.

Local Open Scope string_scope.
Local Open Scope Z_scope.

(** ** Strings *)

(** A Python [bytes] value. *)
Definition bytes := string.

Definition slash : ascii := "/"%char.

(** [s.startswith("/")] *)
Definition starts_with_slash (s : string) : bool :=
  match s with
  | String c _ => Ascii.eqb c slash
  | EmptyString => false
  end.

(** [s.endswith("/")] *)
Fixpoint ends_with_slash (s : string) : bool :=
  match s with
  | EmptyString => false
  | String c EmptyString => Ascii.eqb c slash
  | String _ r => ends_with_slash r
  end.

(** [s.endswith(suffix)] for an arbitrary suffix. *)
Definition endswith (s suffix : string) : bool :=
  let n := String.length s in
  let k := String.length suffix in
  (k <=? n)%nat && String.eqb (substring (n - k) k s) suffix.

(** [any(key.endswith(pattern) for pattern in ignore_patterns)] *)
Definition matches_ignore (key : string) (ignore_patterns : list string) : bool :=
  existsb (endswith key) ignore_patterns.

(** ** [os.path] (posixpath) *)

(** [(p[:i], p[i:])] for [i = p.rfind("/") + 1]: the part up to and including
    the last slash, and the part after it. *)
Fixpoint rsplit_slash (p : string) : string * string :=
  match p with
  | EmptyString => (EmptyString, EmptyString)
  | String c r =>
      let (h, t) := rsplit_slash r in
      match h with
      | EmptyString =>
          if Ascii.eqb c slash then (String c EmptyString, t)
          else (EmptyString, String c t)
      | _ => (String c h, t)
      end
  end.

(** [os.path.basename] *)
Definition basename (p : string) : string := snd (rsplit_slash p).

Fixpoint all_slashes (s : string) : bool :=
  match s with
  | EmptyString => true
  | String c r => Ascii.eqb c slash && all_slashes r
  end.

(** [s.rstrip("/")] *)
Fixpoint rstrip_slash (s : string) : string :=
  match s with
  | EmptyString => EmptyString
  | String c r =>
      match rstrip_slash r with
      | EmptyString => if Ascii.eqb c slash then EmptyString else String c EmptyString
      | r' => String c r'
      end
  end.

(** [os.path.dirname] *)
Definition dirname (p : string) : string :=
  let head := fst (rsplit_slash p) in
  if all_slashes head then head else rstrip_slash head.

(** [os.path.join(a, b)] *)
Definition path_join (a b : string) : string :=
  if starts_with_slash b then b
  else match a with
       | EmptyString => b
       | _ => if ends_with_slash a then a ++ b else a ++ "/" ++ b
       end.

(** ** Path resolution

    The components of a path, as the kernel reads them: runs of slashes
    separate components, [.] stays where it is and [..] steps back to the
    parent (there are no symbolic links in the model).  The step back is taken
    on the text of the path: the kernel gives the same entry when the
    component before [..] names a directory, and fails with ENOENT or ENOTDIR
    when it does not, which the model does not reproduce.  Every path is read
    from the root directory; the script only uses absolute paths. *)
Fixpoint raw_components (p : string) (cur : string) : list string :=
  match p with
  | EmptyString => match cur with EmptyString => [] | _ => [cur] end
  | String c r =>
      if Ascii.eqb c slash then
        match cur with
        | EmptyString => raw_components r EmptyString
        | _ => cur :: raw_components r EmptyString
        end
      else raw_components r (cur ++ String c EmptyString)
  end.

(** One step of normalisation; the components seen so far are kept in
    reverse. *)
Definition norm_step (rev_acc : list string) (c : string) : list string :=
  if String.eqb c "." then rev_acc
  else if String.eqb c ".." then tl rev_acc
  else c :: rev_acc.

Definition components (p : string) : list string :=
  rev (fold_left norm_step (raw_components p EmptyString) []).

(** ** Exceptions and outcomes *)

(** The exception classes the script can meet (all subclasses of
    [Exception]). *)
Inductive exn_class : Type :=
| ZeroDivisionError
| OverflowError
| FileNotFoundError
| FileExistsError
| IsADirectoryError
| NotADirectoryError
| PermissionError
| DirectoryNotEmptyError
| NoCredentialsError
| PartialCredentialsError
| ClientError
| OtherError.

(** An exception object: its class and [str(e)]. *)
Record exn : Type := mk_exn { exn_cls : exn_class; exn_msg : string }.

Inductive outcome (A : Type) : Type :=
| Ok (a : A)
| Raise (e : exn).
Arguments Ok {A} a.
Arguments Raise {A} e.

(** [str(e)] of an [OSError] raised for the path [p]. *)
Definition errno_text (c : exn_class) : string :=
  match c with
  | FileNotFoundError => "[Errno 2] No such file or directory"
  | FileExistsError => "[Errno 17] File exists"
  | IsADirectoryError => "[Errno 21] Is a directory"
  | NotADirectoryError => "[Errno 20] Not a directory"
  | PermissionError => "[Errno 13] Permission denied"
  | DirectoryNotEmptyError => "[Errno 39] Directory not empty"
  | _ => "[Errno 5] Input/output error"
  end.

Definition os_error (c : exn_class) (p : string) : exn :=
  mk_exn c (errno_text c ++ ": '" ++ p ++ "'").

(** ** Python floats (IEEE 754 binary64)

    A finite float is the rational it denotes, kept in lowest terms; the two
    zeros are not told apart (Python's [==] does not either). *)
Inductive pyfloat : Type :=
| Finite (q : Q)
| Inf (negative : bool)
| NaN.

(** Nearest integer to [n / d] for [0 <= n] and [0 < d], ties to even. *)
Definition round_half_even (n d : Z) : Z :=
  let q := n / d in
  match (2 * (n mod d)) ?= d with
  | Lt => q
  | Gt => q + 1
  | Eq => if Z.even q then q else q + 1
  end.

(** Is [2^e <= n / d]? *)
Definition ge_pow2 (n d e : Z) : bool :=
  if 0 <=? e then d * 2 ^ e <=? n else d <=? n * 2 ^ (- e).

(** [floor (log2 (n / d))] for positive [n] and [d]. *)
Definition floor_log2 (n d : Z) : Z :=
  let e0 := Z.log2 n - Z.log2 d in
  if ge_pow2 n d e0 then e0 else e0 - 1.

(** The multiple of the unit in the last place nearest to [q], ties to even:
    53 significant bits, least exponent -1074 (subnormals included). *)
Definition round_grid (q : Q) : Q :=
  let n := Qnum q in
  let d := Zpos (Qden q) in
  if n =? 0 then 0%Q
  else
    let a := Z.abs n in
    let k := Z.max (floor_log2 a d - 52) (-1074) in
    let m := if 0 <=? k then round_half_even a (d * 2 ^ k)
             else round_half_even (a * 2 ^ (- k)) d in
    let v := if 0 <=? k then inject_Z (m * 2 ^ k)
             else Qmake m (Z.to_pos (2 ^ (- k))) in
    Qred (if n <? 0 then Qopp v else v).

(** Round to nearest overflows exactly from [2^1024 - 2^970] on
    (IEEE 754-2008, 4.3.1). *)
Definition overflow_threshold : Z := 2 ^ 1024 - 2 ^ 970.

Definition round64 (q : Q) : pyfloat :=
  if Qle_bool (inject_Z overflow_threshold) (Qabs q)
  then Inf (Qnum q <? 0)
  else Finite (round_grid q).

(** [a / b] on two [int]s: the correctly rounded quotient
    (Objects/longobject.c, [long_true_divide]). *)
Definition int_truediv (a b : Z) : outcome pyfloat :=
  if b =? 0 then Raise (mk_exn ZeroDivisionError "division by zero")
  else
    match round64 (inject_Z a / inject_Z b) with
    | Finite x => Ok (Finite x)
    | _ => Raise (mk_exn OverflowError "integer division result too large for a float")
    end.

Definition float_sign (x : pyfloat) : comparison :=
  match x with
  | Finite q => Qnum q ?= 0
  | Inf true => Lt
  | Inf false => Gt
  | NaN => Eq
  end.

(** [x * y] on two floats; an overflow gives an infinity, not an exception. *)
Definition float_mul (x y : pyfloat) : pyfloat :=
  match x, y with
  | Finite a, Finite b => round64 (a * b)
  | NaN, _ | _, NaN => NaN
  | _, _ =>
      match float_sign x, float_sign y with
      | Eq, _ | _, Eq => NaN
      | Lt, Lt | Gt, Gt => Inf false
      | _, _ => Inf true
      end
  end.

(** [float(n)] for an [int] small enough to be exact, as the literal [100]
    is. *)
Definition float_of_small_int (n : Z) : pyfloat := Finite (inject_Z n).

(** ** Savings Reporter: [calculate_size_savings] (main.py, 108-112) *)
Definition calculate_size_savings (original_size compressed_size : Z)
  : outcome (Z * pyfloat) :=
  let savings := original_size - compressed_size in
  match int_truediv savings original_size with
  | Raise e => Raise e
  | Ok ratio =>
      let savings_percent := float_mul ratio (float_of_small_int 100) in
      Ok (savings, savings_percent)
  end.

(** ** The local file system

    A tree of directories and regular files.  A file carries its bytes and
    whether the process may read it; a directory lists its entries by name,
    in the order the kernel enumerates them. *)
Set Warnings "-register-all".

Inductive node : Type :=
| File (readable : bool) (data : bytes)
| Dir (entries : list (string * node)).

Definition dir_entries := list (string * node).

Definition is_dir_node (n : node) : bool :=
  match n with Dir _ => true | File _ _ => false end.

(** The entry called [name], if any. *)
Fixpoint child (name : string) (es : dir_entries) : option node :=
  match es with
  | [] => None
  | (k, v) :: r => if String.eqb k name then Some v else child name r
  end.

Definition remove_child (name : string) (es : dir_entries) : dir_entries :=
  filter (fun kv => negb (String.eqb (fst kv) name)) es.

(** Apply [h] to the entry called [name]. *)
Fixpoint map_child (name : string) (h : node -> node) (es : dir_entries)
  : dir_entries :=
  match es with
  | [] => []
  | (k, v) :: r =>
      if String.eqb k name then (k, h v) :: r else (k, v) :: map_child name h r
  end.

(** Create the entry called [name], or replace it where it stands. *)
Definition set_child (name : string) (n : node) (es : dir_entries) : dir_entries :=
  match child name es with
  | Some _ => map_child name (fun _ => n) es
  | None => (es ++ [(name, n)])%list
  end.

(** The node a list of components leads to. *)
Fixpoint lookup (p : list string) (n : node) : option node :=
  match p with
  | [] => Some n
  | c :: p' =>
      match n with
      | Dir es =>
          match child c es with
          | Some n' => lookup p' n'
          | None => None
          end
      | File _ _ => None
      end
  end.

(** Rewrite the entry list of the directory at [p]; nothing changes when [p]
    does not lead to a directory. *)
Fixpoint modify_dir (p : list string) (g : dir_entries -> dir_entries) (n : node)
  : node :=
  match p, n with
  | _, File _ _ => n
  | [], Dir es => Dir (g es)
  | c :: p', Dir es => Dir (map_child c (modify_dir p' g) es)
  end.

(** A name a directory entry can have. *)
Fixpoint has_slash (s : string) : bool :=
  match s with
  | EmptyString => false
  | String c r => Ascii.eqb c slash || has_slash r
  end.

Definition valid_name (s : string) : bool :=
  negb (String.eqb s "") && negb (String.eqb s ".") && negb (String.eqb s "..")
  && negb (has_slash s).

Fixpoint unique_names (names : list string) : bool :=
  match names with
  | [] => true
  | x :: r => negb (existsb (String.eqb x) r) && unique_names r
  end.

(** A tree the kernel can hold: in every directory the entry names are valid
    and pairwise different. *)
Fixpoint wf_node (n : node) : bool :=
  match n with
  | File _ _ => true
  | Dir es =>
      forallb valid_name (map fst es) && unique_names (map fst es)
      && forallb (fun kv => wf_node (snd kv)) es
  end.

(** The depth of the tree below a node. *)
Fixpoint height (n : node) : nat :=
  match n with
  | File _ _ => O
  | Dir es => S (fold_right (fun kv acc => Nat.max (height (snd kv)) acc) O es)
  end.

(** What [stat] shows of a path: nothing, a directory, or a file with its
    permission and bytes. *)
Inductive stat_view : Type :=
| Absent
| IsDir
| IsFile (readable : bool) (data : bytes).

Definition view_of (o : option node) : stat_view :=
  match o with
  | None => Absent
  | Some (Dir _) => IsDir
  | Some (File r d) => IsFile r d
  end.

(** A path with a trailing slash names a directory or nothing. *)
Definition resolve (p : string) (root : node) : option node :=
  match lookup (components p) root with
  | Some (File r d) => if ends_with_slash p then None else Some (File r d)
  | o => o
  end.

(** [os.path.isdir], [os.path.isfile], [os.path.exists] *)
Definition isdir (p : string) (root : node) : bool :=
  match resolve p root with Some (Dir _) => true | _ => false end.

Definition isfile (p : string) (root : node) : bool :=
  match resolve p root with Some (File _ _) => true | _ => false end.

Definition path_exists (p : string) (root : node) : bool :=
  match resolve p root with Some _ => true | None => false end.

(** The parent directory and the last component of a path; [None] for the
    root. *)
Definition parent_and_name (p : string) : option (list string * string) :=
  match rev (components p) with
  | [] => None
  | name :: rev_parent => Some (rev rev_parent, name)
  end.

(** The error of a path that does not resolve: a regular file stands in the
    way (ENOTDIR) or an entry is missing (ENOENT). *)
Fixpoint blocked_by_file (p : list string) (n : node) : bool :=
  match n, p with
  | File _ _, _ :: _ => true
  | Dir es, c :: p' =>
      match child c es with
      | Some n' => blocked_by_file p' n'
      | None => false
      end
  | _, [] => false
  end.

Definition missing_error (p : string) (root : node) : exn :=
  if blocked_by_file (components p) root || ends_with_slash p && isfile (rstrip_slash p) root
  then os_error NotADirectoryError p
  else os_error FileNotFoundError p.

(** The result of a file-system call: the value or the exception, and the
    tree afterwards. *)
Definition fs_result (A : Type) : Type := outcome A * node.

(** [os.remove] *)
Definition os_remove (p : string) (root : node) : fs_result unit :=
  match resolve p root, parent_and_name p with
  | Some (File _ _), Some (parent, name) =>
      (Ok tt, modify_dir parent (remove_child name) root)
  | Some (Dir _), _ => (Raise (os_error IsADirectoryError p), root)
  | _, _ => (Raise (missing_error p root), root)
  end.

(** [os.rmdir] *)
Definition os_rmdir (p : string) (root : node) : fs_result unit :=
  match resolve p root, parent_and_name p with
  | Some (Dir []), Some (parent, name) =>
      (Ok tt, modify_dir parent (remove_child name) root)
  | Some (Dir []), None => (Raise (os_error PermissionError p), root)
  | Some (Dir (_ :: _)), _ => (Raise (os_error DirectoryNotEmptyError p), root)
  | Some (File _ _), _ => (Raise (os_error NotADirectoryError p), root)
  | None, _ => (Raise (missing_error p root), root)
  end.

(** [os.mkdir]: an entry that is already there makes it fail with EEXIST,
    whatever it is, also a regular file named with a trailing slash. *)
Definition os_mkdir (p : string) (root : node) : fs_result unit :=
  match lookup (components p) root, parent_and_name p with
  | Some _, _ => (Raise (os_error FileExistsError p), root)
  | None, None => (Raise (os_error FileExistsError p), root)
  | None, Some (parent, name) =>
      match lookup parent root with
      | Some (Dir _) => (Ok tt, modify_dir parent (set_child name (Dir [])) root)
      | _ => (Raise (missing_error p root), root)
      end
  end.

(** [os.scandir], as [os.walk] reads it: the names of the sub-directories and
    of the other entries. *)
Definition scandir (p : string) (root : node) : option (list string * list string) :=
  match resolve p root with
  | Some (Dir es) =>
      Some (map fst (filter (fun kv => is_dir_node (snd kv)) es),
            map fst (filter (fun kv => negb (is_dir_node (snd kv))) es))
  | _ => None
  end.

(** [open(p, "wb")] followed by writing [data] and closing: creates or
    truncates a regular file. *)
Definition write_file (p : string) (data : bytes) (root : node) : fs_result unit :=
  if ends_with_slash p then
    (Raise (if isdir p root then os_error IsADirectoryError p else missing_error p root), root)
  else
    match resolve p root, parent_and_name p with
    | Some (Dir _), _ => (Raise (os_error IsADirectoryError p), root)
    | Some (File _ _), Some (parent, name) | None, Some (parent, name) =>
        match lookup parent root with
        | Some (Dir _) => (Ok tt, modify_dir parent (set_child name (File true data)) root)
        | _ => (Raise (missing_error p root), root)
        end
    | _, None => (Raise (os_error IsADirectoryError p), root)
    end.

(** [open(p, "rb").read()] *)
Definition read_file (p : string) (root : node) : outcome bytes :=
  match resolve p root with
  | Some (File true data) => Ok data
  | Some (File false _) => Raise (os_error PermissionError p)
  | Some (Dir _) => Raise (os_error IsADirectoryError p)
  | None => Raise (missing_error p root)
  end.

(** [os.path.split] *)
Definition path_split (p : string) : string * string := (dirname p, basename p).

Definition is_oserror (c : exn_class) : bool :=
  match c with
  | FileNotFoundError | FileExistsError | IsADirectoryError | NotADirectoryError
  | PermissionError | DirectoryNotEmptyError => true
  | _ => false
  end.

(** [os.makedirs(name, exist_ok=True)] (Lib/os.py); the recursion is on the
    head of the path, which gets shorter, and [fuel] bounds it. *)
Fixpoint makedirs (fuel : nat) (name : string) (root : node) : fs_result unit :=
  match fuel with
  | O => (Raise (mk_exn OtherError "makedirs: recursion depth"), root)
  | S fuel' =>
      let (head0, tail0) := path_split name in
      let (head, tail) :=
        match tail0 with EmptyString => path_split head0 | _ => (head0, tail0) end in
      let recurse :=
        negb (String.eqb head "") && negb (String.eqb tail "")
        && negb (path_exists head root) in
      let after_head : fs_result bool :=
        if recurse then
          match makedirs fuel' head root with
          | (Ok _, root1) => (Ok (String.eqb tail "."), root1)
          | (Raise e, root1) =>
              match exn_cls e with
              | FileExistsError => (Ok (String.eqb tail "."), root1)
              | _ => (Raise e, root1)
              end
          end
        else (Ok false, root) in
      match after_head with
      | (Raise e, root1) => (Raise e, root1)
      | (Ok true, root1) => (Ok tt, root1)
      | (Ok false, root1) =>
          match os_mkdir name root1 with
          | (Ok _, root2) => (Ok tt, root2)
          | (Raise e, root2) =>
              if is_oserror (exn_cls e) && isdir name root2 then (Ok tt, root2)
              else (Raise e, root2)
          end
      end
  end.

(** ** The world of a run *)

(** A remote object: its bytes, its content type and its tag set. *)
Record s3_object : Type := mk_object {
  obj_data : bytes;
  obj_content_type : option string;
  obj_tags : list (string * string)
}.

(** The object store: objects by bucket name and key, in listing order. *)
Definition s3_store := list ((string * string) * s3_object).

(** One reading of the clock: seconds since the epoch ([time.time()]) and the
    local broken-down time ([time.localtime()]). *)
Record clock_reading : Type := mk_clock {
  epoch : Z;
  tm_year : Z;
  tm_mon : Z;
  tm_mday : Z;
  tm_hour : Z;
  tm_min : Z;
  tm_sec : Z
}.

Inductive log_level : Type := INFO | ERROR.

(** - [w_fs]: the local file system;
    - [w_s3]: the object store;
    - [w_log]: the records the script has handed to the [logging] handlers so
      far; records that a library sends to the same handlers are not in it;
    - [w_clock]: the readings the clock will give, in order;
    - [w_faults]: what each coming call to the AWS SDK will meet, in order: an
      exception it raises, or [None] when it goes through. *)
Record world : Type := mk_world {
  w_fs : node;
  w_s3 : s3_store;
  w_log : list (log_level * string);
  w_clock : list clock_reading;
  w_faults : list (option exn)
}.

Definition set_fs (root : node) (w : world) : world :=
  mk_world root (w_s3 w) (w_log w) (w_clock w) (w_faults w).

Definition set_s3 (s : s3_store) (w : world) : world :=
  mk_world (w_fs w) s (w_log w) (w_clock w) (w_faults w).

(** ** The monad of the script: state and exceptions *)
Definition M (A : Type) : Type := world -> outcome A * world.

Definition ret {A : Type} (a : A) : M A := fun w => (Ok a, w).

Definition raise {A : Type} (e : exn) : M A := fun w => (Raise e, w).

Definition bind {A B : Type} (m : M A) (k : A -> M B) : M B :=
  fun w =>
    match m w with
    | (Ok a, w1) => k a w1
    | (Raise e, w1) => (Raise e, w1)
    end.

Notation "x <- m ;; k" := (bind m (fun x => k))
  (at level 100, m at next level, right associativity).
Notation "m ;;; k" := (bind m (fun _ => k))
  (at level 100, right associativity).

(** [try: m  except Exception as e: handler e] *)
Definition try_except {A : Type} (m : M A) (handler : exn -> M A) : M A :=
  fun w =>
    match m w with
    | (Ok a, w1) => (Ok a, w1)
    | (Raise e, w1) => handler e w1
    end.

(** [for x in xs: body x] *)
Fixpoint for_each {A : Type} (xs : list A) (body : A -> M unit) : M unit :=
  match xs with
  | [] => ret tt
  | x :: r => body x ;;; for_each r body
  end.

(** A file-system call, run on the world's file system. *)
Definition lift_fs {A : Type} (f : node -> fs_result A) : M A :=
  fun w => let (r, root) := f (w_fs w) in (r, set_fs root w).

(** A read-only file-system query. *)
Definition query_fs {A : Type} (f : node -> A) : M A :=
  fun w => (Ok (f (w_fs w)), w).

Definition of_outcome {A : Type} (o : outcome A) : M A := fun w => (o, w).

(** [logging.info(msg)], [logging.error(msg)]: the record goes to the two
    handlers of the set-up.  The file handler appends the formatted line to
    the file it has held open since then, the one at [log_filename] as long as
    that path still names it; no path of the file system is created or removed
    by it.  The records are kept in [w_log]; the bytes they add to the log
    file are not written into [w_fs], so what [w_fs] shows at [log_filename]
    after a record are the bytes from before it. *)
Definition log (level : log_level) (msg : string) : M unit :=
  fun w => (Ok tt, mk_world (w_fs w) (w_s3 w) (w_log w ++ [(level, msg)])%list
                            (w_clock w) (w_faults w)).

Definition logging_info : string -> M unit := log INFO.
Definition logging_error : string -> M unit := log ERROR.

Definition epoch_start : clock_reading := mk_clock 0 1970 1 1 0 0 0.

(** Read the clock. *)
Definition read_clock : M clock_reading :=
  fun w =>
    match w_clock w with
    | [] => (Ok epoch_start, w)
    | t :: r => (Ok t, mk_world (w_fs w) (w_s3 w) (w_log w) r (w_faults w))
    end.

(** A call into the AWS SDK: it goes through or raises what the fault
    schedule holds for it. *)
Definition sdk_call : M unit :=
  fun w =>
    match w_faults w with
    | [] => (Ok tt, w)
    | f :: r =>
        let w1 := mk_world (w_fs w) (w_s3 w) (w_log w) (w_clock w) r in
        match f with
        | None => (Ok tt, w1)
        | Some e => (Raise e, w1)
        end
    end.

(** *** The object store *)
Definition same_key (k1 k2 : string * string) : bool :=
  String.eqb (fst k1) (fst k2) && String.eqb (snd k1) (snd k2).

Fixpoint s3_get (k : string * string) (s : s3_store) : option s3_object :=
  match s with
  | [] => None
  | (k', o) :: r => if same_key k' k then Some o else s3_get k r
  end.

Fixpoint s3_put (k : string * string) (o : s3_object) (s : s3_store) : s3_store :=
  match s with
  | [] => [(k, o)]
  | (k', o') :: r => if same_key k' k then (k, o) :: r else (k', o') :: s3_put k o r
  end.

(** [bucket.objects.all()]: the keys of a bucket. *)
Definition bucket_keys (bucket_name : string) (s : s3_store) : list string :=
  map (fun ko => snd (fst ko))
      (filter (fun ko => String.eqb (fst (fst ko)) bucket_name) s).

Definition list_objects (bucket_name : string) : M (list string) :=
  sdk_call ;;; fun w => (Ok (bucket_keys bucket_name (w_s3 w)), w).

(** [bucket.download_file(key, filename)] *)
Definition download_file (bucket_name key filename : string) : M unit :=
  sdk_call ;;;
  o <- (fun w => match s3_get (bucket_name, key) (w_s3 w) with
                 | Some o => (Ok o, w)
                 | None => (Raise (mk_exn ClientError "Not Found"), w)
                 end) ;;
  lift_fs (write_file filename (obj_data o)).

(** [client.upload_file(filename, bucket, key, ExtraArgs={'ContentType': ...})]:
    the transfer is chunked above the configured threshold; what it leaves in
    the store is the whole file under [key]. *)
Definition upload_file (filename bucket_name key : string)
  (content_type : option string) : M unit :=
  data <- (fun w => (read_file filename (w_fs w), w)) ;;
  sdk_call ;;;
  fun w => (Ok tt, set_s3 (s3_put (bucket_name, key)
                                  (mk_object data content_type []) (w_s3 w)) w).

(** [client.put_object_tagging(Bucket=..., Key=..., Tagging={'TagSet': ...})] *)
Definition put_object_tagging (bucket_name key : string)
  (tag_set : list (string * string)) : M unit :=
  sdk_call ;;;
  fun w =>
    match s3_get (bucket_name, key) (w_s3 w) with
    | Some o =>
        (Ok tt, set_s3 (s3_put (bucket_name, key)
                               (mk_object (obj_data o) (obj_content_type o) tag_set)
                               (w_s3 w)) w)
    | None => (Raise (mk_exn ClientError "NoSuchKey"), w)
    end.

(** ** [tarfile] and [gzip] *)

(** An archive member: its name in the archive, its type, and the bytes that
    follow its header.  The other fields that [TarFile.gettarinfo] fills from
    [lstat] (mode, owner and group with their names, modification time) are
    not kept in the tree of the model; they reach the archive through
    [tar_header] alone. *)
Record tar_member : Type := mk_member {
  mem_name : string;
  mem_isdir : bool;
  mem_data : bytes
}.

(** The byte layouts the model does not spell out: the header block(s) of a
    member, the raw DEFLATE stream of a byte string at level 9, and its
    CRC-32.  [tar_header] writes, with the name, type and size of the member,
    the mode, owner, group and modification time that [lstat] reports for the
    entry when it is added: it stands for the attributes of the entries at
    the time of one build, and two builds have the same [tar_header] on a
    member only when the entry has the same attributes in both. *)
Class Codec : Type := {
  tar_header : tar_member -> bytes;
  deflate : bytes -> bytes;
  crc32 : bytes -> Z
}.

(** The codec of a build that finds other attributes on the entries: other
    header blocks, the same compression. *)
Definition with_headers (codec : Codec) (header : tar_member -> bytes) : Codec :=
  {| tar_header := header; deflate := @deflate codec; crc32 := @crc32 codec |}.

Definition NUL : ascii := "000"%char.

Fixpoint nul_bytes (n : nat) : bytes :=
  match n with
  | O => EmptyString
  | S k => String NUL (nul_bytes k)
  end.

Definition BLOCKSIZE : nat := 512.
Definition RECORDSIZE : nat := (BLOCKSIZE * 20)%nat.

(** Zero bytes up to the next multiple of [size]. *)
Definition padding (size len : nat) : bytes :=
  match (len mod size)%nat with
  | O => EmptyString
  | r => nul_bytes (size - r)
  end.

(** [s.lstrip("/")] *)
Fixpoint lstrip_slash (s : string) : string :=
  match s with
  | String c r => if Ascii.eqb c slash then lstrip_slash r else s
  | EmptyString => EmptyString
  end.

Section Archive.
Context {codec : Codec}.

(** What [TarFile.addfile] writes for one member. *)
Definition member_blocks (m : tar_member) : bytes :=
  tar_header m ++ mem_data m ++ padding BLOCKSIZE (String.length (mem_data m)).

Definition tar_blocks (ms : list tar_member) : bytes :=
  String.concat "" (map member_blocks ms).

(** What [TarFile.close] appends: two zero blocks, then zeros up to a full
    record. *)
Definition tar_end (written : nat) : bytes :=
  nul_bytes (2 * BLOCKSIZE) ++ padding RECORDSIZE (written + 2 * BLOCKSIZE).

Definition tar_archive (ms : list tar_member) : bytes :=
  let body := tar_blocks ms in body ++ tar_end (String.length body).

(** [struct.pack("<L", v)] *)
Definition le32 (v : Z) : bytes :=
  let b (i : Z) := ascii_of_N (Z.to_N ((v / 256 ^ i) mod 256)) in
  String (b 0) (String (b 1) (String (b 2) (String (b 3) EmptyString))).

(** The name field of the gzip header: the base name, without [.gz]. *)
Definition gzip_fname (filename : string) : string :=
  let fname := basename filename in
  if endswith fname ".gz" then substring 0 (String.length fname - 3) fname
  else fname.

(** What [GzipFile._write_gzip_header] writes before the modification
    time. *)
Definition gzip_magic (fname : string) : bytes :=
  String "031"%char (String "139"%char (String "008"%char
    (String (if String.eqb fname "" then "000"%char else "008"%char) EmptyString))).

Definition gzip_header (fname : string) (mtime : Z) : bytes :=
  gzip_magic fname ++ le32 mtime
  ++ String "002"%char (String "255"%char EmptyString)
  ++ (if String.eqb fname "" then "" else fname ++ String NUL EmptyString).

(** The whole gzip file for [data]: header, DEFLATE stream, CRC-32 and
    length. *)
Definition gzip_stream (filename : string) (mtime : Z) (data : bytes) : bytes :=
  gzip_header (gzip_fname filename) mtime
  ++ deflate data ++ le32 (crc32 data)
  ++ le32 (Z.of_nat (String.length data) mod 2 ^ 32).

End Archive.

(** [sorted] on named items. *)
Fixpoint insert_by_name {A : Type} (x : string * A) (l : list (string * A))
  : list (string * A) :=
  match l with
  | [] => [x]
  | y :: r => if String.leb (fst x) (fst y) then x :: l else y :: insert_by_name x r
  end.

Definition sort_by_name {A : Type} (l : list (string * A)) : list (string * A) :=
  fold_right insert_by_name [] l.

(** The members written so far and the exception that stopped the walk, if
    any. *)
Definition tar_progress : Type := list tar_member * option exn.

(** Run the additions one after the other, up to the first that raises. *)
Fixpoint in_sequence (steps : list tar_progress) : tar_progress :=
  match steps with
  | [] => ([], None)
  | (ms, Some e) :: _ => (ms, Some e)
  | (ms, None) :: r => let (ms', e) := in_sequence r in ((ms ++ ms')%list, e)
  end.

(** [TarFile.add(name, arcname)] on an entry that [lstat] shows as [n]:
    the archive file itself is skipped, a regular file is opened and copied, a
    directory is recorded and its entries are added in sorted order, each as
    [os.path.join(name, f)] under [os.path.join(arcname, f)]. *)
Fixpoint tar_add_node (self_name : list string) (n : node) (name arcname : string)
  : tar_progress :=
  if list_eq_dec string_dec (components name) self_name then ([], None)
  else
    match n with
    | File readable data =>
        if readable then ([mk_member (lstrip_slash arcname) false data], None)
        else ([], Some (os_error PermissionError name))
    | Dir es =>
        let added :=
          map (fun kv => (fst kv,
                          tar_add_node self_name (snd kv)
                            (path_join name (fst kv)) (path_join arcname (fst kv))))
              es in
        let (ms, e) := in_sequence (map snd (sort_by_name added)) in
        (mk_member (lstrip_slash arcname) true "" :: ms, e)
    end.

(** [tar.add(name, arcname)] for the archive open at [tar_path]. *)
Definition tar_add (tar_path name arcname : string) (root : node)
  : tar_progress :=
  match resolve name root with
  | Some n => tar_add_node (components tar_path) n name arcname
  | None =>
      if list_eq_dec string_dec (components name) (components tar_path)
      then ([], None)
      else ([], Some (missing_error name root))
  end.

(** ** [time.strftime('%Y-%m-%d-%H-%M-%S')] *)
Definition digit_char (d : Z) : ascii := ascii_of_N (Z.to_N (48 + d mod 10)).

Fixpoint decimal_digits (fuel : nat) (n : Z) (acc : string) : string :=
  match fuel with
  | O => acc
  | S fuel' =>
      let acc' := String (digit_char n) acc in
      if n / 10 =? 0 then acc' else decimal_digits fuel' (n / 10) acc'
  end.

(** [%Y]: the year in decimal. *)
Definition decimal (n : Z) : string :=
  if n <? 0 then "-" ++ decimal_digits (S (Z.to_nat (Z.log2 (- n)))) (- n) ""
  else decimal_digits (S (Z.to_nat (Z.log2 n))) n "".

(** [%m], [%d], [%H], [%M], [%S]: two digits. *)
Definition two_digits (n : Z) : string :=
  String (digit_char (n / 10)) (String (digit_char n) EmptyString).

Definition strftime_stamp (t : clock_reading) : string :=
  decimal (tm_year t) ++ "-" ++ two_digits (tm_mon t) ++ "-" ++ two_digits (tm_mday t)
  ++ "-" ++ two_digits (tm_hour t) ++ "-" ++ two_digits (tm_min t)
  ++ "-" ++ two_digits (tm_sec t).

(** ** The script (src/main.py) *)

Definition log_filename : string := "/tmp/s3_compression_log.txt".

(** [logging.basicConfig(..., handlers=[FileHandler(log_filename), ...])]
    (main.py, 11-17): the file handler opens the log file for appending, which
    creates it when it is not there. *)
Definition logging_basicConfig : M unit :=
  present <- query_fs (isfile log_filename) ;;
  if present then ret tt else lift_fs (write_file log_filename "").

(** [configure_aws] (main.py, 19-33); the S3 resource it returns carries no
    state of its own.  The records that botocore itself logs at level INFO
    while the session resolves its credentials are not kept. *)
Definition configure_aws : M unit :=
  try_except
    (sdk_call ;;;                     (* boto3.Session(profile_name='default') *)
     sdk_call ;;;                     (* session.resource('s3') *)
     logging_info "AWS SDK configured successfully.")
    (fun e =>
       match exn_cls e with
       | NoCredentialsError | PartialCredentialsError =>
           logging_error ("Credentials issue: " ++ exn_msg e) ;;; raise e
       | _ =>
           logging_error ("An unexpected error occurred: " ++ exn_msg e) ;;; raise e
       end).

(** [download_files] (main.py, 35-54) *)
Definition download_files (bucket_name : string)
  (ignore_patterns : option (list string)) : M string :=
  let ignore_patterns :=
    match ignore_patterns with None => [] | Some l => l end in
  let local_dir := "/tmp/s3_files/" in
  lift_fs (makedirs (S (String.length local_dir)) local_dir) ;;;
  keys <- list_objects bucket_name ;;
  for_each keys (fun key =>
    if matches_ignore key ignore_patterns then
      logging_info ("Skipping " ++ key ++ " due to ignore pattern.")
    else
      let local_file_path := path_join local_dir key in
      let parent := dirname local_file_path in
      lift_fs (makedirs (S (String.length parent)) parent) ;;;
      download_file bucket_name key local_file_path ;;;
      logging_info ("Downloaded " ++ key ++ " to " ++ local_file_path)) ;;;
  ret local_dir.

(** The loop over [os.walk(path, topdown=False)] with its body (main.py,
    68-72).  The generator scans a directory when it reaches it, descends into
    every sub-directory, and only then yields the directory; the body removes
    the yielded files and then the yielded sub-directories.  A directory that
    cannot be scanned yields nothing.  [fuel] bounds the depth of the
    descent. *)
Fixpoint walk_and_remove (fuel : nat) (top : string) : M unit :=
  match fuel with
  | O => raise (mk_exn OtherError "os.walk: recursion depth")
  | S fuel' =>
      scan <- query_fs (scandir top) ;;
      match scan with
      | None => ret tt
      | Some (dirs, files) =>
          for_each dirs (fun name => walk_and_remove fuel' (path_join top name)) ;;;
          for_each files (fun name => lift_fs (os_remove (path_join top name))) ;;;
          for_each dirs (fun name => lift_fs (os_rmdir (path_join top name)))
      end
  end.

Definition temp_paths : list string :=
  [ "/tmp/s3_files/";              (* Directory where S3 files are downloaded *)
    "/tmp/weekly-archive.tar.gz";  (* The compressed tar file *)
    "/tmp/s3_compression_log.txt"  (* Log file *) ].

(** The body of the loop over [temp_paths] (main.py, 66-76); the walk gets as
    much fuel as the tree is deep. *)
Definition remove_temp_path (path : string) : M unit :=
  is_d <- query_fs (isdir path) ;;
  if is_d then
    depth <- query_fs height ;;
    walk_and_remove (S depth) path ;;;
    lift_fs (os_rmdir path)
  else
    is_f <- query_fs (isfile path) ;;
    if is_f then lift_fs (os_remove path) else ret tt.

(** [cleanup_local_resources] (main.py, 56-78) *)
Definition cleanup_local_resources : M unit :=
  for_each temp_paths remove_temp_path ;;;
  logging_info "Cleaned up all local temporary resources.".

Section Script.
Context {codec : Codec}.

(** [create_tar_gz_archive] (main.py, 80-91).  [tarfile.open(tar_path, 'w')]
    creates the file; when [tar.add] raises, the [with] block closes it with
    the blocks written so far and the exception goes on.  [gzip.open] creates
    the output file and writes the header, with the time of the moment, as it
    opens; [struct.pack] refuses a time outside 32 bits. *)
Definition create_tar_gz_archive (source_dir output_filename : string) : M string :=
  let tar_path := output_filename ++ ".tar" in
  let gz_path := output_filename ++ ".tar.gz" in
  lift_fs (write_file tar_path "") ;;;
  progress <- query_fs (tar_add tar_path source_dir (basename source_dir)) ;;
  match progress with
  | (members, Some e) =>
      lift_fs (write_file tar_path (tar_blocks members)) ;;; raise e
  | (members, None) =>
      lift_fs (write_file tar_path (tar_archive members)) ;;;
      tar_file <- (fun w => (read_file tar_path (w_fs w), w)) ;;
      lift_fs (write_file gz_path "") ;;;
      now <- read_clock ;;
      (if (0 <=? epoch now) && (epoch now <? 2 ^ 32) then ret tt
       else
         lift_fs (write_file gz_path (gzip_magic (gzip_fname gz_path))) ;;;
         raise (mk_exn OtherError "struct.error: argument out of range")) ;;;
      lift_fs (write_file gz_path (gzip_stream gz_path (epoch now) tar_file)) ;;;
      lift_fs (os_remove tar_path) ;;;
      logging_info ("Created archive " ++ gz_path) ;;;
      ret gz_path
  end.

(** [upload_archive_to_s3] (main.py, 93-100) *)
Definition upload_archive_to_s3 (bucket_name file_path archive_name : string)
  : M unit :=
  upload_file file_path bucket_name archive_name (Some "application/gzip") ;;;
  logging_info ("Uploaded " ++ archive_name ++ " to S3 bucket " ++ bucket_name).

(** [str(tags)] for a dict of plain strings. *)
Definition dict_repr (tags : list (string * string)) : string :=
  "{" ++ String.concat ", "
           (map (fun kv => "'" ++ fst kv ++ "': '" ++ snd kv ++ "'") tags) ++ "}".

(** [tag_archive] (main.py, 102-106) *)
Definition tag_archive (bucket_name archive_name : string)
  (tags : list (string * string)) : M unit :=
  put_object_tagging bucket_name archive_name tags ;;;
  logging_info ("Tagged " ++ archive_name ++ " with " ++ dict_repr tags).

(** [upload_log_to_s3] (main.py, 114-118) *)
Definition upload_log_to_s3 (bucket_name local_log_path s3_log_directory
  timestamp : string) : M unit :=
  let s3_log_path := s3_log_directory ++ "/python-log-" ++ timestamp ++ ".txt" in
  upload_file local_log_path bucket_name s3_log_path None ;;;
  logging_info ("Uploaded log file to S3 at " ++ s3_log_path).

(** [main] (main.py, 120-146) *)
Definition main : M unit :=
  let bucket_name := "my-app-090823" in
  let s3_log_directory := "archival-logs" in
  now <- read_clock ;;
  let timestamp := strftime_stamp now in
  configure_aws ;;;
  let ignore_patterns := [".tar.gz"; s3_log_directory ++ "/"] in
  local_dir <- download_files bucket_name (Some ignore_patterns) ;;
  archive_path <- create_tar_gz_archive local_dir "/tmp/weekly-archive" ;;
  let archive_name := "weekly-archive-" ++ timestamp ++ ".tar.gz" in
  upload_archive_to_s3 bucket_name archive_path archive_name ;;;
  tag_archive bucket_name archive_name [("ArchiveStatus", "ReadyForGlacier")] ;;;
  upload_log_to_s3 bucket_name log_filename s3_log_directory timestamp ;;;
  cleanup_local_resources.

(** The [__main__] guard (main.py, 148-154) and the exit status of the
    interpreter: 0 when the guard falls off its end, 1 when an exception
    leaves it. *)
Definition main_guard (w : world) : Z * world :=
  match main w with
  | (Ok _, w1) => (0, w1)
  | (Raise e, w1) =>
      match (logging_error ("An error occurred in the main execution: " ++ exn_msg e) ;;;
             cleanup_local_resources) w1 with
      | (Ok _, w2) => (0, w2)
      | (Raise _, w2) => (1, w2)
      end
  end.

(** The script from its first line: the logging set-up at import time, then
    the guard. *)
Definition script (w : world) : Z * world :=
  match logging_basicConfig w with
  | (Ok _, w1) => main_guard w1
  | (Raise _, w1) => (1, w1)
  end.

End Script.

(** ** Notions used in the statements *)

(** [p] is an initial segment of [q]. *)
Fixpoint starts_with (p q : list string) : bool :=
  match p, q with
  | [], _ => true
  | a :: p', b :: q' => String.eqb a b && starts_with p' q'
  | _ :: _, [] => false
  end.

(** The three managed locations, as component lists. *)
Definition managed : list (list string) := map components temp_paths.

(** [q] is none of the managed paths and lies below none of them. *)
Definition outside_managed (q : list string) : bool :=
  forallb (fun p => negb (starts_with p q)) managed.

(** Replace the entries of the directory at [p]. *)
Definition put_entries (p : list string) (es : dir_entries) (root : node) : node :=
  modify_dir p (fun _ => es) root.

(** Nothing outside the subtree at [p] differs between [root] and [root']. *)
Definition same_outside (p : list string) (root root' : node) : Prop :=
  forall q, starts_with p q = false ->
            view_of (lookup q root') = view_of (lookup q root).

(** The bytes of the regular file at [p], if there is one. *)
Definition file_bytes (p : string) (root : node) : option bytes :=
  match resolve p root with
  | Some (File _ data) => Some data
  | _ => None
  end.

(** A character is a decimal digit. *)
Definition is_digit (c : ascii) : bool :=
  let n := N_of_ascii c in (48 <=? n)%N && (n <=? 57)%N.

(** A string reads [YYYY-MM-DD-HH-MM-SS]. *)
Definition stamp_shape (s : string) : bool :=
  match list_ascii_of_string s with
  | [y1; y2; y3; y4; d1; m1; m2; d2; a1; a2; d3; h1; h2; d4; i1; i2; d5; s1; s2] =>
      forallb is_digit [y1; y2; y3; y4; m1; m2; a1; a2; h1; h2; i1; i2; s1; s2]
      && forallb (Ascii.eqb "-"%char) [d1; d2; d3; d4; d5]
  | _ => false
  end.

(** The value of a decimal digit. *)
Definition digit_value (c : ascii) : option Z :=
  if is_digit c then Some (Z.of_N (N_of_ascii c) - 48) else None.

(** The number that a row of decimal digits writes after [acc]. *)
Fixpoint read_decimal (cs : list ascii) (acc : Z) : option Z :=
  match cs with
  | [] => Some acc
  | c :: cs' =>
      match digit_value c with
      | Some d => read_decimal cs' (10 * acc + d)
      | None => None
      end
  end.

(** The year, month, day, hour, minute and second that a text
    [YYYY-MM-DD-HH-MM-SS] writes. *)
Definition read_stamp (s : string) : option (Z * Z * Z * Z * Z * Z) :=
  match list_ascii_of_string s with
  | [y1; y2; y3; y4; d1; m1; m2; d2; a1; a2; d3; h1; h2; d4; i1; i2; d5; s1; s2] =>
      if forallb (Ascii.eqb "-"%char) [d1; d2; d3; d4; d5] then
        match read_decimal [y1; y2; y3; y4] 0, read_decimal [m1; m2] 0,
              read_decimal [a1; a2] 0, read_decimal [h1; h2] 0,
              read_decimal [i1; i2] 0, read_decimal [s1; s2] 0 with
        | Some year, Some mon, Some mday, Some hour, Some min, Some sec =>
            Some (year, mon, mday, hour, min, sec)
        | _, _, _, _, _, _ => None
        end
      else None
  | _ => None
  end.

(** The fields of a clock reading lie in the ranges of a calendar date with
    a four-digit year. *)
Definition calendar_time (t : clock_reading) : Prop :=
  1000 <= tm_year t <= 9999 /\ 1 <= tm_mon t <= 12 /\ 1 <= tm_mday t <= 31
  /\ 0 <= tm_hour t <= 23 /\ 0 <= tm_min t <= 59 /\ 0 <= tm_sec t <= 61.

(** The reading the clock gives next. *)
Definition next_reading (w : world) : clock_reading := hd epoch_start (w_clock w).

(** The names [os.walk] yields for a directory: its sub-directories and its
    other entries. *)
Definition dir_names (es : dir_entries) : list string :=
  map fst (filter (fun kv => is_dir_node (snd kv)) es).

Definition file_names (es : dir_entries) : list string :=
  map fst (filter (fun kv => negb (is_dir_node (snd kv))) es).

(** The entry called [d] with all its contents removed. *)
Definition emptied (d : string) (es : dir_entries) : dir_entries :=
  map_child d (fun _ => Dir []) es.


(** ** Sample data

    A codec that stores bytes as they are, and small worlds on which the
    script can be run. *)
Definition stored_codec : Codec :=
  {| tar_header := fun m => "<" ++ mem_name m ++ (if mem_isdir m then "/" else "") ++ ">";
     deflate := fun b => b;
     crc32 := fun _ => 0 |}.

Definition sample_bucket : string := "my-app-090823".

Definition plain_object (data : bytes) : s3_object := mk_object data None [].

(** A mirror of two objects, an archive and a log left by a run. *)
Definition sample_tree : node :=
  Dir [("tmp", Dir [("s3_files", Dir [("a", Dir [("b.txt", File true "hi")]);
                                      ("c.txt", File true "x")]);
                    ("weekly-archive.tar.gz", File true "gz");
                    ("s3_compression_log.txt", File true "");
                    ("other.txt", File true "keep")])].

(** The mirror alone. *)
Definition mirror_tree : node :=
  Dir [("tmp", Dir [("s3_files", Dir [("a", Dir [("b.txt", File true "hi")]);
                                      ("c.txt", File true "x")])])].

(** The mirror with a file the process may not read. *)
Definition unreadable_tree : node :=
  Dir [("tmp", Dir [("s3_files", Dir [("a", Dir [("b.txt", File false "hi")]);
                                      ("c.txt", File true "x")])])].

Definition empty_tmp : node := Dir [("tmp", Dir [])].

(** A directory with one file where the archive is expected. *)
Definition archive_dir_tree : node :=
  Dir [("tmp", Dir [("weekly-archive.tar.gz", Dir [("g", File true "x")])])].

(** [/tmp] as the logging set-up leaves it. *)
Definition started_tmp : node :=
  Dir [("tmp", Dir [("s3_compression_log.txt", File true "")])].

Definition world_of (root : node) (s : s3_store) (clock : list clock_reading) : world :=
  mk_world root s [] clock [].

Definition sample_time : clock_reading := mk_clock 1700000000 2023 11 14 22 13 20.

(** A bucket with two plain objects. *)
Definition sample_store : s3_store :=
  [((sample_bucket, "a/b.txt"), plain_object "hi");
   ((sample_bucket, "c.txt"), plain_object "x")].

(** A bucket in which one key is a proper directory prefix of another. *)
Definition clashing_store : s3_store :=
  [((sample_bucket, "a"), plain_object "hi");
   ((sample_bucket, "a/b"), plain_object "x")].

(** A bucket with a key that starts with a slash. *)
Definition absolute_key_store : s3_store :=
  [((sample_bucket, "/tmp/evil.txt"), plain_object "hi")].

(** Neither path is the other or lies below it. *)
Definition apart (p q : list string) : bool :=
  negb (starts_with p q) && negb (starts_with q p).

(** A computation keeps an invariant of the world, however it ends. *)
Definition preserves {A : Type} (I : world -> Prop) (m : M A) : Prop :=
  forall w, I w -> I (snd (m w)).

(** The object store stays as it is. *)
Definition store_is (s : s3_store) (w : world) : Prop := w_s3 w = s.

(** The file system stays well-formed. *)
Definition fs_wf (w : world) : Prop := wf_node (w_fs w) = true.

(** ** Further notions

    Used in the statements about the stages of a run. *)

(** The last character of a string. *)
Fixpoint last_char (s : string) : option ascii :=
  match s with
  | EmptyString => None
  | String c EmptyString => Some c
  | String _ r => last_char r
  end.

(** The classes the first [except] clause of [configure_aws] catches
    (main.py, 28). *)
Definition is_credentials_error (c : exn_class) : bool :=
  match c with
  | NoCredentialsError | PartialCredentialsError => true
  | _ => false
  end.

(** Where [download_files] puts the object with a given key (main.py, 49). *)
Definition mirror_path (key : string) : string := path_join "/tmp/s3_files/" key.

(** The ignore rule of a call: no pattern when the argument is [None]
    (main.py, 37-38 and 45). *)
Definition ignored (ignore_patterns : option (list string)) (key : string) : bool :=
  matches_ignore key (match ignore_patterns with None => [] | Some l => l end).

(** The body of the loop of [download_files] (main.py, 45-52). *)
Definition mirror_object (bucket_name : string) (ignore_patterns : list string)
  (key : string) : M unit :=
  if matches_ignore key ignore_patterns then
    logging_info ("Skipping " ++ key ++ " due to ignore pattern.")
  else
    let local_file_path := path_join "/tmp/s3_files/" key in
    let parent := dirname local_file_path in
    lift_fs (makedirs (S (String.length parent)) parent) ;;;
    download_file bucket_name key local_file_path ;;;
    logging_info ("Downloaded " ++ key ++ " to " ++ local_file_path).

(** The record [download_files] logs for a key (main.py, 46 and 52). *)
Definition mirror_record (ignore_patterns : option (list string)) (key : string)
  : log_level * string :=
  (INFO,
   if ignored ignore_patterns key
   then "Skipping " ++ key ++ " due to ignore pattern."
   else "Downloaded " ++ key ++ " to " ++ mirror_path key).

(** What a path shows. *)
Definition view_at (q : list string) (root : node) : stat_view := view_of (lookup q root).

(** From [root] to [root'] every directory stays a directory, and every
    regular file stays as it is, unless its path is in [over], where it may
    have been written anew. *)
Definition kept (over : list string -> Prop) (root root' : node) : Prop :=
  forall q,
    (view_at q root = IsDir -> view_at q root' = IsDir)
    /\ (forall r d, view_at q root = IsFile r d ->
          view_at q root' = IsFile r d
          \/ (over q /\ exists d', view_at q root' = IsFile true d')).

(** The store is [s] and the file system has kept what [root0] held. *)
Definition mirror_invariant (s : s3_store) (root0 : node)
  (over : list string -> Prop) (w : world) : Prop :=
  w_s3 w = s /\ kept over root0 (w_fs w).

(** The name [tar.add] gives the entry at [rel] below the entry added as
    [arcname]: [os.path.join] at every level, leading slashes stripped. *)
Definition relative_name (arcname : string) (rel : list string) : string :=
  lstrip_slash (fold_left path_join rel arcname).

(** Against the store [s0], the store of [w] differs at most at [keys], and
    holds an object wherever [s0] does. *)
Definition store_frame (keys : list (string * string)) (s0 : s3_store) (w : world) : Prop :=
  (forall k, (forall k', In k' keys -> same_key k' k = false) ->
             s3_get k (w_s3 w) = s3_get k s0)
  /\ (forall k, s3_get k s0 <> None -> s3_get k (w_s3 w) <> None).

(** * Properties *)

(** ** Strings and paths *)

Lemma append_nil_r (s : string) : s ++ "" = s.
Proof. induction s; simpl; congruence. Qed.

Lemma append_assoc (a b c : string) : (a ++ b) ++ c = a ++ (b ++ c).
Proof. induction a; simpl; congruence. Qed.

Lemma valid_name_inv (s : string) :
  valid_name s = true ->
  s <> "" /\ s <> "." /\ s <> ".." /\ has_slash s = false.
Proof.
  unfold valid_name. rewrite !andb_true_iff, !negb_true_iff.
  intros [[[H1 H2] H3] H4]. repeat split; try assumption.
  all: intros ->; discriminate.
Qed.

Lemma raw_components_no_slash (s cur : string) :
  has_slash s = false ->
  raw_components s cur = match cur ++ s with "" => [] | _ => [cur ++ s] end.
Proof.
  revert cur. induction s as [|c s IH]; intros cur H; simpl in *.
  - rewrite append_nil_r. reflexivity.
  - apply orb_false_iff in H. destruct H as [Hc Hs]. rewrite Hc.
    rewrite IH by assumption. rewrite append_assoc. reflexivity.
Qed.

Lemma raw_components_slash (a b cur : string) :
  raw_components (a ++ String slash b) cur
  = (raw_components a cur ++ raw_components b "")%list.
Proof.
  revert cur. induction a as [|c a IH]; intros cur; simpl.
  - destruct cur; reflexivity.
  - destruct (Ascii.eqb c slash).
    + destruct cur; simpl; rewrite IH; reflexivity.
    + apply IH.
Qed.

Lemma ends_with_slash_inv (s : string) :
  ends_with_slash s = true -> exists a, s = a ++ String slash "".
Proof.
  induction s as [|c s IH]; simpl; [discriminate|].
  destruct s as [|d s'].
  - intros H. apply Ascii.eqb_eq in H. subst. exists "". reflexivity.
  - intros H. destruct (IH H) as [a Ha]. exists (String c a). simpl. rewrite <- Ha. reflexivity.
Qed.

Lemma starts_with_slash_valid (s : string) :
  has_slash s = false -> starts_with_slash s = false.
Proof. destruct s; simpl; [reflexivity|]. intros H. apply orb_false_iff in H. tauto. Qed.

Lemma raw_components_join (top name : string) :
  valid_name name = true ->
  raw_components (path_join top name) "" = (raw_components top "" ++ [name])%list.
Proof.
  intros Hv. destruct (valid_name_inv _ Hv) as (Hne & _ & _ & Hs).
  assert (Hn : raw_components name "" = [name]).
  { rewrite raw_components_no_slash by assumption. simpl. destruct name; congruence. }
  unfold path_join. rewrite starts_with_slash_valid by assumption.
  destruct top as [|c top'] eqn:Et; [simpl; exact Hn|]. rewrite <- Et. clear Et.
  destruct (ends_with_slash top) eqn:E.
  - destruct (ends_with_slash_inv _ E) as [a ->].
    rewrite append_assoc. simpl. rewrite !raw_components_slash. simpl.
    rewrite Hn, app_nil_r. reflexivity.
  - change (top ++ "/" ++ name) with (top ++ String slash name).
    rewrite raw_components_slash, Hn. reflexivity.
Qed.

Lemma components_join (top name : string) :
  valid_name name = true ->
  components (path_join top name) = (components top ++ [name])%list.
Proof.
  intros Hv. unfold components. rewrite raw_components_join by assumption.
  rewrite fold_left_app. simpl. unfold norm_step at 1.
  destruct (valid_name_inv _ Hv) as (_ & H1 & H2 & _).
  apply String.eqb_neq in H1, H2. rewrite H1, H2. reflexivity.
Qed.

(** ** Directory entries *)

Lemma child_map_child (c d : string) (h : node -> node) (es : dir_entries) :
  child d (map_child c h es)
  = if String.eqb c d then option_map h (child c es) else child d es.
Proof.
  induction es as [|[k v] r IH]; simpl.
  - destruct (String.eqb c d); reflexivity.
  - destruct (String.eqb k c) eqn:Ekc; simpl.
    + apply String.eqb_eq in Ekc. subst k.
      destruct (String.eqb c d); reflexivity.
    + rewrite IH. destruct (String.eqb_spec c d) as [->|Hcd].
      * rewrite Ekc. reflexivity.
      * reflexivity.
Qed.

Lemma child_remove_child (c d : string) (es : dir_entries) :
  child d (remove_child c es) = if String.eqb c d then None else child d es.
Proof.
  unfold remove_child. induction es as [|[k v] r IH]; simpl.
  - destruct (String.eqb c d); reflexivity.
  - destruct (String.eqb k c) eqn:Ekc; simpl.
    + rewrite IH. apply String.eqb_eq in Ekc. subst k.
      destruct (String.eqb c d); reflexivity.
    + rewrite IH. destruct (String.eqb_spec c d) as [->|Hcd].
      * rewrite Ekc. reflexivity.
      * reflexivity.
Qed.

Lemma map_child_ext (c : string) (h1 h2 : node -> node) (es : dir_entries) :
  (forall v, child c es = Some v -> h1 v = h2 v) ->
  map_child c h1 es = map_child c h2 es.
Proof.
  induction es as [|[k v] r IH]; simpl; intros H; [reflexivity|].
  destruct (String.eqb k c).
  - rewrite H; reflexivity.
  - rewrite IH; [reflexivity | exact H].
Qed.

Lemma map_child_compose (c : string) (h1 h2 : node -> node) (es : dir_entries) :
  map_child c h2 (map_child c h1 es) = map_child c (fun v => h2 (h1 v)) es.
Proof.
  induction es as [|[k v] r IH]; simpl; [reflexivity|].
  destruct (String.eqb k c) eqn:E; simpl; rewrite E; [reflexivity|].
  rewrite IH. reflexivity.
Qed.

Lemma map_fst_map_child (c : string) (h : node -> node) (es : dir_entries) :
  map fst (map_child c h es) = map fst es.
Proof.
  induction es as [|[k v] r IH]; simpl; [reflexivity|].
  destruct (String.eqb k c); simpl; [reflexivity|]. rewrite IH. reflexivity.
Qed.

(** ** Lookup and update *)

Lemma lookup_app (p q : list string) (n : node) :
  lookup (p ++ q) n = match lookup p n with Some m => lookup q m | None => None end.
Proof.
  revert n. induction p as [|c p IH]; intros n; simpl; [reflexivity|].
  destruct n as [r d|es]; [reflexivity|]. destruct (child c es); [apply IH|reflexivity].
Qed.

Lemma lookup_modify_same (p : list string) (g : dir_entries -> dir_entries)
  (n : node) (es : dir_entries) :
  lookup p n = Some (Dir es) -> lookup p (modify_dir p g n) = Some (Dir (g es)).
Proof.
  revert n. induction p as [|c p IH]; intros n; simpl.
  - intros [= ->]. reflexivity.
  - destruct n as [r d|es0]; [discriminate|]. simpl.
    rewrite child_map_child, String.eqb_refl.
    destruct (child c es0) as [n'|]; [|discriminate]. simpl. apply IH.
Qed.

Lemma modify_dir_ext (p : list string) (g1 g2 : dir_entries -> dir_entries) (n : node) :
  (forall es, lookup p n = Some (Dir es) -> g1 es = g2 es) ->
  modify_dir p g1 n = modify_dir p g2 n.
Proof.
  revert n. induction p as [|c p IH]; intros n H; destruct n as [r d|es]; simpl;
    try reflexivity.
  - rewrite H; reflexivity.
  - f_equal. apply map_child_ext. intros v Hv. apply IH. intros es' Hes'.
    apply H. simpl. rewrite Hv. exact Hes'.
Qed.

Lemma modify_dir_compose (p : list string) (g1 g2 : dir_entries -> dir_entries)
  (n : node) :
  modify_dir p g2 (modify_dir p g1 n) = modify_dir p (fun es => g2 (g1 es)) n.
Proof.
  revert n. induction p as [|c p IH]; intros n; destruct n as [r d|es]; simpl;
    try reflexivity.
  f_equal. rewrite map_child_compose. apply map_child_ext. intros v _. apply IH.
Qed.

Lemma modify_dir_snoc (p : list string) (c : string) (g : dir_entries -> dir_entries)
  (n : node) :
  modify_dir (p ++ [c]) g n = modify_dir p (map_child c (modify_dir [] g)) n.
Proof.
  revert n. induction p as [|a p IH]; intros n; destruct n as [r d|es]; simpl;
    try reflexivity.
  f_equal. apply map_child_ext. intros v _. apply IH.
Qed.

Lemma put_entries_lookup (p : list string) (es es0 : dir_entries) (root : node) :
  lookup p root = Some (Dir es0) -> lookup p (put_entries p es root) = Some (Dir es).
Proof. intros H. unfold put_entries. rewrite (lookup_modify_same _ _ _ _ H). reflexivity. Qed.

Lemma put_entries_twice (p : list string) (es1 es2 : dir_entries) (root : node) :
  put_entries p es2 (put_entries p es1 root) = put_entries p es2 root.
Proof. unfold put_entries. rewrite modify_dir_compose. reflexivity. Qed.

Lemma modify_as_put (p : list string) (g : dir_entries -> dir_entries)
  (root : node) (es : dir_entries) :
  lookup p root = Some (Dir es) -> modify_dir p g root = put_entries p (g es) root.
Proof.
  intros H. unfold put_entries. apply modify_dir_ext. intros es' H'.
  rewrite H in H'. injection H' as <-. reflexivity.
Qed.

Lemma modify_child_as_put (p : list string) (c : string)
  (g : dir_entries -> dir_entries) (root : node) (es : dir_entries) :
  lookup p root = Some (Dir es) ->
  modify_dir (p ++ [c]) g root = put_entries p (map_child c (modify_dir [] g) es) root.
Proof. intros H. rewrite modify_dir_snoc. apply modify_as_put. exact H. Qed.


Lemma map_child_id (c : string) (h : node -> node) (es : dir_entries) :
  (forall v, child c es = Some v -> h v = v) -> map_child c h es = es.
Proof.
  induction es as [|[k v] r IH]; simpl; intros H; [reflexivity|].
  destruct (String.eqb k c).
  - rewrite H; reflexivity.
  - rewrite IH; [reflexivity | exact H].
Qed.

Lemma put_entries_same (p : list string) (es : dir_entries) (root : node) :
  lookup p root = Some (Dir es) -> put_entries p es root = root.
Proof.
  unfold put_entries. revert root. induction p as [|c p IH]; intros root; simpl.
  - destruct root; intros [= ->]. reflexivity.
  - destruct root as [r d|es0]; [discriminate|].
    destruct (child c es0) as [n'|] eqn:E; [|discriminate]. intros H. f_equal.
    apply map_child_id. intros v Hv. rewrite E in Hv. injection Hv as <-.
    apply IH. exact H.
Qed.

(** ** Frames *)

Lemma starts_with_app (p r : list string) : starts_with p (p ++ r) = true.
Proof. induction p; simpl; [reflexivity|]. rewrite String.eqb_refl. exact IHp. Qed.

Lemma starts_with_inv (p q : list string) :
  starts_with p q = true -> exists r, q = (p ++ r)%list.
Proof.
  revert q. induction p as [|a p IH]; intros q; simpl.
  - exists q. reflexivity.
  - destruct q as [|b q]; [discriminate|]. intros H. apply andb_true_iff in H.
    destruct H as [Hab Hpq]. apply String.eqb_eq in Hab. subst b.
    destruct (IH _ Hpq) as [r ->]. exists r. reflexivity.
Qed.

Lemma starts_with_trans (p1 p2 q : list string) :
  starts_with p1 p2 = true -> starts_with p2 q = true -> starts_with p1 q = true.
Proof.
  intros H1 H2. destruct (starts_with_inv _ _ H1) as [r1 ->].
  destruct (starts_with_inv _ _ H2) as [r2 ->]. rewrite <- app_assoc.
  apply starts_with_app.
Qed.

Lemma view_modify_dir (p q : list string) (g : dir_entries -> dir_entries) (n : node) :
  starts_with p q = false ->
  view_of (lookup q (modify_dir p g n)) = view_of (lookup q n).
Proof.
  revert q n. induction p as [|c p IH]; intros q n; simpl; [discriminate|].
  destruct n as [r d|es]; [reflexivity|].
  destruct q as [|b q]; [reflexivity|]. simpl.
  rewrite child_map_child. destruct (String.eqb c b) eqn:E; simpl; [|reflexivity].
  intros H. apply String.eqb_eq in E. subst b.
  destruct (child c es) as [n'|]; simpl; [apply IH; exact H | reflexivity].
Qed.

Lemma view_remove_child (parent q : list string) (c : string) (n : node) :
  starts_with (parent ++ [c]) q = false ->
  view_of (lookup q (modify_dir parent (remove_child c) n)) = view_of (lookup q n).
Proof.
  revert q n. induction parent as [|a parent IH]; intros q n; simpl.
  - destruct n as [r d|es]; [reflexivity|]. destruct q as [|b q]; [reflexivity|].
    simpl. rewrite andb_true_r. intros H. rewrite child_remove_child, H. reflexivity.
  - destruct n as [r d|es]; [reflexivity|]. destruct q as [|b q]; [reflexivity|].
    simpl. rewrite child_map_child.
    destruct (String.eqb a b) eqn:E; simpl; [|reflexivity].
    intros H. apply String.eqb_eq in E. subst b.
    destruct (child a es) as [n'|]; simpl; [apply IH; exact H | reflexivity].
Qed.

Lemma lookup_removed (parent q : list string) (c : string) (n : node) :
  lookup (parent ++ c :: q) (modify_dir parent (remove_child c) n) = None.
Proof.
  revert n. induction parent as [|a parent IH]; intros n; simpl.
  - destruct n as [r d|es]; simpl; [reflexivity|].
    rewrite child_remove_child, String.eqb_refl. reflexivity.
  - destruct n as [r d|es]; simpl; [reflexivity|].
    rewrite child_map_child, String.eqb_refl.
    destruct (child a es) as [n'|]; simpl; [apply IH | reflexivity].
Qed.

Lemma same_outside_refl (p : list string) (root : node) : same_outside p root root.
Proof. intros q _. reflexivity. Qed.

Lemma same_outside_trans (p : list string) (r1 r2 r3 : node) :
  same_outside p r1 r2 -> same_outside p r2 r3 -> same_outside p r1 r3.
Proof. intros H1 H2 q Hq. rewrite (H2 q Hq). apply H1. exact Hq. Qed.

Lemma same_outside_weaken (p1 p2 : list string) (r1 r2 : node) :
  starts_with p1 p2 = true -> same_outside p2 r1 r2 -> same_outside p1 r1 r2.
Proof.
  intros Hp H q Hq. apply H. destruct (starts_with p2 q) eqn:E; [|reflexivity].
  rewrite (starts_with_trans _ _ _ Hp E) in Hq. discriminate.
Qed.

(** ** Well-formed trees *)

Lemma wf_node_Dir (es : dir_entries) :
  wf_node (Dir es)
  = forallb valid_name (map fst es) && unique_names (map fst es)
    && forallb (fun kv => wf_node (snd kv)) es.
Proof. reflexivity. Qed.

Lemma wf_child (c : string) (es : dir_entries) (v : node) :
  forallb (fun kv => wf_node (snd kv)) es = true -> child c es = Some v ->
  wf_node v = true.
Proof.
  induction es as [|[k x] r IH]; simpl; [discriminate|].
  intros H. apply andb_true_iff in H. destruct H as [Hx Hr].
  destruct (String.eqb k c); [intros [= <-]; exact Hx | apply IH; exact Hr].
Qed.

Lemma wf_node_lookup (p : list string) (n m : node) :
  wf_node n = true -> lookup p n = Some m -> wf_node m = true.
Proof.
  revert n. induction p as [|c p IH]; intros n Hn; simpl.
  - intros [= <-]. exact Hn.
  - destruct n as [r d|es]; [discriminate|].
    destruct (child c es) as [n'|] eqn:E; [|discriminate].
    rewrite wf_node_Dir in Hn. apply andb_true_iff in Hn. destruct Hn as [_ Hn].
    apply IH. eapply wf_child; eassumption.
Qed.

Lemma wf_map_child (c : string) (h : node -> node) (es : dir_entries) :
  (forall v, wf_node v = true -> wf_node (h v) = true) ->
  wf_node (Dir es) = true -> wf_node (Dir (map_child c h es)) = true.
Proof.
  intros Hh. rewrite !wf_node_Dir, map_fst_map_child.
  intros H. apply andb_true_iff in H. destruct H as [H1 H2]. rewrite H1. simpl.
  clear H1. induction es as [|[k v] r IH]; simpl in *; [reflexivity|].
  apply andb_true_iff in H2. destruct H2 as [Hv Hr].
  destruct (String.eqb k c); simpl.
  - rewrite Hh by assumption. exact Hr.
  - rewrite Hv. apply IH. exact Hr.
Qed.

Lemma wf_modify_dir (p : list string) (g : dir_entries -> dir_entries) (n : node) :
  (forall es, wf_node (Dir es) = true -> wf_node (Dir (g es)) = true) ->
  wf_node n = true -> wf_node (modify_dir p g n) = true.
Proof.
  intros Hg. revert n. induction p as [|c p IH]; intros n Hn; destruct n as [r d|es];
    simpl; try exact Hn.
  - apply Hg. exact Hn.
  - apply wf_map_child; [exact IH | exact Hn].
Qed.

Lemma unique_names_filter (f : string * node -> bool) (es : dir_entries) :
  unique_names (map fst es) = true -> unique_names (map fst (filter f es)) = true.
Proof.
  induction es as [|[k v] r IH]; simpl; [reflexivity|].
  intros H. apply andb_true_iff in H. destruct H as [Hk Hr].
  destruct (f (k, v)); simpl; [|apply IH; exact Hr].
  rewrite IH by exact Hr. rewrite andb_true_r.
  apply negb_true_iff in Hk. apply negb_true_iff.
  destruct (existsb (String.eqb k) (map fst (filter f r))) eqn:E; [|reflexivity].
  rewrite <- Hk. symmetry. apply existsb_exists.
  apply existsb_exists in E. destruct E as [x [Hx Hkx]]. exists x. split; [|exact Hkx].
  apply in_map_iff in Hx. destruct Hx as [[k' v'] [<- Hin]].
  apply filter_In in Hin. apply in_map_iff. exists (k', v'). tauto.
Qed.

Lemma wf_filter (f : string * node -> bool) (es : dir_entries) :
  wf_node (Dir es) = true -> wf_node (Dir (filter f es)) = true.
Proof.
  rewrite !wf_node_Dir. intros H. apply andb_true_iff in H. destruct H as [H H3].
  apply andb_true_iff in H. destruct H as [H1 H2].
  rewrite unique_names_filter by exact H2.
  assert (forallb valid_name (map fst (filter f es)) = true) as ->.
  { apply forallb_forall. intros x Hx. apply in_map_iff in Hx.
    destruct Hx as [kv [<- Hin]]. apply filter_In in Hin.
    rewrite forallb_forall in H1. apply H1. apply in_map. tauto. }
  simpl. apply forallb_forall. intros kv Hin. apply filter_In in Hin.
  rewrite forallb_forall in H3. apply H3. tauto.
Qed.

Lemma wf_remove_child (parent : list string) (c : string) (n : node) :
  wf_node n = true -> wf_node (modify_dir parent (remove_child c) n) = true.
Proof. apply wf_modify_dir. intros es. apply wf_filter. Qed.

Lemma height_child (c : string) (es : dir_entries) (v : node) :
  child c es = Some v -> (height v < height (Dir es))%nat.
Proof.
  simpl. induction es as [|[k x] r IH]; simpl; [discriminate|].
  destruct (String.eqb k c); [intros [= <-]; lia|]. intros H. specialize (IH H). lia.
Qed.

Lemma height_lookup (p : list string) (n m : node) :
  lookup p n = Some m -> (height m <= height n)%nat.
Proof.
  revert n. induction p as [|c p IH]; intros n; simpl.
  - intros [= <-]. lia.
  - destruct n as [r d|es]; [discriminate|].
    destruct (child c es) as [n'|] eqn:E; [|discriminate]. intros H.
    specialize (IH _ H). pose proof (height_child _ _ _ E). lia.
Qed.

(** ** File-system calls on the entries of a directory *)

Lemma set_fs_fs (root : node) (w : world) : w_fs (set_fs root w) = root.
Proof. reflexivity. Qed.

Lemma set_fs_twice (r1 r2 : node) (w : world) : set_fs r2 (set_fs r1 w) = set_fs r2 w.
Proof. reflexivity. Qed.

Lemma set_fs_same (w : world) : set_fs (w_fs w) w = w.
Proof. destruct w; reflexivity. Qed.

Lemma ends_with_slash_app (a b : string) :
  b <> "" -> ends_with_slash (a ++ b) = ends_with_slash b.
Proof.
  intros Hb. induction a as [|c a IH]; simpl; [reflexivity|].
  destruct (a ++ b) eqn:E; [|exact IH].
  destruct a; simpl in E; [congruence | discriminate].
Qed.

Lemma ends_with_slash_no_slash (s : string) :
  has_slash s = false -> ends_with_slash s = false.
Proof.
  induction s as [|c s IH]; simpl; [reflexivity|]. intros H.
  apply orb_false_iff in H. destruct H as [Hc Hs]. destruct s; [exact Hc | apply IH; exact Hs].
Qed.

Lemma ends_with_slash_join (top name : string) :
  valid_name name = true -> ends_with_slash (path_join top name) = false.
Proof.
  intros Hv. destruct (valid_name_inv _ Hv) as (Hne & _ & _ & Hs).
  unfold path_join. rewrite starts_with_slash_valid by assumption.
  pose proof (ends_with_slash_no_slash _ Hs) as He.
  destruct top as [|c top']; [exact He|].
  destruct (ends_with_slash (String c top')).
  - rewrite ends_with_slash_app by assumption. exact He.
  - rewrite ends_with_slash_app; [|destruct name; discriminate].
    change ("/" ++ name) with (("/" ++ "") ++ name).
    rewrite ends_with_slash_app by assumption. exact He.
Qed.

Section ChildCalls.
Variables (top name : string) (p : list string) (root : node) (es : dir_entries).
Hypothesis Htop : components top = p.
Hypothesis Hname : valid_name name = true.
Hypothesis Hdir : lookup p root = Some (Dir es).

Lemma resolve_join : resolve (path_join top name) root = child name es.
Proof.
  unfold resolve. rewrite components_join, ends_with_slash_join, Htop by assumption.
  rewrite lookup_app, Hdir. simpl.
  destruct (child name es) as [[r d|es']|]; reflexivity.
Qed.

Lemma parent_and_name_join : parent_and_name (path_join top name) = Some (p, name).
Proof.
  unfold parent_and_name. rewrite components_join, Htop by assumption.
  rewrite rev_unit, rev_involutive. reflexivity.
Qed.

Lemma os_remove_child (r : bool) (d : bytes) :
  child name es = Some (File r d) ->
  os_remove (path_join top name) root
  = (Ok tt, put_entries p (remove_child name es) root).
Proof.
  intros Hc. unfold os_remove. rewrite resolve_join, Hc, parent_and_name_join.
  rewrite (modify_as_put _ _ _ _ Hdir). reflexivity.
Qed.

Lemma os_rmdir_child :
  child name es = Some (Dir []) ->
  os_rmdir (path_join top name) root
  = (Ok tt, put_entries p (remove_child name es) root).
Proof.
  intros Hc. unfold os_rmdir. rewrite resolve_join, Hc, parent_and_name_join.
  rewrite (modify_as_put _ _ _ _ Hdir). reflexivity.
Qed.

End ChildCalls.

Lemma scandir_dir (top : string) (root : node) (es : dir_entries) :
  lookup (components top) root = Some (Dir es) ->
  scandir top root = Some (dir_names es, file_names es).
Proof. intros H. unfold scandir, resolve. rewrite H. reflexivity. Qed.

(** ** Entry names *)

Lemma unique_names_NoDup (l : list string) : unique_names l = true -> NoDup l.
Proof.
  induction l as [|x r IH]; simpl; [constructor|].
  intros H. apply andb_true_iff in H. destruct H as [Hx Hr]. constructor; [|auto].
  intros Hin. apply negb_true_iff in Hx.
  assert (existsb (String.eqb x) r = true) as E; [|congruence].
  apply existsb_exists. exists x. split; [exact Hin | apply String.eqb_refl].
Qed.

Lemma child_of_In (k : string) (v : node) (es : dir_entries) :
  unique_names (map fst es) = true -> In (k, v) es -> child k es = Some v.
Proof.
  induction es as [|[k' v'] r IH]; simpl; [tauto|].
  intros H. apply andb_true_iff in H. destruct H as [Hk Hr]. intros [[= -> ->]|Hin].
  - rewrite String.eqb_refl. reflexivity.
  - destruct (String.eqb_spec k' k) as [->|]; [|auto].
    apply negb_true_iff in Hk.
    assert (existsb (String.eqb k) (map fst r) = true) as E; [|congruence].
    apply existsb_exists. exists k. split; [|apply String.eqb_refl].
    apply in_map_iff. exists (k, v). tauto.
Qed.

Lemma child_In (k : string) (v : node) (es : dir_entries) :
  child k es = Some v -> In (k, v) es.
Proof.
  induction es as [|[k' v'] r IH]; simpl; [discriminate|].
  destruct (String.eqb_spec k' k) as [->|]; [intros [= ->]; tauto | auto].
Qed.

Lemma fold_remove_child (names : list string) (es : dir_entries) :
  fold_left (fun acc f => remove_child f acc) names es
  = filter (fun kv => negb (existsb (String.eqb (fst kv)) names)) es.
Proof.
  revert es. induction names as [|x r IH]; intros es; simpl.
  - induction es as [|kv es IHes]; simpl; [reflexivity|]. rewrite <- IHes. reflexivity.
  - rewrite IH. unfold remove_child. clear IH.
    induction es as [|kv es IHes]; simpl; [reflexivity|].
    destruct (String.eqb (fst kv) x); simpl; [exact IHes|].
    destruct (existsb (String.eqb (fst kv)) r); simpl; [exact IHes|].
    rewrite IHes. reflexivity.
Qed.

Lemma child_fold_remove (names : list string) (k : string) (es : dir_entries) :
  ~ In k names ->
  child k (fold_left (fun acc f => remove_child f acc) names es) = child k es.
Proof.
  revert es. induction names as [|x r IH]; intros es Hk; simpl; [reflexivity|].
  rewrite IH by (simpl in Hk; tauto). rewrite child_remove_child.
  destruct (String.eqb_spec x k) as [->|]; [simpl in Hk; tauto | reflexivity].
Qed.

Lemma child_fold_emptied (ds : list string) (k : string) (es : dir_entries) :
  child k (fold_left (fun acc d => emptied d acc) ds es)
  = if existsb (String.eqb k) ds
    then match child k es with Some _ => Some (Dir []) | None => None end
    else child k es.
Proof.
  revert es. induction ds as [|x r IH]; intros es; simpl; [reflexivity|].
  rewrite IH. unfold emptied. rewrite child_map_child.
  rewrite (String.eqb_sym k x).
  destruct (String.eqb_spec x k) as [->|]; simpl.
  - destruct (child k es); simpl; destruct (existsb (String.eqb k) r); reflexivity.
  - reflexivity.
Qed.

Lemma map_fst_fold_emptied (ds : list string) (es : dir_entries) :
  map fst (fold_left (fun acc d => emptied d acc) ds es) = map fst es.
Proof.
  revert es. induction ds as [|x r IH]; intros es; simpl; [reflexivity|].
  rewrite IH. apply map_fst_map_child.
Qed.

(** ** Running the monad *)

Lemma bind_ok {A B : Type} (m : M A) (k : A -> M B) (w w1 : world) (a : A) :
  m w = (Ok a, w1) -> bind m k w = k a w1.
Proof. intros H. unfold bind. rewrite H. reflexivity. Qed.

Lemma bind_raise {A B : Type} (m : M A) (k : A -> M B) (w w1 : world) (e : exn) :
  m w = (Raise e, w1) -> bind m k w = (Raise e, w1).
Proof. intros H. unfold bind. rewrite H. reflexivity. Qed.

Lemma lift_fs_eq {A : Type} (f : node -> fs_result A) (w : world)
  (r : outcome A) (root' : node) :
  f (w_fs w) = (r, root') -> lift_fs f w = (r, set_fs root' w).
Proof. intros H. unfold lift_fs. rewrite H. reflexivity. Qed.

(** ** The walk of [cleanup_local_resources] *)

Section WalkLoops.
Variables (top : string) (p : list string).
Hypothesis Htop : components top = p.

Lemma loop_remove_files (names : list string) :
  forall (w : world) (es : dir_entries),
    lookup p (w_fs w) = Some (Dir es) ->
    NoDup names ->
    (forall f, In f names ->
       valid_name f = true /\ exists r d, child f es = Some (File r d)) ->
    for_each names (fun name => lift_fs (os_remove (path_join top name))) w
    = (Ok tt, set_fs (put_entries p (fold_left (fun acc f => remove_child f acc) names es)
                                  (w_fs w)) w).
Proof.
  induction names as [|f rest IH]; intros w es Hdir Hnd Hall; simpl.
  - rewrite put_entries_same by exact Hdir. rewrite set_fs_same. reflexivity.
  - destruct (Hall f (or_introl eq_refl)) as (Hv & r & d & Hc).
    erewrite bind_ok;
      [| apply lift_fs_eq; eapply os_remove_child; eassumption].
    inversion Hnd as [|? ? Hnotin Hnd']; subst.
    rewrite (IH _ (remove_child f es)); simpl.
    + rewrite put_entries_twice. reflexivity.
    + eapply put_entries_lookup; eassumption.
    + exact Hnd'.
    + intros f' Hin. destruct (Hall f' (or_intror Hin)) as (Hv' & r' & d' & Hc').
      split; [exact Hv'|]. exists r', d'. rewrite child_remove_child.
      destruct (String.eqb_spec f f') as [->|]; [contradiction | exact Hc'].
Qed.

Lemma loop_rmdir (names : list string) :
  forall (w : world) (es : dir_entries),
    lookup p (w_fs w) = Some (Dir es) ->
    NoDup names ->
    (forall d, In d names -> valid_name d = true /\ child d es = Some (Dir [])) ->
    for_each names (fun name => lift_fs (os_rmdir (path_join top name))) w
    = (Ok tt, set_fs (put_entries p (fold_left (fun acc f => remove_child f acc) names es)
                                  (w_fs w)) w).
Proof.
  induction names as [|f rest IH]; intros w es Hdir Hnd Hall; simpl.
  - rewrite put_entries_same by exact Hdir. rewrite set_fs_same. reflexivity.
  - destruct (Hall f (or_introl eq_refl)) as (Hv & Hc).
    erewrite bind_ok;
      [| apply lift_fs_eq; eapply os_rmdir_child; eassumption].
    inversion Hnd as [|? ? Hnotin Hnd']; subst.
    rewrite (IH _ (remove_child f es)); simpl.
    + rewrite put_entries_twice. reflexivity.
    + eapply put_entries_lookup; eassumption.
    + exact Hnd'.
    + intros f' Hin. destruct (Hall f' (or_intror Hin)) as (Hv' & Hc').
      split; [exact Hv'|]. rewrite child_remove_child.
      destruct (String.eqb_spec f f') as [->|]; [contradiction | exact Hc'].
Qed.

Variable fuel : nat.
Hypothesis Hwalk :
  forall (top' : string) (w : world) (es : dir_entries),
    lookup (components top') (w_fs w) = Some (Dir es) ->
    wf_node (Dir es) = true ->
    (height (Dir es) <= fuel)%nat ->
    walk_and_remove fuel top' w
    = (Ok tt, set_fs (put_entries (components top') [] (w_fs w)) w).

Lemma loop_descend (names : list string) :
  forall (w : world) (es : dir_entries),
    lookup p (w_fs w) = Some (Dir es) ->
    (forall d, In d names ->
       valid_name d = true /\
       exists sub, child d es = Some (Dir sub) /\ wf_node (Dir sub) = true
                   /\ (height (Dir sub) <= fuel)%nat) ->
    for_each names (fun name => walk_and_remove fuel (path_join top name)) w
    = (Ok tt, set_fs (put_entries p (fold_left (fun acc d => emptied d acc) names es)
                                  (w_fs w)) w).
Proof.
  induction names as [|d rest IH]; intros w es Hdir Hall; simpl.
  - rewrite put_entries_same by exact Hdir. rewrite set_fs_same. reflexivity.
  - destruct (Hall d (or_introl eq_refl)) as (Hv & sub & Hc & Hwf & Hh).
    assert (Hsub : lookup (components (path_join top d)) (w_fs w) = Some (Dir sub)).
    { rewrite components_join, Htop, lookup_app, Hdir by assumption. simpl.
      rewrite Hc. reflexivity. }
    erewrite bind_ok; [| eapply Hwalk; [exact Hsub | exact Hwf | exact Hh]].
    rewrite components_join, Htop by assumption.
    change (put_entries (p ++ [d]) [] (w_fs w))
      with (modify_dir (p ++ [d]) (fun _ => []) (w_fs w)).
    rewrite (modify_child_as_put _ _ _ _ _ Hdir).
    assert (Hem : map_child d (modify_dir [] (fun _ => [])) es = emptied d es).
    { unfold emptied. apply map_child_ext. intros v Hv'. rewrite Hc in Hv'.
      injection Hv' as <-. reflexivity. }
    rewrite Hem.
    rewrite (IH _ (emptied d es)); simpl.
    + rewrite put_entries_twice. reflexivity.
    + eapply put_entries_lookup; eassumption.
    + intros d' Hin. destruct (Hall d' (or_intror Hin)) as (Hv' & sub' & Hc' & Hwf' & Hh').
      split; [exact Hv'|]. unfold emptied. rewrite child_map_child.
      destruct (String.eqb_spec d d') as [->|].
      * rewrite Hc'. simpl. exists []. repeat split. simpl in *. lia.
      * exists sub'. auto.
Qed.

End WalkLoops.

Lemma filter_none {A : Type} (f : A -> bool) (l : list A) :
  (forall x, In x l -> f x = false) -> filter f l = [].
Proof.
  induction l as [|x r IH]; simpl; intros H; [reflexivity|].
  rewrite (H x (or_introl eq_refl)). apply IH. auto.
Qed.

Lemma in_dir_names (d : string) (es : dir_entries) :
  In d (dir_names es) <-> exists sub, In (d, Dir sub) es.
Proof.
  unfold dir_names. rewrite in_map_iff. split.
  - intros [[k v] [<- Hin]]. apply filter_In in Hin. destruct Hin as [Hin Hd].
    destruct v as [|sub]; [discriminate|]. exists sub. exact Hin.
  - intros [sub Hin]. exists (d, Dir sub). split; [reflexivity|].
    apply filter_In. split; [exact Hin | reflexivity].
Qed.

Lemma in_file_names (f : string) (es : dir_entries) :
  In f (file_names es) <-> exists r d, In (f, File r d) es.
Proof.
  unfold file_names. rewrite in_map_iff. split.
  - intros [[k v] [<- Hin]]. apply filter_In in Hin. destruct Hin as [Hin Hd].
    destruct v as [r d|]; [|discriminate]. exists r, d. exact Hin.
  - intros [r [d Hin]]. exists (f, File r d). split; [reflexivity|].
    apply filter_In. split; [exact Hin | reflexivity].
Qed.

Lemma existsb_eqb_In (k : string) (l : list string) :
  existsb (String.eqb k) l = true <-> In k l.
Proof.
  rewrite existsb_exists. split.
  - intros [x [Hin Hx]]. apply String.eqb_eq in Hx. subst. exact Hin.
  - intros Hin. exists k. split; [exact Hin | apply String.eqb_refl].
Qed.

Lemma walk_spec (fuel : nat) :
  forall (top : string) (w : world) (es : dir_entries),
    lookup (components top) (w_fs w) = Some (Dir es) ->
    wf_node (Dir es) = true ->
    (height (Dir es) <= fuel)%nat ->
    walk_and_remove fuel top w
    = (Ok tt, set_fs (put_entries (components top) [] (w_fs w)) w).
Proof.
  induction fuel as [|fuel IH]; intros top w es Hdir Hwf Hh; [simpl in Hh; lia|].
  cbn [walk_and_remove].
  erewrite bind_ok; [| unfold query_fs; rewrite (scandir_dir _ _ _ Hdir); reflexivity].
  cbn iota beta.
  pose proof Hwf as Hwf'. rewrite wf_node_Dir in Hwf'.
  apply andb_true_iff in Hwf'. destruct Hwf' as [Hwf' Hsub].
  apply andb_true_iff in Hwf'. destruct Hwf' as [Hvalid Huniq].
  assert (Hval : forall k v, In (k, v) es -> valid_name k = true).
  { intros k v Hin. rewrite forallb_forall in Hvalid. apply Hvalid.
    apply in_map_iff. exists (k, v). tauto. }
  assert (Hdisj : forall k, In k (dir_names es) -> In k (file_names es) -> False).
  { intros k Hd Hf. apply in_dir_names in Hd. destruct Hd as [sub Hd].
    apply in_file_names in Hf. destruct Hf as (r & d & Hf).
    apply (child_of_In _ _ _ Huniq) in Hd. apply (child_of_In _ _ _ Huniq) in Hf.
    congruence. }
  (* descend into the sub-directories *)
  erewrite bind_ok.
  2:{ apply (loop_descend top (components top) eq_refl fuel IH _ w es Hdir).
      intros d Hd. apply in_dir_names in Hd. destruct Hd as [sub Hin].
      split; [eapply Hval; eassumption|]. exists sub.
      pose proof (child_of_In _ _ _ Huniq Hin) as Hc. split; [exact Hc|].
      split; [eapply wf_child; eassumption|].
      pose proof (height_child _ _ _ Hc). lia. }
  set (es1 := fold_left (fun acc d => emptied d acc) (dir_names es) es).
  assert (Hdir1 : lookup (components top)
                    (w_fs (set_fs (put_entries (components top) es1 (w_fs w)) w))
                  = Some (Dir es1)).
  { simpl. eapply put_entries_lookup; eassumption. }
  (* remove the files *)
  erewrite bind_ok.
  2:{ apply (loop_remove_files top (components top) eq_refl _ _ es1 Hdir1).
      - apply unique_names_NoDup. apply unique_names_filter. exact Huniq.
      - intros f Hf. pose proof Hf as Hf'. apply in_file_names in Hf'.
        destruct Hf' as (r & d & Hin). split; [eapply Hval; eassumption|].
        exists r, d. unfold es1. rewrite child_fold_emptied.
        destruct (existsb (String.eqb f) (dir_names es)) eqn:E.
        + apply existsb_eqb_In in E. exfalso. eapply Hdisj; eassumption.
        + apply child_of_In; assumption. }
  simpl w_fs. rewrite put_entries_twice.
  set (es2 := fold_left (fun acc f => remove_child f acc) (file_names es) es1).
  assert (Hdir2 : lookup (components top)
                    (w_fs (set_fs (put_entries (components top) es2 (w_fs w))
                                  (set_fs (put_entries (components top) es1 (w_fs w)) w)))
                  = Some (Dir es2)).
  { simpl. eapply put_entries_lookup; eassumption. }
  (* remove the emptied sub-directories *)
  rewrite (loop_rmdir top (components top) eq_refl _ _ es2 Hdir2).
  - simpl. rewrite put_entries_twice.
    replace (fold_left (fun acc f => remove_child f acc) (dir_names es) es2)
      with (@nil (string * node)); [reflexivity|]. symmetry.
    rewrite fold_remove_child. apply filter_none. intros [k v] Hin. simpl.
    apply negb_false_iff. apply existsb_eqb_In.
    unfold es2 in Hin. rewrite fold_remove_child in Hin. apply filter_In in Hin.
    destruct Hin as [Hin Hnf]. simpl in Hnf. apply negb_true_iff in Hnf.
    assert (Hk : In k (map fst es)).
    { unfold es1 in Hin. rewrite <- (map_fst_fold_emptied (dir_names es) es).
      apply in_map_iff. exists (k, v). tauto. }
    apply in_map_iff in Hk. destruct Hk as [[k' v0] [Hk Hin0]]. simpl in Hk. subst k'.
    destruct v0 as [r d|sub].
    + exfalso. assert (existsb (String.eqb k) (file_names es) = true); [|congruence].
      apply existsb_eqb_In. apply in_file_names. eauto.
    + apply in_dir_names. eauto.
  - apply unique_names_NoDup. apply unique_names_filter. exact Huniq.
  - intros d Hd. pose proof Hd as Hd'. apply in_dir_names in Hd'.
    destruct Hd' as [sub Hin]. split; [eapply Hval; eassumption|].
    unfold es2. rewrite child_fold_remove.
    + unfold es1. rewrite child_fold_emptied.
      assert (existsb (String.eqb d) (dir_names es) = true) as ->
        by (apply existsb_eqb_In; exact Hd).
      rewrite (child_of_In _ _ _ Huniq Hin). reflexivity.
    + intros Hf. eapply Hdisj; eassumption.
Qed.

(** ** One managed path, then all three *)

Lemma parent_and_name_components (path : string) (parent : list string) (name : string) :
  parent_and_name path = Some (parent, name) ->
  components path = (parent ++ [name])%list.
Proof.
  unfold parent_and_name. destruct (rev (components path)) as [|x r] eqn:E; [discriminate|].
  intros [= <- <-]. rewrite <- (rev_involutive (components path)), E. reflexivity.
Qed.

Lemma path_exists_view (path : string) (root : node) :
  path_exists path root
  = match view_of (lookup (components path) root) with
    | Absent => false
    | IsDir => true
    | IsFile _ _ => negb (ends_with_slash path)
    end.
Proof.
  unfold path_exists, resolve.
  destruct (lookup (components path) root) as [[r d|es]|]; simpl; try reflexivity.
  destruct (ends_with_slash path); reflexivity.
Qed.

Lemma isdir_view (path : string) (root : node) :
  isdir path root
  = match view_of (lookup (components path) root) with IsDir => true | _ => false end.
Proof.
  unfold isdir, resolve.
  destruct (lookup (components path) root) as [[r d|es]|]; simpl; try reflexivity.
  destruct (ends_with_slash path); reflexivity.
Qed.

Lemma isfile_view (path : string) (root : node) :
  isfile path root
  = match view_of (lookup (components path) root) with
    | IsFile _ _ => negb (ends_with_slash path)
    | _ => false
    end.
Proof.
  unfold isfile, resolve.
  destruct (lookup (components path) root) as [[r d|es]|]; simpl; try reflexivity.
  destruct (ends_with_slash path); reflexivity.
Qed.

Lemma starts_with_refl (p : list string) : starts_with p p = true.
Proof. rewrite <- (app_nil_r p) at 2. apply starts_with_app. Qed.

Lemma remove_temp_path_spec (path : string) (parent : list string) (name : string)
  (w : world) :
  parent_and_name path = Some (parent, name) ->
  wf_node (w_fs w) = true ->
  exists root',
    remove_temp_path path w = (Ok tt, set_fs root' w)
    /\ wf_node root' = true
    /\ path_exists path root' = false
    /\ same_outside (parent ++ [name]) (w_fs w) root'
    /\ (path_exists path (w_fs w) = false -> root' = w_fs w).
Proof.
  intros Hpn Hwf. pose proof (parent_and_name_components _ _ _ Hpn) as Hc.
  unfold remove_temp_path.
  destruct (lookup (components path) (w_fs w)) as [[r d|es]|] eqn:El.
  - (* a regular file *)
    assert (Hd : isdir path (w_fs w) = false) by (rewrite isdir_view, El; reflexivity).
    assert (Hf : isfile path (w_fs w) = negb (ends_with_slash path))
      by (rewrite isfile_view, El; reflexivity).
    unfold bind at 1, query_fs at 1. rewrite Hd.
    unfold bind at 1, query_fs at 1. rewrite Hf.
    destruct (ends_with_slash path) eqn:Es; simpl.
    + exists (w_fs w). rewrite set_fs_same.
      split; [reflexivity|]. split; [exact Hwf|].
      split; [|split; [apply same_outside_refl | reflexivity]].
      rewrite path_exists_view, El. simpl. rewrite Es. reflexivity.
    + exists (modify_dir parent (remove_child name) (w_fs w)).
      split; [|split; [|split; [|split]]].
      * apply lift_fs_eq. unfold os_remove, resolve. rewrite El, Es, Hpn. reflexivity.
      * apply wf_remove_child. exact Hwf.
      * rewrite path_exists_view, Hc.
        rewrite (lookup_removed parent [] name). reflexivity.
      * intros q Hq. apply view_remove_child. exact Hq.
      * rewrite path_exists_view, El. simpl. rewrite Es. discriminate.
  - (* a directory *)
    assert (Hd : isdir path (w_fs w) = true) by (rewrite isdir_view, El; reflexivity).
    unfold bind at 1, query_fs at 1. rewrite Hd.
    unfold bind at 1, query_fs at 1.
    erewrite bind_ok.
    2:{ eapply walk_spec; [exact El | |].
        - eapply wf_node_lookup; eassumption.
        - pose proof (height_lookup _ _ _ El). lia. }
    exists (modify_dir parent (remove_child name)
              (put_entries (components path) [] (w_fs w))).
    split; [|split; [|split; [|split]]].
    + erewrite lift_fs_eq; [reflexivity|]. simpl w_fs. unfold os_rmdir, resolve.
      rewrite (put_entries_lookup _ _ _ _ El), Hpn. reflexivity.
    + apply wf_remove_child. apply wf_modify_dir; [reflexivity | exact Hwf].
    + rewrite path_exists_view, Hc.
      rewrite (lookup_removed parent [] name). reflexivity.
    + intros q Hq. rewrite view_remove_child by exact Hq.
      apply view_modify_dir. rewrite Hc. exact Hq.
    + rewrite path_exists_view, El. discriminate.
  - (* nothing *)
    assert (Hd : isdir path (w_fs w) = false) by (rewrite isdir_view, El; reflexivity).
    assert (Hf : isfile path (w_fs w) = false) by (rewrite isfile_view, El; reflexivity).
    unfold bind at 1, query_fs at 1. rewrite Hd.
    unfold bind at 1, query_fs at 1. rewrite Hf.
    exists (w_fs w). rewrite set_fs_same.
    split; [reflexivity|]. split; [exact Hwf|].
    split; [|split; [apply same_outside_refl | reflexivity]].
    rewrite path_exists_view, El. reflexivity.
Qed.

Lemma path_exists_same_view (path : string) (r1 r2 : node) :
  view_of (lookup (components path) r2) = view_of (lookup (components path) r1) ->
  path_exists path r2 = path_exists path r1.
Proof. intros H. rewrite !path_exists_view, H. reflexivity. Qed.

Lemma cleanup_spec (w : world) :
  wf_node (w_fs w) = true ->
  exists root',
    cleanup_local_resources w
    = (Ok tt, mk_world root' (w_s3 w)
                (w_log w ++ [(INFO, "Cleaned up all local temporary resources.")])
                (w_clock w) (w_faults w))
    /\ wf_node root' = true
    /\ (forall path, In path temp_paths -> path_exists path root' = false)
    /\ (forall q, outside_managed q = true ->
                  view_of (lookup q root') = view_of (lookup q (w_fs w)))
    /\ ((forall path, In path temp_paths -> path_exists path (w_fs w) = false) ->
        root' = w_fs w).
Proof.
  intros Hwf.
  destruct (remove_temp_path_spec "/tmp/s3_files/" ["tmp"] "s3_files" w
              eq_refl Hwf) as (r1 & E1 & Hwf1 & Hx1 & Ho1 & Hid1).
  destruct (remove_temp_path_spec "/tmp/weekly-archive.tar.gz" ["tmp"]
              "weekly-archive.tar.gz" (set_fs r1 w) eq_refl Hwf1)
    as (r2 & E2 & Hwf2 & Hx2 & Ho2 & Hid2).
  destruct (remove_temp_path_spec "/tmp/s3_compression_log.txt" ["tmp"]
              "s3_compression_log.txt" (set_fs r2 w) eq_refl Hwf2)
    as (r3 & E3 & Hwf3 & Hx3 & Ho3 & Hid3).
  change (set_fs r2 (set_fs r1 w)) with (set_fs r2 w) in E2.
  change (set_fs r3 (set_fs r2 w)) with (set_fs r3 w) in E3.
  simpl w_fs in *. exists r3.
  split; [|split; [exact Hwf3 | split; [|split]]].
  - unfold cleanup_local_resources, temp_paths. cbn [for_each].
    unfold bind. rewrite E1, E2, E3. reflexivity.
  - intros path [<-|[<-|[<-|[]]]].
    + rewrite (path_exists_same_view _ r1); [exact Hx1|].
      rewrite (Ho3 (components "/tmp/s3_files/") eq_refl).
      apply (Ho2 (components "/tmp/s3_files/") eq_refl).
    + rewrite (path_exists_same_view _ r2); [exact Hx2|].
      apply (Ho3 (components "/tmp/weekly-archive.tar.gz") eq_refl).
    + exact Hx3.
  - intros q Hq. unfold outside_managed, managed, temp_paths in Hq. simpl in Hq.
    rewrite !andb_true_iff, !negb_true_iff in Hq. destruct Hq as (Q1 & Q2 & Q3 & _).
    rewrite (Ho3 q Q3), (Ho2 q Q2). apply (Ho1 q Q1).
  - intros Hclean.
    rewrite Hid3.
    + rewrite Hid2; [apply Hid1|]; rewrite ?Hid1; apply Hclean; simpl; tauto.
    + rewrite Hid2; rewrite ?Hid1; apply Hclean; simpl; tauto.
Qed.

(** ** Invariants of computations *)

Section Preserves.
Variable I : world -> Prop.

Lemma preserves_ret {A : Type} (a : A) : preserves I (ret a).
Proof. intros w H. exact H. Qed.

Lemma preserves_raise {A : Type} (e : exn) : preserves I (@raise A e).
Proof. intros w H. exact H. Qed.

Lemma preserves_bind {A B : Type} (m : M A) (k : A -> M B) :
  preserves I m -> (forall a, preserves I (k a)) -> preserves I (bind m k).
Proof.
  intros Hm Hk w H. unfold bind. specialize (Hm w H).
  destruct (m w) as [[a|e] w1]; simpl in *; [apply Hk; exact Hm | exact Hm].
Qed.

Lemma preserves_try_except {A : Type} (m : M A) (h : exn -> M A) :
  preserves I m -> (forall e, preserves I (h e)) -> preserves I (try_except m h).
Proof.
  intros Hm Hh w H. unfold try_except. specialize (Hm w H).
  destruct (m w) as [[a|e] w1]; simpl in *; [exact Hm | apply Hh; exact Hm].
Qed.

Lemma preserves_for_each {A : Type} (xs : list A) (body : A -> M unit) :
  (forall x, preserves I (body x)) -> preserves I (for_each xs body).
Proof.
  intros Hb. induction xs as [|x r IH]; simpl.
  - apply preserves_ret.
  - apply preserves_bind; [apply Hb | intros _; exact IH].
Qed.

(** An invariant that only looks at the file system and the object store. *)
Hypothesis I_fs : forall w w', w_fs w' = w_fs w -> w_s3 w' = w_s3 w -> I w -> I w'.

Lemma preserves_query_fs {A : Type} (f : node -> A) : preserves I (query_fs f).
Proof. intros w H. exact H. Qed.

Lemma preserves_log (level : log_level) (msg : string) : preserves I (log level msg).
Proof. intros w H. simpl. eapply I_fs; [| |exact H]; reflexivity. Qed.

Lemma preserves_read_clock : preserves I read_clock.
Proof.
  intros w H. unfold read_clock. destruct (w_clock w); simpl; [exact H|].
  eapply I_fs; [| |exact H]; reflexivity.
Qed.

Lemma preserves_sdk_call : preserves I sdk_call.
Proof.
  intros w H. unfold sdk_call. destruct (w_faults w) as [|[e|] r]; simpl;
    try exact H; (eapply I_fs; [| |exact H]); reflexivity.
Qed.

End Preserves.

Lemma store_is_quiet (s : s3_store) (w w' : world) :
  w_fs w' = w_fs w -> w_s3 w' = w_s3 w -> store_is s w -> store_is s w'.
Proof. unfold store_is. congruence. Qed.

Lemma fs_wf_quiet (w w' : world) :
  w_fs w' = w_fs w -> w_s3 w' = w_s3 w -> fs_wf w -> fs_wf w'.
Proof. unfold fs_wf. congruence. Qed.

Lemma store_lift_fs {A : Type} (s : s3_store) (f : node -> fs_result A) :
  preserves (store_is s) (lift_fs f).
Proof. intros w H. unfold lift_fs. destruct (f (w_fs w)). exact H. Qed.

Lemma wf_lift_fs {A : Type} (f : node -> fs_result A) :
  (forall root, wf_node root = true -> wf_node (snd (f root)) = true) ->
  preserves fs_wf (lift_fs f).
Proof.
  intros Hf w H. unfold lift_fs. specialize (Hf _ H).
  destruct (f (w_fs w)). exact Hf.
Qed.

(** ** Path components are valid names *)

Lemma has_slash_app (a b : string) :
  has_slash (a ++ b) = has_slash a || has_slash b.
Proof.
  induction a as [|c a IH]; simpl; [reflexivity|]. rewrite IH, orb_assoc. reflexivity.
Qed.

Lemma raw_components_ok (p cur c : string) :
  has_slash cur = false -> In c (raw_components p cur) ->
  c <> "" /\ has_slash c = false.
Proof.
  revert cur. induction p as [|ch r IH]; intros cur Hcur; simpl.
  - destruct cur; simpl; [tauto|]. intros [<-|[]]. split; [discriminate | exact Hcur].
  - destruct (Ascii.eqb ch slash) eqn:E.
    + destruct cur as [|x cur'].
      * apply IH. reflexivity.
      * intros [<-|Hin]; [split; [discriminate | exact Hcur]|].
        apply (IH ""); [reflexivity | exact Hin].
    + apply IH. rewrite has_slash_app, Hcur. simpl. rewrite E. reflexivity.
Qed.

Lemma norm_valid (l acc : list string) (c : string) :
  (forall x, In x acc -> valid_name x = true) ->
  (forall x, In x l -> x <> "" /\ has_slash x = false) ->
  In c (fold_left norm_step l acc) -> valid_name c = true.
Proof.
  revert acc. induction l as [|y l IH]; intros acc Hacc Hl; simpl; [apply Hacc|].
  apply IH; [|intros x Hx; apply Hl; right; exact Hx].
  intros x. unfold norm_step.
  destruct (String.eqb_spec y ".") as [->|H1]; [apply Hacc|].
  destruct (String.eqb_spec y "..") as [->|H2].
  - intros Hx. apply Hacc. destruct acc; simpl in *; tauto.
  - intros [<-|Hx]; [|apply Hacc; exact Hx].
    destruct (Hl y (or_introl eq_refl)) as [H0 Hs]. unfold valid_name.
    apply String.eqb_neq in H0, H1, H2. rewrite H0, H1, H2, Hs. reflexivity.
Qed.

Lemma components_valid (p c : string) :
  In c (components p) -> valid_name c = true.
Proof.
  unfold components. rewrite <- in_rev. apply norm_valid.
  - intros x [].
  - intros x. apply raw_components_ok. reflexivity.
Qed.

Lemma parent_and_name_valid (p : string) (parent : list string) (name : string) :
  parent_and_name p = Some (parent, name) -> valid_name name = true.
Proof.
  intros H. apply parent_and_name_components in H. apply (components_valid p).
  rewrite H. apply in_or_app. right. left. reflexivity.
Qed.

(** ** File-system calls keep the tree well-formed *)

Lemma child_None_not_In (name : string) (es : dir_entries) :
  child name es = None -> existsb (String.eqb name) (map fst es) = false.
Proof.
  induction es as [|[k v] r IH]; simpl; [reflexivity|].
  rewrite (String.eqb_sym name k).
  destruct (String.eqb k name); [discriminate|]. exact IH.
Qed.

Lemma unique_names_snoc (l : list string) (x : string) :
  unique_names l = true -> existsb (String.eqb x) l = false ->
  unique_names (l ++ [x]) = true.
Proof.
  induction l as [|y l IH]; simpl; [reflexivity|].
  intros H Hx. apply andb_true_iff in H. destruct H as [Hy Hl].
  apply orb_false_iff in Hx. destruct Hx as [Hxy Hx].
  rewrite IH by assumption. rewrite andb_true_r.
  rewrite existsb_app. simpl. rewrite (String.eqb_sym y x), Hxy.
  apply negb_true_iff in Hy. rewrite Hy. reflexivity.
Qed.

Lemma wf_set_child (name : string) (n : node) (es : dir_entries) :
  valid_name name = true -> wf_node n = true -> wf_node (Dir es) = true ->
  wf_node (Dir (set_child name n es)) = true.
Proof.
  intros Hv Hn Hes. unfold set_child. destruct (child name es) eqn:E.
  - apply wf_map_child; [intros _ _; exact Hn | exact Hes].
  - rewrite wf_node_Dir in *. apply andb_true_iff in Hes. destruct Hes as [Hes H3].
    apply andb_true_iff in Hes. destruct Hes as [H1 H2].
    rewrite map_app, !forallb_app. simpl.
    rewrite H1, H3, Hv, Hn. simpl.
    rewrite unique_names_snoc; [reflexivity | exact H2 | apply child_None_not_In; exact E].
Qed.

Lemma wf_os_remove (p : string) (root : node) :
  wf_node root = true -> wf_node (snd (os_remove p root)) = true.
Proof.
  intros H. unfold os_remove.
  destruct (resolve p root) as [[r d|es]|]; try exact H.
  destruct (parent_and_name p) as [[parent name]|]; [|exact H].
  apply wf_remove_child. exact H.
Qed.

Lemma wf_os_rmdir (p : string) (root : node) :
  wf_node root = true -> wf_node (snd (os_rmdir p root)) = true.
Proof.
  intros H. unfold os_rmdir.
  destruct (resolve p root) as [[r d|[|x es]]|]; try exact H.
  destruct (parent_and_name p) as [[parent name]|]; [|exact H].
  apply wf_remove_child. exact H.
Qed.

Lemma wf_os_mkdir (p : string) (root : node) :
  wf_node root = true -> wf_node (snd (os_mkdir p root)) = true.
Proof.
  intros H. unfold os_mkdir.
  destruct (lookup (components p) root) as [n|]; [exact H|].
  destruct (parent_and_name p) as [[parent name]|] eqn:E; [|exact H].
  destruct (lookup parent root) as [[r d|es]|]; try exact H.
  simpl. apply wf_modify_dir; [|exact H]. intros es'.
  apply wf_set_child; [eapply parent_and_name_valid; exact E | reflexivity].
Qed.

Lemma wf_write_file (p : string) (data : bytes) (root : node) :
  wf_node root = true -> wf_node (snd (write_file p data root)) = true.
Proof.
  intros H. unfold write_file. destruct (ends_with_slash p); [exact H|].
  assert (Hput : forall parent name, parent_and_name p = Some (parent, name) ->
            wf_node (snd (match lookup parent root with
                          | Some (Dir _) =>
                              (Ok tt, modify_dir parent (set_child name (File true data)) root)
                          | _ => (Raise (missing_error p root), root)
                          end)) = true).
  { intros parent name E. destruct (lookup parent root) as [[r d|es]|]; try exact H.
    simpl. apply wf_modify_dir; [|exact H]. intros es'.
    apply wf_set_child; [eapply parent_and_name_valid; exact E | reflexivity]. }
  destruct (resolve p root) as [[r d|es]|];
    destruct (parent_and_name p) as [[parent name]|]; try exact H; apply Hput; reflexivity.
Qed.

Lemma wf_makedirs (fuel : nat) :
  forall (name : string) (root : node),
    wf_node root = true -> wf_node (snd (makedirs fuel name root)) = true.
Proof.
  induction fuel as [|fuel IH]; intros name root H; [exact H|].
  cbn [makedirs]. destruct (path_split name) as [head0 tail0].
  destruct (match tail0 with "" => path_split head0 | _ => (head0, tail0) end)
    as [head tail].
  set (recurse := negb (String.eqb head "") && negb (String.eqb tail "")
                  && negb (path_exists head root)).
  assert (Hmk : forall root1, wf_node root1 = true ->
            wf_node (snd (match os_mkdir name root1 with
                          | (Ok _, root2) => (Ok tt, root2)
                          | (Raise e, root2) =>
                              if is_oserror (exn_cls e) && isdir name root2
                              then (Ok tt, root2) else (Raise e, root2)
                          end)) = true).
  { intros root1 H1. pose proof (wf_os_mkdir name root1 H1) as Hm.
    destruct (os_mkdir name root1) as [[u|e] root2]; simpl in *; [exact Hm|].
    destruct (is_oserror (exn_cls e) && isdir name root2); exact Hm. }
  destruct recurse.
  - specialize (IH head root H).
    destruct (makedirs fuel head root) as [[u|e] root1]; simpl in IH.
    + destruct (String.eqb tail "."); [exact IH | apply Hmk; exact IH].
    + destruct (exn_cls e); try exact IH.
      destruct (String.eqb tail "."); [exact IH | apply Hmk; exact IH].
  - apply Hmk. exact H.
Qed.

(** ** What the stages of the script preserve *)

Section Stages.
Variable I : world -> Prop.
Hypothesis I_quiet : forall w w', w_fs w' = w_fs w -> w_s3 w' = w_s3 w -> I w -> I w'.
Hypothesis I_lift :
  forall (A : Type) (f : node -> fs_result A),
    (forall root, wf_node root = true -> wf_node (snd (f root)) = true) ->
    preserves I (lift_fs f).

Ltac stage :=
  repeat match goal with
    | |- preserves _ (ret _) => apply preserves_ret
    | |- preserves _ (raise _) => apply preserves_raise
    | |- preserves _ (query_fs _) => apply preserves_query_fs
    | |- preserves _ (log _ _) => apply (preserves_log I I_quiet)
    | |- preserves _ read_clock => apply (preserves_read_clock I I_quiet)
    | |- preserves _ sdk_call => apply (preserves_sdk_call I I_quiet)
    | |- preserves _ (bind _ _) => apply preserves_bind; [|intros ?]
    | |- preserves _ (for_each _ _) => apply preserves_for_each; intros ?
    | |- preserves _ (try_except _ _) => apply preserves_try_except; [|intros ?]
    | |- preserves _ (lift_fs _) =>
        apply I_lift; intros ? ?;
        first [ apply wf_makedirs | apply wf_write_file | apply wf_os_remove
              | apply wf_os_rmdir ]; assumption
    | |- preserves _ (fun w => (_, w)) =>
        let w := fresh "w" in let H := fresh "H" in intros w H; exact H
    | |- preserves _ (if ?b then _ else _) => destruct b
    | |- preserves _ (match ?x with _ => _ end) => destruct x
    end.

Lemma preserves_unchanged {A : Type} (f : world -> outcome A) :
  preserves I (fun w => (f w, w)).
Proof. intros w H. exact H. Qed.

Lemma preserves_configure_aws : preserves I configure_aws.
Proof. unfold configure_aws, logging_info, logging_error. stage. Qed.

Lemma preserves_download_file (bucket_name key filename : string) :
  preserves I (download_file bucket_name key filename).
Proof.
  unfold download_file. stage.
  intros w H. destruct (s3_get (bucket_name, key) (w_s3 w)); exact H.
Qed.

Lemma preserves_download_files (bucket_name : string) (pats : option (list string)) :
  preserves I (download_files bucket_name pats).
Proof.
  unfold download_files, list_objects, logging_info. stage.
  apply preserves_download_file.
Qed.

Lemma preserves_walk (fuel : nat) :
  forall top, preserves I (walk_and_remove fuel top).
Proof.
  induction fuel as [|fuel IH]; intros top; cbn [walk_and_remove]; stage.
  apply IH.
Qed.

Lemma preserves_remove_temp_path (path : string) :
  preserves I (remove_temp_path path).
Proof. unfold remove_temp_path. stage. apply preserves_walk. Qed.

Lemma preserves_cleanup : preserves I cleanup_local_resources.
Proof.
  unfold cleanup_local_resources, logging_info. stage.
  apply preserves_remove_temp_path.
Qed.

Context {codec : Codec}.

Lemma preserves_create_archive (source_dir output_filename : string) :
  preserves I (create_tar_gz_archive source_dir output_filename).
Proof. unfold create_tar_gz_archive, logging_info. stage. Qed.

End Stages.

(** ** The object store through a run *)

Lemma bind_inv {A B : Type} (m : M A) (k : A -> M B) (w w' : world) (b : B) :
  bind m k w = (Ok b, w') -> exists a w1, m w = (Ok a, w1) /\ k a w1 = (Ok b, w').
Proof.
  unfold bind. destruct (m w) as [[a|e] w1]; [|discriminate].
  intros H. exists a, w1. split; [reflexivity | exact H].
Qed.

Lemma store_kept {A : Type} (m : M A) (w w1 : world) (r : outcome A) :
  preserves (store_is (w_s3 w)) m -> m w = (r, w1) -> w_s3 w1 = w_s3 w.
Proof. intros Hp E. specialize (Hp w eq_refl). rewrite E in Hp. exact Hp. Qed.

Lemma store_quiet_lift (s : s3_store) (A : Type) (f : node -> fs_result A) :
  (forall root, wf_node root = true -> wf_node (snd (f root)) = true) ->
  preserves (store_is s) (lift_fs f).
Proof. intros _. apply store_lift_fs. Qed.

Lemma same_key_refl (k : string * string) : same_key k k = true.
Proof. unfold same_key. rewrite !String.eqb_refl. reflexivity. Qed.

Lemma s3_get_put_same (k : string * string) (o : s3_object) (s : s3_store) :
  s3_get k (s3_put k o s) = Some o.
Proof.
  induction s as [|[k' o'] r IH]; simpl.
  - rewrite same_key_refl. reflexivity.
  - destruct (same_key k' k) eqn:E; simpl.
    + rewrite same_key_refl. reflexivity.
    + rewrite E. exact IH.
Qed.

Lemma s3_put_put_same (k : string * string) (o1 o2 : s3_object) (s : s3_store) :
  s3_put k o2 (s3_put k o1 s) = s3_put k o2 s.
Proof.
  induction s as [|[k' o'] r IH]; simpl.
  - rewrite same_key_refl. reflexivity.
  - destruct (same_key k' k) eqn:E; simpl.
    + rewrite same_key_refl. reflexivity.
    + rewrite E, IH. reflexivity.
Qed.

Lemma sdk_call_store (w w1 : world) (r : outcome unit) :
  sdk_call w = (r, w1) -> w_s3 w1 = w_s3 w /\ w_fs w1 = w_fs w.
Proof.
  unfold sdk_call. destruct (w_faults w) as [|[e|] f]; intros [= <- <-]; split; reflexivity.
Qed.

Lemma upload_file_inv (filename bucket_name key : string) (ct : option string)
  (w w1 : world) :
  upload_file filename bucket_name key ct w = (Ok tt, w1) ->
  exists data,
    read_file filename (w_fs w) = Ok data
    /\ w_s3 w1 = s3_put (bucket_name, key) (mk_object data ct []) (w_s3 w).
Proof.
  unfold upload_file. intros H.
  apply bind_inv in H. destruct H as (data & wa & Ha & H).
  injection Ha as Ha <-.
  apply bind_inv in H. destruct H as ([] & wb & Hb & H).
  apply sdk_call_store in Hb. destruct Hb as [Hb _].
  injection H as <-. exists data. split; [exact Ha|]. simpl. rewrite Hb. reflexivity.
Qed.

Lemma put_object_tagging_inv (bucket_name key : string) (tags : list (string * string))
  (w w1 : world) :
  put_object_tagging bucket_name key tags w = (Ok tt, w1) ->
  exists o,
    s3_get (bucket_name, key) (w_s3 w) = Some o
    /\ w_s3 w1 = s3_put (bucket_name, key)
                   (mk_object (obj_data o) (obj_content_type o) tags) (w_s3 w).
Proof.
  unfold put_object_tagging. intros H.
  apply bind_inv in H. destruct H as ([] & wb & Hb & H).
  apply sdk_call_store in Hb. destruct Hb as [Hb _]. rewrite <- Hb.
  destruct (s3_get (bucket_name, key) (w_s3 wb)) as [o|]; [|discriminate].
  injection H as <-. exists o. split; reflexivity.
Qed.

Lemma log_store (level : log_level) (msg : string) (w w1 : world) (r : outcome unit) :
  log level msg w = (r, w1) -> w_s3 w1 = w_s3 w.
Proof. intros [= <- <-]. reflexivity. Qed.

(** ** The timestamp *)

Lemma is_digit_digit_char (d : Z) : is_digit (digit_char d) = true.
Proof.
  unfold digit_char. pose proof (Z.mod_pos_bound d 10 eq_refl) as Hb.
  assert (H : d mod 10 = 0 \/ d mod 10 = 1 \/ d mod 10 = 2 \/ d mod 10 = 3
              \/ d mod 10 = 4 \/ d mod 10 = 5 \/ d mod 10 = 6 \/ d mod 10 = 7
              \/ d mod 10 = 8 \/ d mod 10 = 9) by lia.
  repeat (destruct H as [->|H]; [reflexivity|]). rewrite H. reflexivity.
Qed.

Lemma decimal_four_digits (y : Z) :
  1000 <= y <= 9999 ->
  decimal y
  = String (digit_char (y / 10 / 10 / 10))
      (String (digit_char (y / 10 / 10))
         (String (digit_char (y / 10)) (String (digit_char y) ""))).
Proof.
  intros Hy. unfold decimal.
  destruct (Z.ltb_spec y 0) as [|_]; [lia|].
  assert (Hlog : 9 <= Z.log2 y).
  { change 9 with (Z.log2 1000). apply Z.log2_le_mono. lia. }
  destruct (Z.to_nat (Z.log2 y)) as [|[|[|n]]] eqn:E; try lia.
  cbn [decimal_digits].
  assert (H1 : (y / 10 =? 0) = false) by (apply Z.eqb_neq; intros H; apply Z.div_small_iff in H; lia).
  assert (H2 : (y / 10 / 10 =? 0) = false).
  { apply Z.eqb_neq. rewrite Z.div_div by lia. intros H. apply Z.div_small_iff in H; lia. }
  assert (H3 : (y / 10 / 10 / 10 =? 0) = false).
  { apply Z.eqb_neq. rewrite !Z.div_div by lia. intros H. apply Z.div_small_iff in H; lia. }
  assert (H4 : (y / 10 / 10 / 10 / 10 =? 0) = true).
  { apply Z.eqb_eq. rewrite !Z.div_div by lia. apply Z.div_small. lia. }
  rewrite H1, H2, H3, H4. reflexivity.
Qed.

Lemma stamp_shape_strftime (t : clock_reading) :
  1000 <= tm_year t <= 9999 -> stamp_shape (strftime_stamp t) = true.
Proof.
  intros Hy. unfold strftime_stamp. rewrite (decimal_four_digits _ Hy).
  unfold two_digits, stamp_shape. cbn [append list_ascii_of_string forallb].
  rewrite !is_digit_digit_char. reflexivity.
Qed.

Lemma digit_value_digit_char (d : Z) : digit_value (digit_char d) = Some (d mod 10).
Proof.
  unfold digit_char. pose proof (Z.mod_pos_bound d 10 eq_refl) as Hb.
  assert (H : d mod 10 = 0 \/ d mod 10 = 1 \/ d mod 10 = 2 \/ d mod 10 = 3
              \/ d mod 10 = 4 \/ d mod 10 = 5 \/ d mod 10 = 6 \/ d mod 10 = 7
              \/ d mod 10 = 8 \/ d mod 10 = 9) by lia.
  repeat (destruct H as [->|H]; [reflexivity|]). rewrite H. reflexivity.
Qed.

Lemma read_two_digits (n : Z) :
  0 <= n <= 99 ->
  read_decimal [digit_char (n / 10); digit_char n] 0 = Some n.
Proof.
  intros Hn. cbn [read_decimal]. rewrite !digit_value_digit_char. f_equal.
  pose proof (Z.div_mod n 10 ltac:(lia)).
  pose proof (Z.mod_pos_bound n 10 eq_refl).
  rewrite (Z.mod_small (n / 10)) by lia. lia.
Qed.

Lemma read_four_digits (y : Z) :
  1000 <= y <= 9999 ->
  read_decimal [digit_char (y / 10 / 10 / 10); digit_char (y / 10 / 10);
                digit_char (y / 10); digit_char y] 0 = Some y.
Proof.
  intros Hy. cbn [read_decimal]. rewrite !digit_value_digit_char. f_equal.
  pose proof (Z.div_mod y 10 ltac:(lia)).
  pose proof (Z.div_mod (y / 10) 10 ltac:(lia)).
  pose proof (Z.div_mod (y / 10 / 10) 10 ltac:(lia)).
  pose proof (Z.mod_pos_bound y 10 eq_refl).
  pose proof (Z.mod_pos_bound (y / 10) 10 eq_refl).
  pose proof (Z.mod_pos_bound (y / 10 / 10) 10 eq_refl).
  rewrite (Z.mod_small (y / 10 / 10 / 10)) by lia. lia.
Qed.

(** The text [strftime_stamp] gives is read back as the six fields of the
    reading, in the order year, month, day, hour, minute, second. *)
Lemma read_stamp_strftime (t : clock_reading) :
  calendar_time t ->
  read_stamp (strftime_stamp t)
  = Some (tm_year t, tm_mon t, tm_mday t, tm_hour t, tm_min t, tm_sec t).
Proof.
  intros (Y & M & D & h & m & s).
  unfold strftime_stamp. rewrite (decimal_four_digits _ Y).
  unfold two_digits, read_stamp. cbn [append list_ascii_of_string].
  change (forallb (Ascii.eqb "-"%char) ["-"%char; "-"%char; "-"%char; "-"%char; "-"%char])
    with true. cbv iota.
  rewrite (read_four_digits _ Y).
  rewrite !read_two_digits by lia. reflexivity.
Qed.

Lemma bind_cases {A B : Type} (m : M A) (k : A -> M B) (w w' : world) (r : outcome B) :
  bind m k w = (r, w') ->
  (exists e, m w = (Raise e, w') /\ r = Raise e)
  \/ exists a w1, m w = (Ok a, w1) /\ k a w1 = (r, w').
Proof.
  unfold bind. destruct (m w) as [[a|e] w1]; intros H.
  - right. exists a, w1. split; [reflexivity | exact H].
  - left. exists e. injection H as <- <-. split; reflexivity.
Qed.

Lemma upload_file_cases (filename bucket_name key : string) (ct : option string)
  (w w1 : world) (r : outcome unit) :
  upload_file filename bucket_name key ct w = (r, w1) ->
  match r with
  | Ok _ => exists data, w_s3 w1 = s3_put (bucket_name, key) (mk_object data ct []) (w_s3 w)
  | Raise _ => w_s3 w1 = w_s3 w
  end.
Proof.
  destruct r as [[]|e]; intros H.
  - apply upload_file_inv in H. destruct H as (data & _ & H). exists data. exact H.
  - unfold upload_file, bind in H.
    destruct (read_file filename (w_fs w)); [|injection H as _ <-; reflexivity].
    destruct (sdk_call w) as [[u|e'] w2] eqn:E; [discriminate|].
    injection H as _ <-. apply sdk_call_store in E. apply E.
Qed.

Lemma put_object_tagging_cases (bucket_name key : string) (tags : list (string * string))
  (w w1 : world) (r : outcome unit) :
  put_object_tagging bucket_name key tags w = (r, w1) ->
  match r with
  | Ok _ =>
      exists o,
        s3_get (bucket_name, key) (w_s3 w) = Some o
        /\ w_s3 w1 = s3_put (bucket_name, key)
                       (mk_object (obj_data o) (obj_content_type o) tags) (w_s3 w)
  | Raise _ => w_s3 w1 = w_s3 w
  end.
Proof.
  destruct r as [[]|e]; intros H.
  - apply put_object_tagging_inv in H. exact H.
  - unfold put_object_tagging, bind in H.
    destruct (sdk_call w) as [[u|e'] w2] eqn:E; apply sdk_call_store in E;
      destruct E as [E _].
    + destruct (s3_get (bucket_name, key) (w_s3 w2)); [discriminate|].
      injection H as _ <-. exact E.
    + injection H as _ <-. exact E.
Qed.

(** ** The whole run *)

Section Run.
Context {codec : Codec}.

Lemma preserves_wf_upload_file (filename bucket_name key : string) (ct : option string) :
  preserves fs_wf (upload_file filename bucket_name key ct).
Proof.
  unfold upload_file. intros w H. unfold bind.
  destruct (read_file filename (w_fs w)); [|exact H].
  pose proof (preserves_sdk_call fs_wf fs_wf_quiet w H) as Hs.
  destruct (sdk_call w) as [[u|e] w1]; exact Hs.
Qed.

Lemma preserves_wf_tagging (bucket_name key : string) (tags : list (string * string)) :
  preserves fs_wf (put_object_tagging bucket_name key tags).
Proof.
  unfold put_object_tagging. intros w H. unfold bind.
  pose proof (preserves_sdk_call fs_wf fs_wf_quiet w H) as Hs.
  destruct (sdk_call w) as [[u|e] w1]; [|exact Hs]. simpl in Hs.
  destruct (s3_get (bucket_name, key) (w_s3 w1)); exact Hs.
Qed.

Lemma preserves_wf_main : preserves fs_wf main.
Proof.
  unfold main.
  apply preserves_bind; [apply (preserves_read_clock _ fs_wf_quiet) | intros now].
  apply preserves_bind;
    [apply (preserves_configure_aws _ fs_wf_quiet) | intros _].
  apply preserves_bind;
    [apply (preserves_download_files _ fs_wf_quiet (@wf_lift_fs)) | intros local_dir].
  apply preserves_bind;
    [apply (preserves_create_archive _ fs_wf_quiet (@wf_lift_fs)) | intros archive_path].
  apply preserves_bind.
  { unfold upload_archive_to_s3, logging_info. apply preserves_bind;
      [apply preserves_wf_upload_file | intros _; apply (preserves_log _ fs_wf_quiet)]. }
  intros _. apply preserves_bind.
  { unfold tag_archive, logging_info. apply preserves_bind;
      [apply preserves_wf_tagging | intros _; apply (preserves_log _ fs_wf_quiet)]. }
  intros _. apply preserves_bind.
  { unfold upload_log_to_s3, logging_info. apply preserves_bind;
      [apply preserves_wf_upload_file | intros _; apply (preserves_log _ fs_wf_quiet)]. }
  intros _. apply (preserves_cleanup _ fs_wf_quiet (@wf_lift_fs)).
Qed.

Lemma upload_archive_cases (bucket_name file_path archive_name : string)
  (w w1 : world) (r : outcome unit) :
  upload_archive_to_s3 bucket_name file_path archive_name w = (r, w1) ->
  match r with
  | Ok _ =>
      exists data,
        w_s3 w1 = s3_put (bucket_name, archive_name)
                    (mk_object data (Some "application/gzip") []) (w_s3 w)
  | Raise _ => w_s3 w1 = w_s3 w
  end.
Proof.
  unfold upload_archive_to_s3. intros H.
  apply bind_cases in H. destruct H as [(e & H & ->)|([] & wa & H & Hl)].
  - exact (upload_file_cases _ _ _ _ _ _ _ H).
  - injection Hl as <- <-. exact (upload_file_cases _ _ _ _ _ _ _ H).
Qed.

Lemma tag_archive_cases (bucket_name archive_name : string)
  (tags : list (string * string)) (w w1 : world) (r : outcome unit) :
  tag_archive bucket_name archive_name tags w = (r, w1) ->
  match r with
  | Ok _ =>
      exists o,
        s3_get (bucket_name, archive_name) (w_s3 w) = Some o
        /\ w_s3 w1 = s3_put (bucket_name, archive_name)
                       (mk_object (obj_data o) (obj_content_type o) tags) (w_s3 w)
  | Raise _ => w_s3 w1 = w_s3 w
  end.
Proof.
  unfold tag_archive. intros H.
  apply bind_cases in H. destruct H as [(e & H & ->)|([] & wa & H & Hl)].
  - exact (put_object_tagging_cases _ _ _ _ _ _ H).
  - injection Hl as <- <-. exact (put_object_tagging_cases _ _ _ _ _ _ H).
Qed.

Lemma upload_log_cases (bucket_name local_log_path s3_log_directory timestamp : string)
  (w w1 : world) (r : outcome unit) :
  upload_log_to_s3 bucket_name local_log_path s3_log_directory timestamp w = (r, w1) ->
  match r with
  | Ok _ =>
      exists data,
        w_s3 w1 = s3_put (bucket_name,
                          s3_log_directory ++ "/python-log-" ++ timestamp ++ ".txt")
                    (mk_object data None []) (w_s3 w)
  | Raise _ => w_s3 w1 = w_s3 w
  end.
Proof.
  unfold upload_log_to_s3. intros H.
  apply bind_cases in H. destruct H as [(e & H & ->)|([] & wa & H & Hl)].
  - exact (upload_file_cases _ _ _ _ _ _ _ H).
  - injection Hl as <- <-. exact (upload_file_cases _ _ _ _ _ _ _ H).
Qed.

(** C9: in every run of [main], however it ends, the store afterwards is
    the store before with at most two objects put, in this order: the
    archive under [weekly-archive-<timestamp>.tar.gz] and then the log under
    [archival-logs/python-log-<timestamp>.txt] in the bucket
    [my-app-090823]; a run that completes has put both, the archive tagged.
    Both keys carry the one timestamp taken from the clock when the run
    starts, and for a calendar reading that text is read back, as
    YYYY-MM-DD-HH-MM-SS, to the year, month, day, hour, minute and second of
    the reading.  The guard leaves the store as [main] left it. *)
Theorem object_keys_of_a_run (w w' : world) (r : outcome unit) :
  main w = (r, w') ->
  let timestamp := strftime_stamp (next_reading w) in
  let archive_key := ("my-app-090823", "weekly-archive-" ++ timestamp ++ ".tar.gz") in
  let log_key := ("my-app-090823", "archival-logs/python-log-" ++ timestamp ++ ".txt") in
  let gzip_object := fun data tags => mk_object data (Some "application/gzip") tags in
  let ready := [("ArchiveStatus", "ReadyForGlacier")] in
  (calendar_time (next_reading w) ->
   read_stamp timestamp
   = Some (tm_year (next_reading w), tm_mon (next_reading w), tm_mday (next_reading w),
           tm_hour (next_reading w), tm_min (next_reading w), tm_sec (next_reading w)))
  /\ match r with
     | Ok _ =>
         exists archive log_data,
           w_s3 w' = s3_put log_key (mk_object log_data None [])
                       (s3_put archive_key (gzip_object archive ready) (w_s3 w))
     | Raise _ =>
         w_s3 w' = w_s3 w
         \/ (exists archive,
               w_s3 w' = s3_put archive_key (gzip_object archive []) (w_s3 w))
         \/ (exists archive,
               w_s3 w' = s3_put archive_key (gzip_object archive ready) (w_s3 w))
         \/ exists archive log_data,
              w_s3 w' = s3_put log_key (mk_object log_data None [])
                          (s3_put archive_key (gzip_object archive ready) (w_s3 w))
     end
  /\ w_s3 (snd (main_guard w)) = w_s3 w'.
Proof.
  intros Hmain. cbv zeta. split; [apply read_stamp_strftime|].
  split.
  2:{ unfold main_guard. rewrite Hmain. destruct r as [[]|e]; [reflexivity|].
      assert (Hp : preserves (store_is (w_s3 w'))
                     (logging_error ("An error occurred in the main execution: "
                                     ++ exn_msg e) ;;;
                      cleanup_local_resources)).
      { apply preserves_bind; [apply (preserves_log _ (store_is_quiet _)) | intros _].
        apply (preserves_cleanup _ (store_is_quiet _) (store_quiet_lift _)). }
      specialize (Hp w' eq_refl).
      destruct ((logging_error ("An error occurred in the main execution: "
                                ++ exn_msg e) ;;; cleanup_local_resources) w')
        as [[[]|e'] w2]; exact Hp. }
  revert Hmain. unfold main. intros H.
  apply bind_cases in H. destruct H as [(e & H & _)|(now & w1 & H1 & H)].
  { unfold read_clock in H. destruct (w_clock w); discriminate. }
  assert (Hnow : now = next_reading w /\ w_s3 w1 = w_s3 w).
  { unfold read_clock, next_reading in *. destruct (w_clock w); injection H1 as <- <-;
      split; reflexivity. }
  destruct Hnow as [-> S1]. clear H1.
  apply bind_cases in H. destruct H as [(e & H & ->)|([] & w2 & H2 & H)].
  { left. rewrite <- S1.
    exact (store_kept _ _ _ _ (preserves_configure_aws _ (store_is_quiet _)) H). }
  apply (store_kept _ _ _ _ (preserves_configure_aws _ (store_is_quiet _))) in H2.
  apply bind_cases in H. destruct H as [(e & H & ->)|(local_dir & w3 & H3 & H)].
  { left. rewrite <- S1, <- H2.
    exact (store_kept _ _ _ _ (preserves_download_files _ (store_is_quiet _)
                                 (store_quiet_lift _) _ _) H). }
  apply (store_kept _ _ _ _ (preserves_download_files _ (store_is_quiet _)
                               (store_quiet_lift _) _ _)) in H3.
  apply bind_cases in H. destruct H as [(e & H & ->)|(archive_path & w4 & H4 & H)].
  { left. rewrite <- S1, <- H2, <- H3.
    exact (store_kept _ _ _ _ (preserves_create_archive _ (store_is_quiet _)
                                 (store_quiet_lift _) _ _) H). }
  apply (store_kept _ _ _ _ (preserves_create_archive _ (store_is_quiet _)
                               (store_quiet_lift _) _ _)) in H4.
  assert (S4 : w_s3 w4 = w_s3 w) by congruence. clear S1 H2 H3 H4.
  apply bind_cases in H. destruct H as [(e & H & ->)|([] & w5 & H5 & H)].
  { left. apply upload_archive_cases in H. congruence. }
  apply upload_archive_cases in H5. destruct H5 as (archive & S5). rewrite S4 in S5.
  apply bind_cases in H. destruct H as [(e & H & ->)|([] & w6 & H6 & H)].
  { right. left. exists archive. apply tag_archive_cases in H. congruence. }
  apply tag_archive_cases in H6. destruct H6 as (o & Ho & S6).
  rewrite S5, s3_get_put_same in Ho. injection Ho as <-.
  rewrite S5, s3_put_put_same in S6. cbn [obj_data obj_content_type] in S6.
  apply bind_cases in H. destruct H as [(e & H & ->)|([] & w7 & H7 & H)].
  { right. right. left. exists archive. apply upload_log_cases in H. congruence. }
  apply upload_log_cases in H7. destruct H7 as (log_data & S7). rewrite S6 in S7.
  apply (store_kept _ _ _ _ (preserves_cleanup _ (store_is_quiet _)
                               (store_quiet_lift _))) in H.
  rewrite S7 in H.
  destruct r as [[]|e]; [|right; right; right]; exists archive, log_data; exact H.
Qed.


End Run.

Lemma object_keys_of_sample_run :
  let w := world_of started_tmp sample_store [sample_time] in
  fst (@main stored_codec w) = Ok tt
  /\ calendar_time sample_time
  /\ read_stamp "2023-11-14-22-13-20" = Some (2023, 11, 14, 22, 13, 20)
  /\ (exists archive log_data,
        w_s3 (snd (@main stored_codec w))
        = s3_put ("my-app-090823", "archival-logs/python-log-2023-11-14-22-13-20.txt")
            (mk_object log_data None [])
            (s3_put ("my-app-090823", "weekly-archive-2023-11-14-22-13-20.tar.gz")
               (mk_object archive (Some "application/gzip")
                  [("ArchiveStatus", "ReadyForGlacier")])
               (w_s3 w)))
  /\ w_s3 (snd (@main_guard stored_codec w)) = w_s3 (snd (@main stored_codec w)).
Proof.
  intros w.
  assert (Hrun : @main stored_codec w = (Ok tt, snd (@main stored_codec w)))
    by (vm_compute; reflexivity).
  assert (Hcal : calendar_time sample_time)
    by (unfold calendar_time; simpl; lia).
  destruct (@object_keys_of_a_run stored_codec w _ _ Hrun) as (Hstamp & Hkeys & Hguard).
  split; [vm_compute; reflexivity|]. split; [exact Hcal|].
  split; [exact (Hstamp Hcal)|]. split; [exact Hkeys | exact Hguard].
Defined.



(** ** Savings Reporter *)

Lemma round64_in_range (a o : Z) :
  0 < o -> Z.abs a < overflow_threshold * o ->
  round64 (inject_Z a / inject_Z o) = Finite (round_grid (inject_Z a / inject_Z o)).
Proof.
  intros Ho Ha. unfold round64.
  destruct (Qle_bool (inject_Z overflow_threshold) (Qabs (inject_Z a / inject_Z o))) eqn:E;
    [exfalso | reflexivity].
  apply Qle_bool_iff in E.
  destruct o as [|p|p]; try lia.
  unfold Qle, Qabs, Qdiv, Qmult, Qinv, inject_Z in E. cbn [Qnum Qden] in E.
  rewrite !Z.mul_1_r in E.
  rewrite Pos.mul_1_l in E. lia.
Qed.

(** C3: with an original size of 0, [calculate_size_savings] raises
    [ZeroDivisionError] ("division by zero") whatever the compressed size is;
    it returns no pair at all, in particular for (0, 0). *)
Theorem savings_of_zero_original_raises (compressed_size : Z) :
  calculate_size_savings 0 compressed_size
  = Raise (mk_exn ZeroDivisionError "division by zero").
Proof. reflexivity. Qed.

Lemma round64_out_of_range (a o : Z) :
  0 < o -> overflow_threshold * o <= Z.abs a ->
  exists negative, round64 (inject_Z a / inject_Z o) = Inf negative.
Proof.
  intros Ho Ha. unfold round64.
  destruct (Qle_bool (inject_Z overflow_threshold) (Qabs (inject_Z a / inject_Z o))) eqn:E;
    [eexists; reflexivity | exfalso].
  assert (H : ~ (inject_Z overflow_threshold <= Qabs (inject_Z a / inject_Z o))%Q).
  { intros H. apply Qle_bool_iff in H. congruence. }
  apply H. clear E H.
  destruct o as [|p|p]; try lia.
  unfold Qle, Qabs, Qdiv, Qmult, Qinv, inject_Z. cbn [Qnum Qden].
  rewrite !Z.mul_1_r. rewrite Pos.mul_1_l. lia.
Qed.

(** C7, as the code has it: for [0 < original] and [0 <= compressed], the
    function returns the exact difference and the float product by 100 of
    the correctly rounded float quotient [(original - compressed) / original]
    when [compressed - original < (2^1024 - 2^970) * original], and raises
    [OverflowError] from the division for every other such input. *)
Theorem savings_in_float_range (original_size compressed_size : Z) :
  0 < original_size -> 0 <= compressed_size ->
  calculate_size_savings original_size compressed_size
  = if compressed_size - original_size <? overflow_threshold * original_size
    then Ok (original_size - compressed_size,
             float_mul
               (Finite (round_grid (inject_Z (original_size - compressed_size)
                                    / inject_Z original_size)))
               (float_of_small_int 100))
    else Raise (mk_exn OverflowError "integer division result too large for a float").
Proof.
  intros Ho Hc. unfold calculate_size_savings, int_truediv.
  destruct (Z.eqb_spec original_size 0) as [->|_]; [lia|].
  assert (HT : 2 <= overflow_threshold) by (vm_compute; discriminate).
  assert (2 * original_size <= overflow_threshold * original_size)
    by (apply Z.mul_le_mono_nonneg_r; lia).
  destruct (Z.ltb_spec (compressed_size - original_size)
              (overflow_threshold * original_size)) as [Hb|Hb].
  - rewrite round64_in_range; [reflexivity | assumption | lia].
  - destruct (round64_out_of_range (original_size - compressed_size) original_size Ho)
      as [negative ->]; [lia | reflexivity].
Qed.

(** [calculate_size_savings(1000, 250) == (750, 75.0)] *)
Lemma savings_1000_250 :
  calculate_size_savings 1000 250 = Ok (750, Finite (75 # 1)).
Proof.
  rewrite (savings_in_float_range 1000 250); [ | lia | lia ].
  vm_compute. reflexivity.
Defined.

(** A compressed size so large that the quotient leaves the float range:
    the division raises [OverflowError] and no pair is returned. *)
Lemma savings_overflow :
  calculate_size_savings 1 (2 ^ 1025)
  = Raise (mk_exn OverflowError "integer division result too large for a float").
Proof. vm_compute. reflexivity. Qed.

(** ** Run Finalizer *)

Lemma nothing_beneath (p q : list string) (root : node) :
  view_of (lookup p root) <> IsDir -> q <> [] -> lookup (p ++ q)%list root = None.
Proof.
  intros H Hq. rewrite lookup_app.
  destruct (lookup p root) as [[r d|es]|]; [|contradiction H; reflexivity|reflexivity].
  destruct q; [contradiction Hq; reflexivity | reflexivity].
Qed.






(** ** Writing and reading back *)

Lemma child_app (d : string) (es1 es2 : dir_entries) :
  child d (es1 ++ es2)%list
  = match child d es1 with Some v => Some v | None => child d es2 end.
Proof.
  induction es1 as [|[k v] r IH]; simpl; [reflexivity|].
  destruct (String.eqb k d); [reflexivity | exact IH].
Qed.

Lemma child_set_child (c d : string) (n : node) (es : dir_entries) :
  child d (set_child c n es) = if String.eqb c d then Some n else child d es.
Proof.
  unfold set_child. destruct (child c es) as [v|] eqn:E.
  - rewrite child_map_child, E. reflexivity.
  - rewrite child_app. simpl. destruct (String.eqb_spec c d) as [->|].
    + rewrite E. reflexivity.
    + destruct (child d es); reflexivity.
Qed.

Lemma lookup_set_child_same (parent : list string) (c : string) (n root : node)
  (es : dir_entries) :
  lookup parent root = Some (Dir es) ->
  lookup (parent ++ [c])%list (modify_dir parent (set_child c n) root) = Some n.
Proof.
  intros H. rewrite lookup_app, (lookup_modify_same _ _ _ _ H). simpl.
  rewrite child_set_child, String.eqb_refl. reflexivity.
Qed.

Lemma lookup_set_child_apart (parent q : list string) (c : string) (n root : node) :
  apart (parent ++ [c])%list q = true ->
  lookup q (modify_dir parent (set_child c n) root) = lookup q root.
Proof.
  unfold apart. rewrite andb_true_iff, !negb_true_iff.
  revert q root. induction parent as [|a parent IH]; intros q root [H1 H2]; simpl in *.
  - destruct root as [r d|es]; [reflexivity|]. destruct q as [|b q]; [discriminate|].
    simpl in *. rewrite andb_true_r in H1. rewrite child_set_child, H1. reflexivity.
  - destruct root as [r d|es]; [reflexivity|]. destruct q as [|b q]; [discriminate|].
    simpl in *. rewrite child_map_child.
    destruct (String.eqb a b) eqn:E; [|reflexivity].
    apply String.eqb_eq in E. subst b. rewrite String.eqb_refl in H2. simpl in H2.
    destruct (child a es) as [n'|]; simpl; [apply IH; split; assumption | reflexivity].
Qed.

Lemma write_file_ok_inv (p : string) (data : bytes) (root root' : node) :
  write_file p data root = (Ok tt, root') ->
  ends_with_slash p = false
  /\ exists parent name es,
       parent_and_name p = Some (parent, name)
       /\ lookup parent root = Some (Dir es)
       /\ root' = modify_dir parent (set_child name (File true data)) root.
Proof.
  unfold write_file. destruct (ends_with_slash p); [discriminate|].
  intros H. split; [reflexivity|].
  destruct (parent_and_name p) as [[parent name]|];
    [|destruct (resolve p root) as [[r d|es]|]; discriminate].
  exists parent, name.
  destruct (resolve p root) as [[r d|es]|]; try discriminate;
    (destruct (lookup parent root) as [[r' d'|es']|]; try discriminate;
     injection H as <-; exists es'; repeat split).
Qed.

Lemma file_bytes_view (p : string) (root : node) :
  file_bytes p root
  = match view_of (lookup (components p) root) with
    | IsFile _ data => if ends_with_slash p then None else Some data
    | _ => None
    end.
Proof.
  unfold file_bytes, resolve.
  destruct (lookup (components p) root) as [[r d|es]|]; simpl; try reflexivity.
  destruct (ends_with_slash p); reflexivity.
Qed.

Lemma read_after_write (p : string) (data : bytes) (root root' : node) :
  write_file p data root = (Ok tt, root') ->
  read_file p root' = Ok data /\ file_bytes p root' = Some data.
Proof.
  intros H. apply write_file_ok_inv in H.
  destruct H as (Hs & parent & name & es & Hpn & Hl & ->).
  pose proof (lookup_set_child_same parent name (File true data) root es Hl) as E.
  rewrite <- (parent_and_name_components _ _ _ Hpn) in E.
  unfold read_file, file_bytes, resolve. rewrite E, Hs. split; reflexivity.
Qed.

Lemma write_file_apart (p : string) (data : bytes) (root root' : node)
  (r : outcome unit) (q : list string) :
  write_file p data root = (r, root') ->
  apart (components p) q = true ->
  lookup q root' = lookup q root.
Proof.
  intros H Hq. destruct r as [[]|e].
  - apply write_file_ok_inv in H.
    destruct H as (Hs & parent & name & es & Hpn & Hl & ->).
    apply lookup_set_child_apart.
    rewrite <- (parent_and_name_components _ _ _ Hpn). exact Hq.
  - assert (root' = root) as ->; [|reflexivity].
    unfold write_file in H. destruct (ends_with_slash p); [congruence|].
    destruct (resolve p root) as [[r d|es]|];
      destruct (parent_and_name p) as [[parent name]|]; try congruence;
      destruct (lookup parent root) as [[r' d'|es']|]; congruence.
Qed.

(** ** The two output paths *)

Lemma rsplit_slash_spec (p : string) :
  p = fst (rsplit_slash p) ++ snd (rsplit_slash p)
  /\ has_slash (snd (rsplit_slash p)) = false
  /\ (fst (rsplit_slash p) = "" \/ ends_with_slash (fst (rsplit_slash p)) = true).
Proof.
  induction p as [|c r IH]; simpl; [auto|].
  destruct (rsplit_slash r) as [h t]. simpl in IH. destruct IH as (Hr & Ht & Hh).
  destruct h as [|x h'].
  - simpl in Hr. subst r. destruct (Ascii.eqb c slash) eqn:E; simpl.
    + apply Ascii.eqb_eq in E. subst c. repeat split; auto.
    + rewrite E. auto.
  - simpl. split; [rewrite Hr; reflexivity|]. split; [exact Ht|]. right.
    destruct Hh as [Hh|Hh]; [discriminate|]. exact Hh.
Qed.

Lemma length_append (a b : string) :
  String.length (a ++ b) = (String.length a + String.length b)%nat.
Proof. induction a; simpl; congruence. Qed.

Lemma long_name_valid (s : string) :
  has_slash s = false -> (2 < String.length s)%nat -> valid_name s = true.
Proof.
  intros Hs Hl. unfold valid_name. rewrite Hs.
  destruct s as [|a [|b [|c s]]]; simpl in Hl; try lia.
  simpl. destruct (Ascii.eqb a "."); [|reflexivity].
  destruct (Ascii.eqb b "."); reflexivity.
Qed.

Lemma components_with_suffix (stem suffix : string) :
  has_slash suffix = false -> (2 < String.length suffix)%nat ->
  components (stem ++ suffix)
  = (components (fst (rsplit_slash stem))
     ++ [(snd (rsplit_slash stem) ++ suffix)%string])%list.
Proof.
  intros Hs Hl. destruct (rsplit_slash_spec stem) as (Hst & Ht & Hh).
  set (h := fst (rsplit_slash stem)) in *. set (t := snd (rsplit_slash stem)) in *.
  assert (Hv : valid_name (t ++ suffix) = true).
  { apply long_name_valid; [rewrite has_slash_app, Ht, Hs; reflexivity|].
    rewrite length_append. lia. }
  rewrite <- (components_join h (t ++ suffix) Hv).
  f_equal. rewrite Hst at 1. rewrite append_assoc. unfold path_join.
  destruct (valid_name_inv _ Hv) as (_ & _ & _ & Hns).
  rewrite (starts_with_slash_valid _ Hns).
  destruct Hh as [->|Hh]; [reflexivity|]. rewrite Hh.
  destruct h; [discriminate | reflexivity].
Qed.

Lemma starts_with_app_same (p a b : list string) :
  starts_with (p ++ a)%list (p ++ b)%list = starts_with a b.
Proof. induction p; simpl; [reflexivity|]. rewrite String.eqb_refl. exact IHp. Qed.

Lemma tar_path_not_above_gz_path (stem : string) :
  starts_with (components (stem ++ ".tar")) (components (stem ++ ".tar.gz")) = false.
Proof.
  rewrite !components_with_suffix by (simpl; first [reflexivity | lia]).
  rewrite starts_with_app_same. simpl. rewrite andb_true_r.
  apply String.eqb_neq. intros H. apply (f_equal String.length) in H.
  rewrite !length_append in H. simpl in H. lia.
Qed.

(** ** A successful build, step by step *)

Lemma lift_fs_inv {A : Type} (f : node -> fs_result A) (w w1 : world) (r : outcome A) :
  lift_fs f w = (r, w1) -> exists root', f (w_fs w) = (r, root') /\ w1 = set_fs root' w.
Proof.
  unfold lift_fs. destruct (f (w_fs w)) as [r' root']. intros [= <- <-].
  exists root'. split; reflexivity.
Qed.

Lemma os_remove_ok_inv (p : string) (root root' : node) :
  os_remove p root = (Ok tt, root') ->
  exists parent name,
    parent_and_name p = Some (parent, name)
    /\ root' = modify_dir parent (remove_child name) root.
Proof.
  unfold os_remove. destruct (resolve p root) as [[r d|es]|]; try discriminate.
  destruct (parent_and_name p) as [[parent name]|]; [|discriminate].
  intros [= <-]. exists parent, name. split; reflexivity.
Qed.

Section Build.
Context {codec : Codec}.

Lemma create_ok_inv (source_dir stem gz : string) (w w' : world) :
  create_tar_gz_archive source_dir stem w = (Ok gz, w') ->
  gz = stem ++ ".tar.gz"
  /\ exists root_a members,
       write_file (stem ++ ".tar") "" (w_fs w) = (Ok tt, root_a)
       /\ tar_add (stem ++ ".tar") source_dir (basename source_dir) root_a
          = (members, None)
       /\ file_bytes gz (w_fs w')
          = Some (gzip_stream gz (epoch (next_reading w)) (tar_archive members)).
Proof.
  unfold create_tar_gz_archive. intros H.
  apply bind_inv in H. destruct H as ([] & wa & Ha & H).
  apply lift_fs_inv in Ha. destruct Ha as (root_a & Ha & ->).
  apply bind_inv in H. destruct H as ([members oe] & wq & Hq & H).
  injection Hq as Hq <-. simpl in Hq.
  destruct oe as [e|].
  { apply bind_inv in H. destruct H as ([] & wx & _ & H). discriminate. }
  apply bind_inv in H. destruct H as ([] & wb & Hb & H).
  apply lift_fs_inv in Hb. destruct Hb as (root_b & Hb & ->). simpl in Hb.
  apply bind_inv in H. destruct H as (tar_file & wr & Hr & H).
  injection Hr as Hr <-. simpl in Hr.
  destruct (read_after_write _ _ _ _ Hb) as [Hread _]. rewrite Hread in Hr.
  injection Hr as <-.
  apply bind_inv in H. destruct H as ([] & wc & Hc & H).
  apply lift_fs_inv in Hc. destruct Hc as (root_c & Hc & ->). simpl in Hc.
  apply bind_inv in H. destruct H as (now & wn & Hn & H).
  assert (Hnow : now = next_reading w /\ w_fs wn = root_c).
  { unfold read_clock, next_reading in *. simpl in Hn.
    destruct (w_clock w); injection Hn as <- <-; split; reflexivity. }
  destruct Hnow as [-> Hfs]. clear Hn.
  apply bind_inv in H. destruct H as ([] & wk & Hk & H).
  destruct ((0 <=? epoch (next_reading w)) && (epoch (next_reading w) <? 2 ^ 32)).
  2:{ apply bind_inv in Hk. destruct Hk as ([] & wx & _ & Hk). discriminate. }
  injection Hk as <-.
  apply bind_inv in H. destruct H as ([] & wd & Hd & H).
  apply lift_fs_inv in Hd. destruct Hd as (root_d & Hd & ->). rewrite Hfs in Hd.
  apply bind_inv in H. destruct H as ([] & we & He & H).
  apply lift_fs_inv in He. destruct He as (root_e & He & ->). simpl in He.
  apply bind_inv in H. destruct H as ([] & wl & Hl & H).
  injection Hl as <-. injection H as <- <-.
  split; [reflexivity|]. exists root_a, members.
  split; [exact Ha|]. split; [exact Hq|]. simpl.
  apply os_remove_ok_inv in He. destruct He as (parent & name & Hpn & ->).
  destruct (read_after_write _ _ _ _ Hd) as [_ Hbytes].
  rewrite file_bytes_view in *. rewrite view_remove_child; [exact Hbytes|].
  rewrite <- (parent_and_name_components _ _ _ Hpn).
  apply tar_path_not_above_gz_path.
Qed.

End Build.

Section SameArchive.
Context {codec : Codec}.

Lemma tar_archive_with_headers (header : tar_member -> bytes) (ms : list tar_member) :
  (forall m, In m ms -> header m = tar_header m) ->
  @tar_archive (with_headers codec header) ms = tar_archive ms.
Proof.
  intros H. unfold tar_archive, tar_blocks.
  replace (map (@member_blocks (with_headers codec header)) ms)
    with (map member_blocks ms); [reflexivity|].
  apply map_ext_in. intros m Hm. unfold member_blocks. simpl.
  rewrite (H m Hm). reflexivity.
Qed.


End SameArchive.


(** ** Archive Builder *)

(** C1, at the call [main] makes: the source directory is given with a
    trailing slash, its [os.path.basename] is empty, and the members of the
    archive are named [""], ["a"], ["a/b.txt"], ["c.txt"]: no name is
    prefixed by [s3_files].  The same tree given as ["/tmp/s3_files"] yields
    the prefixed names. *)
Theorem archive_of_working_root_has_no_prefix (codec : Codec) :
  let w := world_of mirror_tree [] [sample_time] in
  let r := create_tar_gz_archive "/tmp/s3_files/" "/tmp/weekly-archive" w in
  basename "/tmp/s3_files/" = ""
  /\ fst r = Ok "/tmp/weekly-archive.tar.gz"
  /\ file_bytes "/tmp/weekly-archive.tar.gz" (w_fs (snd r))
     = Some (gzip_stream "/tmp/weekly-archive.tar.gz" 1700000000
               (tar_archive [mk_member "" true ""; mk_member "a" true "";
                             mk_member "a/b.txt" false "hi";
                             mk_member "c.txt" false "x"]))
  /\ tar_add "/tmp/weekly-archive.tar" "/tmp/s3_files" (basename "/tmp/s3_files")
       (w_fs w)
     = ([mk_member "s3_files" true ""; mk_member "s3_files/a" true "";
         mk_member "s3_files/a/b.txt" false "hi";
         mk_member "s3_files/c.txt" false "x"], None).
Proof. repeat split; reflexivity. Qed.

(** C5, on a tree with an unreadable file: [tar.add] raises
    [PermissionError], the exception leaves [create_tar_gz_archive], and the
    intermediate [.tar] file stays where it was created, holding the blocks
    written so far; [cleanup_local_resources] does not remove it either. *)
Theorem failed_build_leaves_the_tar_file (codec : Codec) :
  let w := world_of unreadable_tree [] [sample_time] in
  let r := create_tar_gz_archive "/tmp/s3_files/" "/tmp/weekly-archive" w in
  fst r = Raise (os_error PermissionError "/tmp/s3_files/a/b.txt")
  /\ file_bytes "/tmp/weekly-archive.tar" (w_fs (snd r))
     = Some (tar_blocks [mk_member "" true ""; mk_member "a" true ""])
  /\ path_exists "/tmp/weekly-archive.tar"
       (w_fs (snd (cleanup_local_resources (snd r)))) = true.
Proof. repeat split; reflexivity. Qed.

(** The same function on the readable tree removes the intermediate
    file. *)
Lemma successful_build_removes_the_tar_file (codec : Codec) :
  let w := world_of mirror_tree [] [sample_time] in
  path_exists "/tmp/weekly-archive.tar"
    (w_fs (snd (create_tar_gz_archive "/tmp/s3_files/" "/tmp/weekly-archive" w)))
  = false.
Proof. reflexivity. Qed.


(** ** Selective Mirror *)

(** C6, on a bucket with the key ["/tmp/evil.txt"] and no ignore rule:
    [os.path.join] drops the working root before a key that starts with a
    slash, the run succeeds, the object lands at [/tmp/evil.txt], and the
    working tree [/tmp/s3_files/] holds no file at all. *)
Theorem absolute_key_escapes_the_working_root :
  let w := world_of empty_tmp absolute_key_store [] in
  let r := download_files sample_bucket None w in
  matches_ignore "/tmp/evil.txt" [] = false
  /\ path_join "/tmp/s3_files/" "/tmp/evil.txt" = "/tmp/evil.txt"
  /\ fst r = Ok "/tmp/s3_files/"
  /\ file_bytes "/tmp/evil.txt" (w_fs (snd r)) = Some "hi"
  /\ lookup ["tmp"; "s3_files"] (w_fs (snd r)) = Some (Dir []).
Proof. repeat split; reflexivity. Qed.

(** * Further properties of the stages *)

(** ** The ignore rule *)

Lemma substring_app_exact (pre suf : string) :
  substring (String.length pre) (String.length suf) (pre ++ suf) = suf.
Proof.
  induction pre as [|c pre IH]; simpl; [|exact IH].
  induction suf as [|c suf IH]; simpl; [reflexivity|]. rewrite IH. reflexivity.
Qed.

Lemma substring_split (s : string) (i : nat) :
  (i <= String.length s)%nat ->
  s = substring 0 i s ++ substring i (String.length s - i) s.
Proof.
  revert i. induction s as [|c s IH]; intros i Hi; simpl in *.
  - destruct i; reflexivity.
  - destruct i as [|i]; simpl.
    + f_equal. clear. induction s as [|d s IH]; simpl; [reflexivity|]. f_equal. exact IH.
    + f_equal. apply IH. lia.
Qed.

Lemma endswith_spec (s suffix : string) :
  endswith s suffix = true <-> exists pre, s = pre ++ suffix.
Proof.
  unfold endswith. rewrite andb_true_iff, Nat.leb_le, String.eqb_eq. split.
  - intros [Hle Hsub].
    exists (substring 0 (String.length s - String.length suffix) s).
    pose proof (substring_split s (String.length s - String.length suffix)) as H.
    replace (String.length s - (String.length s - String.length suffix))%nat
      with (String.length suffix) in H by lia.
    rewrite Hsub in H. apply H. lia.
  - intros [pre ->]. rewrite length_append. split; [lia|].
    replace (String.length pre + String.length suffix - String.length suffix)%nat
      with (String.length pre) by lia.
    apply substring_app_exact.
Qed.

(** X1: the ignore rule of [download_files] is a suffix test: a key is skipped
    exactly when it ends with one of the patterns, wherever in the bucket it
    lies. *)
Theorem ignore_rule_is_suffix_match (key : string) (ignore_patterns : list string) :
  matches_ignore key ignore_patterns = true
  <-> exists pattern pre, In pattern ignore_patterns /\ key = pre ++ pattern.
Proof.
  unfold matches_ignore. rewrite existsb_exists. split.
  - intros [pattern [Hin H]]. apply endswith_spec in H. destruct H as [pre ->].
    exists pattern, pre. split; [exact Hin | reflexivity].
  - intros (pattern & pre & Hin & ->). exists pattern. split; [exact Hin|].
    apply endswith_spec. exists pre. reflexivity.
Qed.

Lemma last_char_app (a b : string) : b <> "" -> last_char (a ++ b) = last_char b.
Proof.
  intros Hb. induction a as [|c a IH]; simpl; [reflexivity|].
  destruct (a ++ b) eqn:E; [|exact IH].
  destruct a; simpl in E; [congruence | discriminate].
Qed.

(** X2: with the two patterns [main] passes, the archive key of any run is
    matched by the ignore rule, and the log key of any run is not: it ends
    with [.txt], and the pattern ["archival-logs/"] only matches a key that
    ends with that slash. *)
Theorem archive_key_ignored_log_key_not (timestamp : string) :
  let ignore_patterns := [".tar.gz"; "archival-logs" ++ "/"] in
  matches_ignore ("weekly-archive-" ++ timestamp ++ ".tar.gz") ignore_patterns = true
  /\ matches_ignore ("archival-logs" ++ "/python-log-" ++ timestamp ++ ".txt")
       ignore_patterns = false.
Proof.
  cbv zeta. split.
  - unfold matches_ignore. apply existsb_exists. exists ".tar.gz".
    split; [left; reflexivity|]. apply endswith_spec.
    exists ("weekly-archive-" ++ timestamp). rewrite append_assoc. reflexivity.
  - destruct (matches_ignore _ _) eqn:E; [exfalso | reflexivity].
    unfold matches_ignore in E. apply existsb_exists in E.
    destruct E as (pattern & Hin & E). apply endswith_spec in E. destruct E as [pre E].
    apply (f_equal last_char) in E.
    change ("archival-logs" ++ "/python-log-" ++ timestamp ++ ".txt")
      with (("archival-logs/python-log-" ++ timestamp) ++ ".txt") in E.
    rewrite last_char_app in E by discriminate.
    destruct Hin as [<-|[<-|[]]]; rewrite last_char_app in E by discriminate;
      discriminate E.
Qed.

(** ** The timestamp of a run *)

Lemma digit_char_inj (a b : Z) :
  digit_char a = digit_char b -> a mod 10 = b mod 10.
Proof.
  unfold digit_char. intros H.
  pose proof (Z.mod_pos_bound a 10 eq_refl). pose proof (Z.mod_pos_bound b 10 eq_refl).
  apply (f_equal N_of_ascii) in H.
  rewrite !N_ascii_embedding in H by lia. lia.
Qed.

Lemma two_digit_chars_inj (n m : Z) :
  0 <= n < 100 -> 0 <= m < 100 ->
  digit_char (n / 10) = digit_char (m / 10) -> digit_char n = digit_char m -> n = m.
Proof.
  intros Hn Hm H1 H2. apply digit_char_inj in H1, H2.
  pose proof (Z.div_mod n 10 ltac:(lia)). pose proof (Z.div_mod m 10 ltac:(lia)).
  pose proof (Z.mod_pos_bound n 10 eq_refl). pose proof (Z.mod_pos_bound m 10 eq_refl).
  rewrite (Z.mod_small (n / 10)) in H1 by lia.
  rewrite (Z.mod_small (m / 10)) in H1 by lia.
  lia.
Qed.

Lemma four_digits_inj (n m : Z) :
  1000 <= n <= 9999 -> 1000 <= m <= 9999 -> decimal n = decimal m -> n = m.
Proof.
  intros Hn Hm H. rewrite !decimal_four_digits in H by assumption.
  injection H as H3 H2 H1 H0.
  apply digit_char_inj in H3, H2, H1, H0.
  pose proof (Z.div_mod n 10 ltac:(lia)) as En0.
  pose proof (Z.div_mod (n / 10) 10 ltac:(lia)) as En1.
  pose proof (Z.div_mod (n / 10 / 10) 10 ltac:(lia)) as En2.
  pose proof (Z.div_mod m 10 ltac:(lia)) as Em0.
  pose proof (Z.div_mod (m / 10) 10 ltac:(lia)) as Em1.
  pose proof (Z.div_mod (m / 10 / 10) 10 ltac:(lia)) as Em2.
  pose proof (Z.mod_pos_bound n 10 eq_refl).
  pose proof (Z.mod_pos_bound (n / 10) 10 eq_refl).
  pose proof (Z.mod_pos_bound (n / 10 / 10) 10 eq_refl).
  pose proof (Z.mod_pos_bound m 10 eq_refl).
  pose proof (Z.mod_pos_bound (m / 10) 10 eq_refl).
  pose proof (Z.mod_pos_bound (m / 10 / 10) 10 eq_refl).
  rewrite (Z.mod_small (n / 10 / 10 / 10)) in H3 by lia.
  rewrite (Z.mod_small (m / 10 / 10 / 10)) in H3 by lia.
  lia.
Qed.

Lemma append_inj_length (a b c d : string) :
  String.length a = String.length c -> a ++ b = c ++ d -> a = c /\ b = d.
Proof.
  revert c. induction a as [|x a IH]; intros [|y c] Hl H; simpl in *; try discriminate.
  - auto.
  - injection H as -> H. destruct (IH c) as [-> ->]; [lia | exact H | auto].
Qed.

Lemma decimal_length_four (y : Z) : 1000 <= y <= 9999 -> String.length (decimal y) = 4%nat.
Proof. intros H. rewrite decimal_four_digits by assumption. reflexivity. Qed.

Lemma stamp_fields (t1 t2 : clock_reading) :
  calendar_time t1 -> calendar_time t2 ->
  strftime_stamp t1 = strftime_stamp t2 ->
  tm_year t1 = tm_year t2 /\ tm_mon t1 = tm_mon t2 /\ tm_mday t1 = tm_mday t2
  /\ tm_hour t1 = tm_hour t2 /\ tm_min t1 = tm_min t2 /\ tm_sec t1 = tm_sec t2.
Proof.
  intros (Y1 & M1 & D1 & h1 & m1 & s1) (Y2 & M2 & D2 & h2 & m2 & s2) H.
  unfold strftime_stamp in H.
  apply append_inj_length in H; [|rewrite !decimal_length_four by assumption; reflexivity].
  destruct H as [Hy H]. apply four_digits_inj in Hy; try assumption.
  unfold two_digits in H. cbn [append] in H.
  injection H as Ha1 Ha2 Hb1 Hb2 Hc1 Hc2 Hd1 Hd2 He1 He2.
  repeat split; try assumption; apply two_digit_chars_inj; assumption || lia.
Qed.

Lemma stamp_length (t : clock_reading) :
  1000 <= tm_year t <= 9999 -> String.length (strftime_stamp t) = 19%nat.
Proof.
  intros H. unfold strftime_stamp. rewrite length_append, decimal_length_four by exact H.
  reflexivity.
Qed.

(** X3: the archive key of a run determines the calendar second its
    timestamp was taken at: two readings with a four-digit year that give the
    same key [weekly-archive-<timestamp>.tar.gz] agree on year, month, day,
    hour, minute and second. *)
Theorem timestamps_tell_seconds_apart (t1 t2 : clock_reading) :
  calendar_time t1 -> calendar_time t2 ->
  "weekly-archive-" ++ strftime_stamp t1 ++ ".tar.gz"
  = "weekly-archive-" ++ strftime_stamp t2 ++ ".tar.gz" ->
  tm_year t1 = tm_year t2 /\ tm_mon t1 = tm_mon t2 /\ tm_mday t1 = tm_mday t2
  /\ tm_hour t1 = tm_hour t2 /\ tm_min t1 = tm_min t2 /\ tm_sec t1 = tm_sec t2.
Proof.
  intros C1 C2 H. apply (stamp_fields t1 t2 C1 C2).
  apply (append_inj_length "weekly-archive-" _ "weekly-archive-" _ eq_refl) in H.
  destruct H as [_ H]. apply append_inj_length in H; [exact (proj1 H)|].
  rewrite !stamp_length; [reflexivity | apply C2 | apply C1].
Qed.

Lemma archive_keys_of_two_readings :
  let t1 := mk_clock 1700000000 2023 11 14 22 13 20 in
  let t2 := mk_clock 1700003600 2023 11 14 22 13 20 in
  "weekly-archive-" ++ strftime_stamp t1 ++ ".tar.gz"
  = "weekly-archive-" ++ strftime_stamp t2 ++ ".tar.gz"
  /\ (tm_year t1 = tm_year t2 /\ tm_mon t1 = tm_mon t2 /\ tm_mday t1 = tm_mday t2
      /\ tm_hour t1 = tm_hour t2 /\ tm_min t1 = tm_min t2 /\ tm_sec t1 = tm_sec t2).
Proof.
  intros t1 t2. split; [reflexivity|].
  apply (timestamps_tell_seconds_apart t1 t2);
    [unfold calendar_time; simpl; lia | unfold calendar_time; simpl; lia | reflexivity].
Defined.

(** ** Savings at the two ends *)

Lemma self_quotient (p : positive) :
  (inject_Z (Z.pos p) / inject_Z (Z.pos p))%Q = Qmake (Z.pos p) p.
Proof.
  unfold Qdiv, Qmult, Qinv, inject_Z. cbn [Qnum Qden].
  rewrite Z.mul_1_r, Pos.mul_1_l. reflexivity.
Qed.

Lemma round_grid_one (o : Z) : 0 < o -> round_grid (inject_Z o / inject_Z o) = 1%Q.
Proof.
  intros Ho. destruct o as [|p|p]; try lia. rewrite self_quotient.
  unfold round_grid. cbn [Qnum Qden].
  assert (Hfl : floor_log2 (Z.abs (Z.pos p)) (Z.pos p) = 0).
  { unfold floor_log2. cbn [Z.abs]. rewrite Z.sub_diag. unfold ge_pow2.
    cbn [Z.leb Z.compare Z.pow Z.pow_pos]. rewrite Z.mul_1_r, Z.leb_refl. reflexivity. }
  rewrite Hfl.
  change (Z.max (0 - 52) (-1074)) with (-52).
  change (0 <=? -52) with false. cbv iota.
  change (Z.pos p =? 0) with false. change (Z.pos p <? 0) with false. cbv iota.
  assert (Hr : round_half_even (Z.abs (Z.pos p) * 2 ^ (- -52)) (Z.pos p) = 2 ^ 52).
  { unfold round_half_even. cbn [Z.abs]. rewrite (Z.mul_comm (Z.pos p)).
    rewrite Z.mod_mul, Z.div_mul by lia. reflexivity. }
  rewrite Hr. reflexivity.
Qed.

Lemma round_grid_zero (o : Z) : 0 < o -> round_grid (inject_Z 0 / inject_Z o) = 0%Q.
Proof.
  intros Ho. destruct o as [|p|p]; try lia. reflexivity.
Qed.

(** X4: for every positive original size the two ends are exact: nothing
    saved gives [(0, 0.0)] and everything saved gives [(original, 100.0)]. *)
Theorem savings_at_the_ends (original_size : Z) :
  0 < original_size ->
  calculate_size_savings original_size original_size = Ok (0, Finite 0)
  /\ calculate_size_savings original_size 0 = Ok (original_size, Finite (100 # 1)).
Proof.
  intros Ho.
  assert (HT : 2 <= overflow_threshold) by (vm_compute; discriminate).
  assert (2 * original_size <= overflow_threshold * original_size)
    by (apply Z.mul_le_mono_nonneg_r; lia).
  unfold calculate_size_savings, int_truediv.
  destruct (Z.eqb_spec original_size 0) as [|_]; [lia|].
  rewrite Z.sub_diag, Z.sub_0_r.
  rewrite !round64_in_range by lia.
  rewrite round_grid_one, round_grid_zero by assumption.
  split; vm_compute; reflexivity.
Qed.

Lemma savings_at_the_ends_of_1000 :
  0 < 1000
  /\ calculate_size_savings 1000 1000 = Ok (0, Finite 0)
  /\ calculate_size_savings 1000 0 = Ok (1000, Finite (100 # 1)).
Proof. split; [lia | apply (savings_at_the_ends 1000); lia]. Defined.

(** ** The percentage stays between 0 and 100 *)

Lemma round_half_even_bounds (x d M : Z) :
  0 < d -> 0 <= x -> x <= M * d -> 0 <= round_half_even x d <= M.
Proof.
  intros Hd Hx HM. unfold round_half_even.
  pose proof (Z.div_mod x d ltac:(lia)) as E.
  pose proof (Z.mod_pos_bound x d Hd) as B.
  assert (H0 : 0 <= x / d) by (apply Z.div_pos; lia).
  assert (HqM : x / d <= M) by (apply Z.div_le_upper_bound; lia).
  assert (Hlt : 0 < x mod d -> x / d < M) by nia.
  destruct (2 * (x mod d) ?= d) eqn:C.
  - apply Z.compare_eq in C. destruct (Z.even (x / d)); lia.
  - lia.
  - apply Z.compare_gt_iff in C. lia.
Qed.

Lemma floor_log2_upper (n d N : Z) :
  0 < n -> 0 < d -> 0 < N -> n <= N * d -> floor_log2 n d <= Z.log2 N + 1.
Proof.
  intros Hn Hd HN H. unfold floor_log2.
  assert (Z.log2 n <= Z.log2 N + Z.log2 d + 1).
  { etransitivity; [apply Z.log2_le_mono; exact H|].
    apply Z.log2_mul_above; lia. }
  destruct (ge_pow2 n d (Z.log2 n - Z.log2 d)); lia.
Qed.

Lemma round_grid_bounds (q : Q) (N : Z) :
  0 <= Qnum q -> 0 < N -> Z.log2 N <= 50 -> (q <= inject_Z N)%Q ->
  (0 <= round_grid q <= inject_Z N)%Q.
Proof.
  intros Hq HN Hlog Hle. destruct q as [n d]. cbn [Qnum] in Hq.
  unfold Qle in Hle. cbn [Qnum Qden inject_Z] in Hle. rewrite Z.mul_1_r in Hle.
  unfold round_grid. cbn [Qnum Qden].
  destruct (Z.eqb_spec n 0) as [->|Hn0].
  { split; unfold Qle; simpl; lia. }
  assert (Hn : 0 < n) by lia.
  rewrite (Z.abs_eq n) by lia.
  pose proof (floor_log2_upper n (Z.pos d) N Hn ltac:(lia) HN Hle) as Hfl.
  set (k := Z.max (floor_log2 n (Z.pos d) - 52) (-1074)).
  assert (Hk : k < 0) by (unfold k; lia).
  destruct (Z.leb_spec 0 k) as [|_]; [lia|].
  destruct (Z.ltb_spec n 0) as [|_]; [lia|].
  assert (Hp : 0 < 2 ^ (- k)) by (apply Z.pow_pos_nonneg; lia).
  pose proof (round_half_even_bounds (n * 2 ^ (- k)) (Z.pos d) (N * 2 ^ (- k))
                ltac:(lia) ltac:(nia) ltac:(nia)) as [Hm0 HmN].
  set (m := round_half_even (n * 2 ^ (- k)) (Z.pos d)) in *.
  split.
  - rewrite Qred_correct. unfold Qle. cbn [Qnum Qden inject_Z]. lia.
  - rewrite Qred_correct. unfold Qle. cbn [Qnum Qden inject_Z].
    rewrite Z2Pos.id by exact Hp. lia.
Qed.

Lemma round64_finite (q : Q) (N : Z) :
  0 <= Qnum q -> (q <= inject_Z N)%Q -> N < overflow_threshold ->
  round64 q = Finite (round_grid q).
Proof.
  intros H0 HN HT. unfold round64.
  destruct (Qle_bool (inject_Z overflow_threshold) (Qabs q)) eqn:E; [exfalso | reflexivity].
  apply Qle_bool_iff in E. destruct q as [n d]. cbn [Qnum] in H0.
  unfold Qle, Qabs in *. cbn [Qnum Qden inject_Z] in *.
  rewrite Z.abs_eq in E by lia. nia.
Qed.

(** X5: whenever [0 <= compressed <= original] and [0 < original], the
    function returns, the saved size is the exact difference and the
    percentage is a finite float between 0 and 100: the two roundings never
    carry it out of that range. *)
Theorem savings_percent_in_range (original_size compressed_size : Z) :
  0 < original_size -> 0 <= compressed_size <= original_size ->
  exists percent,
    calculate_size_savings original_size compressed_size
    = Ok (original_size - compressed_size, Finite percent)
    /\ (0 <= percent <= 100 # 1)%Q.
Proof.
  intros Ho Hc.
  assert (HT : 101 <= overflow_threshold) by (vm_compute; discriminate).
  unfold calculate_size_savings, int_truediv.
  destruct (Z.eqb_spec original_size 0) as [|_]; [lia|].
  set (a := original_size - compressed_size).
  assert (Ha : 0 <= a <= original_size) by (unfold a; lia).
  rewrite round64_in_range by nia.
  set (q := (inject_Z a / inject_Z original_size)%Q).
  assert (Hq : 0 <= Qnum q /\ (q <= inject_Z 1)%Q).
  { unfold q. destruct original_size as [|p|p]; try lia.
    unfold Qdiv, Qmult, Qinv, Qle, inject_Z. cbn [Qnum Qden]. split; lia. }
  destruct Hq as [Hq0 Hq1].
  destruct (round_grid_bounds q 1 Hq0 ltac:(lia) ltac:(simpl; lia) Hq1) as [Hr0 Hr1].
  set (r := round_grid q) in *.
  unfold float_mul, float_of_small_int.
  assert (Hp0 : 0 <= Qnum (r * inject_Z 100)).
  { unfold Qle in Hr0. unfold Qmult, inject_Z in *. cbn [Qnum Qden] in *. lia. }
  assert (Hp1 : (r * inject_Z 100 <= inject_Z 100)%Q).
  { unfold Qle, Qmult, inject_Z in *. cbn [Qnum Qden] in *. lia. }
  rewrite (round64_finite _ 100 Hp0 Hp1) by lia.
  eexists. split; [reflexivity|].
  apply (round_grid_bounds _ 100 Hp0); [lia | vm_compute; discriminate | exact Hp1].
Qed.

Lemma savings_percent_of_1000_250 :
  exists percent,
    calculate_size_savings 1000 250 = Ok (1000 - 250, Finite percent)
    /\ (0 <= percent <= 100 # 1)%Q.
Proof. apply (savings_percent_in_range 1000 250); lia. Defined.

(** ** Uploads and tags *)

Lemma same_key_sym (k1 k2 : string * string) : same_key k1 k2 = same_key k2 k1.
Proof. unfold same_key. rewrite (String.eqb_sym (fst k1)), (String.eqb_sym (snd k1)). reflexivity. Qed.

Lemma same_key_eq (k1 k2 : string * string) : same_key k1 k2 = true -> k1 = k2.
Proof.
  unfold same_key. rewrite andb_true_iff, !String.eqb_eq.
  destruct k1, k2. simpl. intros [-> ->]. reflexivity.
Qed.

Lemma s3_get_put_other (k k' : string * string) (o : s3_object) (s : s3_store) :
  same_key k k' = false -> s3_get k' (s3_put k o s) = s3_get k' s.
Proof.
  intros Hk. induction s as [|[k0 o0] r IH]; simpl.
  - rewrite Hk. reflexivity.
  - destruct (same_key k0 k) eqn:E; simpl.
    + apply same_key_eq in E. subst k0. rewrite Hk. reflexivity.
    + rewrite IH. reflexivity.
Qed.

Lemma read_file_bytes (p : string) (root : node) (data : bytes) :
  read_file p root = Ok data -> file_bytes p root = Some data.
Proof.
  unfold read_file, file_bytes. destruct (resolve p root) as [[[|] d|es]|]; try discriminate.
  intros [= ->]. reflexivity.
Qed.

Lemma upload_file_fs (filename bucket_name key : string) (ct : option string) (w : world) :
  w_fs (snd (upload_file filename bucket_name key ct w)) = w_fs w.
Proof.
  unfold upload_file, bind. destruct (read_file filename (w_fs w)); [|reflexivity].
  unfold sdk_call. destruct (w_faults w) as [|[e|] r]; reflexivity.
Qed.

Lemma upload_file_fails_clean (filename bucket_name key : string) (ct : option string)
  (w w' : world) (e : exn) :
  upload_file filename bucket_name key ct w = (Raise e, w') -> w_s3 w' = w_s3 w.
Proof.
  unfold upload_file, bind. destruct (read_file filename (w_fs w)); [|intros [= _ <-]; reflexivity].
  unfold sdk_call. destruct (w_faults w) as [|[e'|] r]; try discriminate.
  intros [= _ <-]. reflexivity.
Qed.

(** X6: when [upload_archive_to_s3] returns, the object under the archive
    name holds exactly the bytes the local file had when the call was made,
    typed [application/gzip] and without tags, and every other object is as
    before; when it raises, the store is as before and nothing was
    logged. *)
Theorem upload_archive_round_trip (bucket_name file_path archive_name : string)
  (w w' : world) (r : outcome unit) :
  upload_archive_to_s3 bucket_name file_path archive_name w = (r, w') ->
  match r with
  | Ok _ =>
      exists data,
        file_bytes file_path (w_fs w) = Some data
        /\ s3_get (bucket_name, archive_name) (w_s3 w')
           = Some (mk_object data (Some "application/gzip") [])
        /\ forall k, same_key (bucket_name, archive_name) k = false ->
                     s3_get k (w_s3 w') = s3_get k (w_s3 w)
  | Raise _ => w_s3 w' = w_s3 w /\ w_log w' = w_log w
  end.
Proof.
  unfold upload_archive_to_s3, logging_info. intros H.
  unfold bind in H.
  destruct (upload_file file_path bucket_name archive_name (Some "application/gzip") w)
    as [[[]|e] w1] eqn:E.
  - injection H as <- <-.
    apply upload_file_inv in E. destruct E as (data & Hread & Hs).
    exists data. simpl. rewrite Hs. split; [apply read_file_bytes; exact Hread|].
    split; [apply s3_get_put_same | intros k Hk; apply s3_get_put_other; exact Hk].
  - injection H as <- <-. split.
    + eapply upload_file_fails_clean; exact E.
    + unfold upload_file, bind in E.
      destruct (read_file file_path (w_fs w)); [|injection E as _ <-; reflexivity].
      unfold sdk_call in E. destruct (w_faults w) as [|[e'|] f]; try discriminate.
      injection E as _ <-. reflexivity.
Qed.

Lemma upload_of_the_sample_archive :
  let w := world_of sample_tree [] [] in
  let run :=
    upload_archive_to_s3 sample_bucket "/tmp/weekly-archive.tar.gz" "weekly.tar.gz" w in
  fst run = Ok tt
  /\ exists data,
       file_bytes "/tmp/weekly-archive.tar.gz" (w_fs w) = Some data
       /\ s3_get (sample_bucket, "weekly.tar.gz") (w_s3 (snd run))
          = Some (mk_object data (Some "application/gzip") [])
       /\ forall k, same_key (sample_bucket, "weekly.tar.gz") k = false ->
                    s3_get k (w_s3 (snd run)) = s3_get k (w_s3 w).
Proof.
  intros w run. split; [reflexivity|].
  exact (upload_archive_round_trip sample_bucket "/tmp/weekly-archive.tar.gz"
           "weekly.tar.gz" w (snd run) (Ok tt) eq_refl).
Defined.

(** X7: when [upload_log_to_s3] returns, the object under
    [<directory>/python-log-<timestamp>.txt] holds exactly the bytes of the
    local log file, with no content type and no tags, and every other object
    is as before. *)
Theorem upload_log_round_trip
  (bucket_name local_log_path s3_log_directory timestamp : string) (w w' : world) :
  upload_log_to_s3 bucket_name local_log_path s3_log_directory timestamp w = (Ok tt, w') ->
  exists data,
    file_bytes local_log_path (w_fs w) = Some data
    /\ s3_get (bucket_name, s3_log_directory ++ "/python-log-" ++ timestamp ++ ".txt")
         (w_s3 w')
       = Some (mk_object data None [])
    /\ forall k,
         same_key (bucket_name, s3_log_directory ++ "/python-log-" ++ timestamp ++ ".txt") k
         = false ->
         s3_get k (w_s3 w') = s3_get k (w_s3 w).
Proof.
  unfold upload_log_to_s3, logging_info. intros H.
  apply bind_inv in H. destruct H as ([] & w1 & E & Hl). injection Hl as <-.
  apply upload_file_inv in E. destruct E as (data & Hread & Hs).
  exists data. simpl. rewrite Hs. split; [apply read_file_bytes; exact Hread|].
  split; [apply s3_get_put_same | intros k Hk; apply s3_get_put_other; exact Hk].
Qed.

Lemma upload_of_the_sample_log :
  let w := world_of started_tmp [] [] in
  let run := upload_log_to_s3 sample_bucket log_filename "archival-logs" "2023" w in
  exists data,
    file_bytes log_filename (w_fs w) = Some data
    /\ s3_get (sample_bucket, "archival-logs" ++ "/python-log-" ++ "2023" ++ ".txt")
         (w_s3 (snd run))
       = Some (mk_object data None [])
    /\ forall k,
         same_key (sample_bucket, "archival-logs" ++ "/python-log-" ++ "2023" ++ ".txt") k
         = false ->
         s3_get k (w_s3 (snd run)) = s3_get k (w_s3 w).
Proof.
  intros w run.
  exact (upload_log_round_trip sample_bucket log_filename "archival-logs" "2023"
           w (snd run) eq_refl).
Defined.

(** X8: when [tag_archive] returns, the object was there before, keeps its
    bytes and its content type, carries exactly the given tags, and every
    other object is as before; when it raises, the store is as before. *)
Theorem tag_archive_keeps_the_object (bucket_name archive_name : string)
  (tags : list (string * string)) (w w' : world) (r : outcome unit) :
  tag_archive bucket_name archive_name tags w = (r, w') ->
  match r with
  | Ok _ =>
      exists o,
        s3_get (bucket_name, archive_name) (w_s3 w) = Some o
        /\ s3_get (bucket_name, archive_name) (w_s3 w')
           = Some (mk_object (obj_data o) (obj_content_type o) tags)
        /\ forall k, same_key (bucket_name, archive_name) k = false ->
                     s3_get k (w_s3 w') = s3_get k (w_s3 w)
  | Raise _ => w_s3 w' = w_s3 w
  end.
Proof.
  unfold tag_archive, logging_info, put_object_tagging, bind, sdk_call.
  destruct (w_faults w) as [|[e|] f]; simpl.
  - destruct (s3_get (bucket_name, archive_name) (w_s3 w)) as [o|] eqn:E;
      intros [= <- <-]; simpl; [|reflexivity].
    exists o. split; [reflexivity|].
    split; [apply s3_get_put_same | intros k Hk; apply s3_get_put_other; exact Hk].
  - intros [= <- <-]. reflexivity.
  - destruct (s3_get (bucket_name, archive_name) (w_s3 w)) as [o|] eqn:E;
      intros [= <- <-]; simpl; [|reflexivity].
    exists o. split; [reflexivity|].
    split; [apply s3_get_put_same | intros k Hk; apply s3_get_put_other; exact Hk].
Qed.

Lemma tagging_a_sample_object :
  let w := world_of empty_tmp sample_store [] in
  let tags := [("ArchiveStatus", "ReadyForGlacier")] in
  let run := tag_archive sample_bucket "c.txt" tags w in
  fst run = Ok tt
  /\ exists o,
       s3_get (sample_bucket, "c.txt") (w_s3 w) = Some o
       /\ s3_get (sample_bucket, "c.txt") (w_s3 (snd run))
          = Some (mk_object (obj_data o) (obj_content_type o) tags)
       /\ forall k, same_key (sample_bucket, "c.txt") k = false ->
                    s3_get k (w_s3 (snd run)) = s3_get k (w_s3 w).
Proof.
  intros w tags run. split; [reflexivity|].
  exact (tag_archive_keeps_the_object sample_bucket "c.txt" tags w (snd run) (Ok tt)
           eq_refl).
Defined.

(** X9: [tag_archive] on a key the bucket does not hold raises, whatever the
    fault schedule, and changes neither the store nor the log: no object is
    created by tagging. *)
Theorem tag_archive_without_object (bucket_name archive_name : string)
  (tags : list (string * string)) (w : world) :
  s3_get (bucket_name, archive_name) (w_s3 w) = None ->
  exists e w', tag_archive bucket_name archive_name tags w = (Raise e, w')
               /\ w_s3 w' = w_s3 w /\ w_log w' = w_log w.
Proof.
  intros H. unfold tag_archive, logging_info, put_object_tagging, bind, sdk_call.
  destruct (w_faults w) as [|[e|] f]; simpl; rewrite ?H;
    eexists; eexists; (split; [reflexivity|]); split; reflexivity.
Qed.

Lemma tagging_a_missing_object :
  let w := world_of empty_tmp sample_store [] in
  exists e w',
    tag_archive sample_bucket "missing" [("ArchiveStatus", "ReadyForGlacier")] w
    = (Raise e, w')
    /\ w_s3 w' = w_s3 w /\ w_log w' = w_log w.
Proof.
  intros w.
  exact (tag_archive_without_object sample_bucket "missing"
           [("ArchiveStatus", "ReadyForGlacier")] w eq_refl).
Defined.

(** ** Configuring the SDK *)

Lemma bind_raise_inv {A B : Type} (m : M A) (k : A -> M B) (w w' : world) (e : exn) :
  bind m k w = (Raise e, w') ->
  m w = (Raise e, w') \/ exists a w1, m w = (Ok a, w1) /\ k a w1 = (Raise e, w').
Proof.
  unfold bind. destruct (m w) as [[a|e0] w1]; intros H.
  - right. exists a, w1. split; [reflexivity | exact H].
  - left. injection H as <- <-. reflexivity.
Qed.

Lemma sdk_call_inv (w w1 : world) (r : outcome unit) :
  sdk_call w = (r, w1) ->
  w_fs w1 = w_fs w /\ w_s3 w1 = w_s3 w /\ w_log w1 = w_log w
  /\ w_faults w1 = tl (w_faults w)
  /\ match r with
     | Ok _ => True
     | Raise e => hd_error (w_faults w) = Some (Some e)
     end.
Proof.
  unfold sdk_call. destruct (w_faults w) as [|[e|] f] eqn:E; intros [= <- <-]; simpl;
    rewrite ?E; repeat split; reflexivity.
Qed.

(** X10: [configure_aws] leaves the store alone.  When it returns, the
    success line is the last record logged; when it raises, the exception is
    the one one of its two SDK calls met, raised again after an error record,
    the last one logged, whose prefix tells a credentials error from any
    other.  Records that the SDK itself sends to the same handlers may come
    before that last record. *)
Theorem configure_aws_outcomes (w w' : world) (r : outcome unit) :
  configure_aws w = (r, w') ->
  w_s3 w' = w_s3 w
  /\ exists library_records,
       match r with
       | Ok _ =>
           w_log w'
           = (w_log w ++ library_records
              ++ [(INFO, "AWS SDK configured successfully.")])%list
       | Raise e =>
           In (Some e) (firstn 2 (w_faults w))
           /\ w_log w'
              = (w_log w ++ library_records
                 ++ [(ERROR,
                      ((if is_credentials_error (exn_cls e)
                        then "Credentials issue: "
                        else "An unexpected error occurred: ")
                       ++ exn_msg e)%string)])%list
       end.
Proof.
  unfold configure_aws, try_except. intros H.
  destruct ((sdk_call;;; sdk_call;;; logging_info "AWS SDK configured successfully.") w)
    as [[u|e] w1] eqn:E.
  - injection H as <- <-.
    apply bind_inv in E. destruct E as ([] & wa & Ea & E).
    apply bind_inv in E. destruct E as ([] & wb & Eb & E).
    apply sdk_call_inv in Ea, Eb. injection E as Hw. subst w1. simpl.
    destruct Ea as (Fa & Sa & La & _). destruct Eb as (Fb & Sb & Lb & _).
    split; [congruence|]. exists []. simpl. congruence.
  - assert (Hsrc : w_s3 w1 = w_s3 w /\ w_log w1 = w_log w
                   /\ In (Some e) (firstn 2 (w_faults w))).
    { apply bind_raise_inv in E. destruct E as [E|([] & wa & Ea & E)].
      - apply sdk_call_inv in E. destruct E as (F & S & L & _ & Hh).
        repeat split; try assumption.
        destruct (w_faults w); simpl in *; [discriminate|]. left. congruence.
      - apply sdk_call_inv in Ea. destruct Ea as (Fa & Sa & La & Ta & _).
        apply bind_raise_inv in E. destruct E as [E|([] & wb & Eb & E)]; [|discriminate].
        apply sdk_call_inv in E. destruct E as (F & S & L & _ & Hh).
        repeat split; try congruence. rewrite Ta in Hh.
        destruct (w_faults w) as [|x [|y f]]; simpl in *; try discriminate.
        right. left. congruence. }
    destruct Hsrc as (S & L & Hin).
    assert (Hh : (logging_error
                    ((if is_credentials_error (exn_cls e)
                      then "Credentials issue: "
                      else "An unexpected error occurred: ") ++ exn_msg e);;; raise e) w1
                 = (r, w')).
    { rewrite <- H. destruct (exn_cls e); reflexivity. }
    injection Hh as <- <-. simpl. split; [assumption|]. exists [].
    split; [assumption|]. rewrite L. reflexivity.
Qed.

Lemma configure_without_credentials :
  let e := mk_exn NoCredentialsError "Unable to locate credentials" in
  let w := mk_world empty_tmp sample_store [] [] [None; Some e] in
  let run := configure_aws w in
  fst run = Raise e
  /\ w_s3 (snd run) = w_s3 w
  /\ exists library_records,
       In (Some e) (firstn 2 (w_faults w))
       /\ w_log (snd run)
          = (w_log w ++ library_records
             ++ [(ERROR, "Credentials issue: Unable to locate credentials")])%list.
Proof.
  intros e w run. split; [reflexivity|].
  exact (configure_aws_outcomes w (snd run) (Raise e) eq_refl).
Defined.

(** ** The guard, whatever [main] does *)

Lemma wf_kept {A : Type} (m : M A) (w w1 : world) (r : outcome A) :
  preserves fs_wf m -> wf_node (w_fs w) = true -> m w = (r, w1) ->
  wf_node (w_fs w1) = true.
Proof. intros Hp Hw E. specialize (Hp w Hw). rewrite E in Hp. exact Hp. Qed.

Section Guard.
Context {codec : Codec}.

Lemma main_ends_with_cleanup (w w' : world) :
  wf_node (w_fs w) = true ->
  main w = (Ok tt, w') ->
  exists w0, wf_node (w_fs w0) = true /\ cleanup_local_resources w0 = (Ok tt, w').
Proof.
  unfold main. intros Hwf H.
  apply bind_inv in H. destruct H as (now & w1 & H1 & H).
  apply (wf_kept _ _ _ _ (preserves_read_clock _ fs_wf_quiet) Hwf) in H1.
  apply bind_inv in H. destruct H as ([] & w2 & H2 & H).
  apply (wf_kept _ _ _ _ (preserves_configure_aws _ fs_wf_quiet) H1) in H2.
  apply bind_inv in H. destruct H as (local_dir & w3 & H3 & H).
  apply (wf_kept _ _ _ _ (preserves_download_files _ fs_wf_quiet (@wf_lift_fs) _ _) H2) in H3.
  apply bind_inv in H. destruct H as (archive_path & w4 & H4 & H).
  apply (wf_kept _ _ _ _ (preserves_create_archive _ fs_wf_quiet (@wf_lift_fs) _ _) H3) in H4.
  apply bind_inv in H. destruct H as ([] & w5 & H5 & H).
  assert (W5 : wf_node (w_fs w5) = true).
  { refine (wf_kept _ _ _ _ _ H4 H5). unfold upload_archive_to_s3, logging_info.
    apply preserves_bind;
      [apply preserves_wf_upload_file | intros _; apply (preserves_log _ fs_wf_quiet)]. }
  apply bind_inv in H. destruct H as ([] & w6 & H6 & H).
  assert (W6 : wf_node (w_fs w6) = true).
  { refine (wf_kept _ _ _ _ _ W5 H6). unfold tag_archive, logging_info.
    apply preserves_bind;
      [apply preserves_wf_tagging | intros _; apply (preserves_log _ fs_wf_quiet)]. }
  apply bind_inv in H. destruct H as ([] & w7 & H7 & H).
  assert (W7 : wf_node (w_fs w7) = true).
  { refine (wf_kept _ _ _ _ _ W6 H7). unfold upload_log_to_s3, logging_info.
    apply preserves_bind;
      [apply preserves_wf_upload_file | intros _; apply (preserves_log _ fs_wf_quiet)]. }
  exists w7. split; assumption.
Qed.

Lemma cleanup_after (w : world) :
  wf_node (w_fs w) = true ->
  forall path, In path temp_paths ->
               path_exists path (w_fs (snd (cleanup_local_resources w))) = false.
Proof.
  intros Hwf. destruct (cleanup_spec w Hwf) as (r & Er & _ & Hx & _).
  rewrite Er. exact Hx.
Qed.

Lemma main_guard_cases (w : world) :
  wf_node (w_fs w) = true ->
  exists w0, wf_node (w_fs w0) = true
             /\ main_guard w = (0, snd (cleanup_local_resources w0)).
Proof.
  intros Hwf. unfold main_guard. destruct (main w) as [[[]|e] w1] eqn:E.
  - destruct (main_ends_with_cleanup _ _ Hwf E) as (w0 & Hwf0 & Hc).
    exists w0. split; [exact Hwf0|]. rewrite Hc. reflexivity.
  - pose proof (preserves_wf_main w Hwf) as Hwf1. rewrite E in Hwf1.
    unfold fs_wf in Hwf1. simpl in Hwf1.
    unfold bind, logging_error, log.
    match goal with |- context [cleanup_local_resources ?wl] =>
      exists wl; split; [exact Hwf1|];
      destruct (cleanup_spec wl Hwf1) as (r & Er & _)
    end.
    rewrite Er. reflexivity.
Qed.



End Guard.



(** ** What a build leaves behind *)

Lemma lookup_remove_child_apart (parent q : list string) (c : string) (root : node) :
  apart (parent ++ [c])%list q = true ->
  lookup q (modify_dir parent (remove_child c) root) = lookup q root.
Proof.
  unfold apart. rewrite andb_true_iff, !negb_true_iff.
  revert q root. induction parent as [|a parent IH]; intros q root [H1 H2]; simpl in *.
  - destruct root as [r d|es]; [reflexivity|]. destruct q as [|b q]; [discriminate|].
    simpl in *. rewrite andb_true_r in H1. rewrite child_remove_child, H1. reflexivity.
  - destruct root as [r d|es]; [reflexivity|]. destruct q as [|b q]; [discriminate|].
    simpl in *. rewrite child_map_child.
    destruct (String.eqb a b) eqn:E; [|reflexivity].
    apply String.eqb_eq in E. subst b. rewrite String.eqb_refl in H2. simpl in H2.
    destruct (child a es) as [n'|]; simpl; [apply IH; split; assumption | reflexivity].
Qed.

Lemma write_file_raise_same (p : string) (data : bytes) (root root' : node) (e : exn) :
  write_file p data root = (Raise e, root') -> root' = root.
Proof.
  unfold write_file. destruct (ends_with_slash p); [congruence|].
  destruct (resolve p root) as [[r d|es]|];
    destruct (parent_and_name p) as [[parent name]|]; try congruence;
    destruct (lookup parent root) as [[r' d'|es']|]; congruence.
Qed.

Lemma isfile_bytes (p : string) (root : node) (data : bytes) :
  file_bytes p root = Some data -> isfile p root = true.
Proof.
  unfold file_bytes, isfile. destruct (resolve p root) as [[r d|es]|]; congruence.
Qed.

Lemma isfile_same_lookup (p : string) (root root' : node) :
  lookup (components p) root' = lookup (components p) root ->
  isfile p root' = isfile p root.
Proof. intros H. rewrite !isfile_view, H. reflexivity. Qed.

Lemma output_paths_apart (stem : string) :
  apart (components (stem ++ ".tar.gz")) (components (stem ++ ".tar")) = true.
Proof.
  unfold apart. rewrite tar_path_not_above_gz_path, andb_true_r.
  rewrite !components_with_suffix by (simpl; first [reflexivity | lia]).
  rewrite starts_with_app_same. simpl. rewrite andb_true_r.
  apply negb_true_iff, String.eqb_neq. intros H. apply (f_equal String.length) in H.
  rewrite !length_append in H. simpl in H. lia.
Qed.

Lemma apart_sym (p q : list string) : apart p q = apart q p.
Proof. unfold apart. apply andb_comm. Qed.

Lemma set_fs_fields (root : node) (w : world) :
  w_s3 (set_fs root w) = w_s3 w /\ w_log (set_fs root w) = w_log w
  /\ w_clock (set_fs root w) = w_clock w /\ w_fs (set_fs root w) = root.
Proof. repeat split. Qed.

Section BuildOutcome.
Context {codec : Codec}.

Lemma create_ok_steps (source_dir stem gz : string) (w w' : world) :
  create_tar_gz_archive source_dir stem w = (Ok gz, w') ->
  exists root_a root_b root_c root_d members tar_file,
    write_file (stem ++ ".tar") "" (w_fs w) = (Ok tt, root_a)
    /\ write_file (stem ++ ".tar") (tar_archive members) root_a = (Ok tt, root_b)
    /\ write_file (stem ++ ".tar.gz") "" root_b = (Ok tt, root_c)
    /\ (0 <=? epoch (next_reading w)) && (epoch (next_reading w) <? 2 ^ 32) = true
    /\ write_file (stem ++ ".tar.gz")
         (gzip_stream (stem ++ ".tar.gz") (epoch (next_reading w)) tar_file) root_c
       = (Ok tt, root_d)
    /\ os_remove (stem ++ ".tar") root_d = (Ok tt, w_fs w')
    /\ w_s3 w' = w_s3 w
    /\ w_log w' = (w_log w ++ [(INFO, ("Created archive " ++ gz)%string)])%list.
Proof.
  unfold create_tar_gz_archive. intros H.
  apply bind_inv in H. destruct H as ([] & wa & Ha & H).
  apply lift_fs_inv in Ha. destruct Ha as (root_a & Ha & ->).
  apply bind_inv in H. destruct H as ([members oe] & wq & Hq & H).
  injection Hq as Hq <-. simpl in Hq.
  destruct oe as [e|].
  { apply bind_inv in H. destruct H as ([] & wx & _ & H). discriminate. }
  apply bind_inv in H. destruct H as ([] & wb & Hb & H).
  apply lift_fs_inv in Hb. destruct Hb as (root_b & Hb & ->). simpl in Hb.
  apply bind_inv in H. destruct H as (tar_file & wr & Hr & H).
  injection Hr as Hr <-. simpl in Hr.
  apply bind_inv in H. destruct H as ([] & wc & Hc & H).
  apply lift_fs_inv in Hc. destruct Hc as (root_c & Hc & ->). simpl in Hc.
  apply bind_inv in H. destruct H as (now & wn & Hn & H).
  assert (Hnow : now = next_reading w /\ w_fs wn = root_c /\ w_s3 wn = w_s3 w
                 /\ w_log wn = w_log w).
  { unfold read_clock, next_reading in *. simpl in Hn.
    destruct (w_clock w); injection Hn as <- <-; repeat split; reflexivity. }
  destruct Hnow as (-> & Hfs & Hs3 & Hlog). clear Hn.
  apply bind_inv in H. destruct H as ([] & wk & Hk & H).
  destruct ((0 <=? epoch (next_reading w)) && (epoch (next_reading w) <? 2 ^ 32))
    eqn:Hrange.
  2:{ apply bind_inv in Hk. destruct Hk as ([] & wx & _ & Hk). discriminate. }
  injection Hk as <-.
  apply bind_inv in H. destruct H as ([] & wd & Hd & H).
  apply lift_fs_inv in Hd. destruct Hd as (root_d & Hd & ->). rewrite Hfs in Hd.
  apply bind_inv in H. destruct H as ([] & we & He & H).
  apply lift_fs_inv in He. destruct He as (root_e & He & ->). simpl in He.
  apply bind_inv in H. destruct H as ([] & wl & Hl & H).
  injection Hl as <-. injection H as <- <-. simpl.
  exists root_a, root_b, root_c, root_d, members, tar_file.
  repeat (split; [first [assumption | reflexivity]|]).
  rewrite Hlog. reflexivity.
Qed.

Lemma os_remove_gone (p : string) (root root' : node) :
  os_remove p root = (Ok tt, root') -> path_exists p root' = false.
Proof.
  intros H. apply os_remove_ok_inv in H. destruct H as (parent & name & Hpn & ->).
  rewrite path_exists_view, (parent_and_name_components _ _ _ Hpn).
  replace (parent ++ [name])%list with (parent ++ name :: [])%list by reflexivity.
  rewrite lookup_removed. reflexivity.
Qed.

Lemma os_remove_apart (p : string) (root root' : node) (q : list string) :
  os_remove p root = (Ok tt, root') -> apart (components p) q = true ->
  lookup q root' = lookup q root.
Proof.
  intros H Hq. apply os_remove_ok_inv in H. destruct H as (parent & name & Hpn & ->).
  apply lookup_remove_child_apart.
  rewrite <- (parent_and_name_components _ _ _ Hpn). exact Hq.
Qed.


(** X14: when [create_tar_gz_archive] raises, at whatever step, the store is
    as before, and either the file system is as before (the [.tar] file could
    not be created) or the intermediate [.tar] file is still there: no
    failure path removes it. *)
Theorem failed_build_keeps_the_tar_file (source_dir stem : string) (w w' : world)
  (e : exn) :
  create_tar_gz_archive source_dir stem w = (Raise e, w') ->
  w_s3 w' = w_s3 w
  /\ (w_fs w' = w_fs w \/ isfile (stem ++ ".tar") (w_fs w') = true).
Proof.
  intros H. split.
  { refine (store_kept _ _ _ _ _ H).
    apply (preserves_create_archive _ (store_is_quiet _) (store_quiet_lift _)). }
  unfold create_tar_gz_archive in H.
  apply bind_raise_inv in H. destruct H as [H|([] & wa & Ha & H)].
  { apply lift_fs_inv in H. destruct H as (root' & H & ->).
    apply write_file_raise_same in H. subst root'. left. reflexivity. }
  right.
  apply lift_fs_inv in Ha. destruct Ha as (root_a & Ha & ->).
  assert (Fa : isfile (stem ++ ".tar") root_a = true).
  { apply (isfile_bytes _ _ ""). apply (read_after_write _ _ _ _ Ha). }
  clear Ha.
  apply bind_raise_inv in H. destruct H as [H|([members oe] & wq & Hq & H)]; [discriminate|].
  injection Hq as _ <-.
  assert (Hb : forall data wb r,
             lift_fs (write_file (stem ++ ".tar") data) (set_fs root_a w) = (r, wb) ->
             isfile (stem ++ ".tar") (w_fs wb) = true).
  { intros data wb r Hb. apply lift_fs_inv in Hb. destruct Hb as (root_b & Hb & ->).
    simpl in Hb. simpl. destruct r as [[]|e'].
    - apply (isfile_bytes _ _ data). apply (read_after_write _ _ _ _ Hb).
    - apply write_file_raise_same in Hb. subst root_b. exact Fa. }
  destruct oe as [e'|].
  { apply bind_raise_inv in H. destruct H as [H|([] & wb & Hw & H)].
    - exact (Hb _ _ _ H).
    - injection H as _ <-. exact (Hb _ _ _ Hw). }
  apply bind_raise_inv in H. destruct H as [H|([] & wb & Hw & H)]; [exact (Hb _ _ _ H)|].
  apply Hb in Hw. clear Hb Fa.
  apply bind_raise_inv in H. destruct H as [H|(tar_file & wr & Hr & H)].
  { injection H as _ <-. exact Hw. }
  injection Hr as _ <-.
  assert (Hg : forall data w0 wc r,
             isfile (stem ++ ".tar") (w_fs w0) = true ->
             lift_fs (write_file (stem ++ ".tar.gz") data) w0 = (r, wc) ->
             isfile (stem ++ ".tar") (w_fs wc) = true).
  { intros data w0 wc r F0 Hc. apply lift_fs_inv in Hc. destruct Hc as (root_c & Hc & ->).
    simpl. rewrite (isfile_same_lookup _ (w_fs w0) root_c); [exact F0|].
    exact (write_file_apart _ _ _ _ _ _ Hc (output_paths_apart stem)). }
  apply bind_raise_inv in H. destruct H as [H|([] & wc & Hc & H)]; [exact (Hg _ _ _ _ Hw H)|].
  apply (Hg _ _ _ _ Hw) in Hc. clear Hw.
  apply bind_raise_inv in H. destruct H as [H|(now & wn & Hn & H)].
  { unfold read_clock in H. destruct (w_clock wc); discriminate. }
  assert (Fn : isfile (stem ++ ".tar") (w_fs wn) = true).
  { unfold read_clock in Hn. destruct (w_clock wc); injection Hn as _ <-; exact Hc. }
  clear Hn Hc.
  apply bind_raise_inv in H. destruct H as [H|([] & wk & Hk & H)].
  { destruct ((0 <=? epoch now) && (epoch now <? 2 ^ 32)); [discriminate|].
    apply bind_raise_inv in H. destruct H as [H|([] & wm & Hm & H)].
    - exact (Hg _ _ _ _ Fn H).
    - injection H as _ <-. exact (Hg _ _ _ _ Fn Hm). }
  assert (Fk : isfile (stem ++ ".tar") (w_fs wk) = true).
  { destruct ((0 <=? epoch now) && (epoch now <? 2 ^ 32)).
    - injection Hk as <-. exact Fn.
    - apply bind_inv in Hk. destruct Hk as ([] & wx & _ & Hk). discriminate. }
  clear Hk Fn.
  apply bind_raise_inv in H. destruct H as [H|([] & wd & Hd & H)]; [exact (Hg _ _ _ _ Fk H)|].
  apply (Hg _ _ _ _ Fk) in Hd. clear Fk.
  apply bind_raise_inv in H. destruct H as [H|([] & we & He & H)].
  { apply lift_fs_inv in H. destruct H as (root_e & H & ->). simpl.
    unfold os_remove in H. unfold isfile in Hd.
    destruct (resolve (stem ++ ".tar") (w_fs wd)) as [[r d|es]|]; try discriminate.
    destruct (parent_and_name (stem ++ ".tar")) as [[parent name]|] eqn:Hpn; [discriminate|].
    exfalso. unfold parent_and_name in Hpn.
    rewrite components_with_suffix in Hpn by (simpl; first [reflexivity | lia]).
    rewrite rev_app_distr in Hpn. discriminate. }
  apply bind_raise_inv in H. destruct H as [H|([] & wl & Hl & H)]; discriminate.
Qed.

End BuildOutcome.


Lemma failed_build_of_the_unreadable_mirror :
  let w := world_of unreadable_tree sample_store [sample_time] in
  let run := @create_tar_gz_archive stored_codec "/tmp/s3_files/" "/tmp/weekly-archive" w in
  fst run = Raise (os_error PermissionError "/tmp/s3_files/a/b.txt")
  /\ w_s3 (snd run) = w_s3 w
  /\ (w_fs (snd run) = w_fs w \/ isfile "/tmp/weekly-archive.tar" (w_fs (snd run)) = true).
Proof.
  intros w run. split; [vm_compute; reflexivity|].
  exact (@failed_build_keeps_the_tar_file stored_codec "/tmp/s3_files/"
           "/tmp/weekly-archive" w (snd run)
           (os_error PermissionError "/tmp/s3_files/a/b.txt")
           ltac:(vm_compute; reflexivity)).
Defined.

(** ** Views of the file system under [os.mkdir] and writes *)

Lemma view_set_child (parent q : list string) (name : string) (n root : node)
  (es : dir_entries) :
  lookup parent root = Some (Dir es) ->
  (forall c rest, lookup (c :: rest) n = None) ->
  (forall c rest, lookup (parent ++ name :: c :: rest)%list root = None) ->
  q <> (parent ++ [name])%list ->
  view_of (lookup q (modify_dir parent (set_child name n) root)) = view_of (lookup q root).
Proof.
  intros Hl Hleaf Hold Hq.
  destruct (starts_with parent q) eqn:E; [|apply view_modify_dir; exact E].
  apply starts_with_inv in E. destruct E as [rest ->].
  rewrite !lookup_app, (lookup_modify_same _ _ _ _ Hl), Hl.
  destruct rest as [|c rest]; [reflexivity|]. simpl. rewrite child_set_child.
  destruct (String.eqb name c) eqn:E; [|reflexivity].
  apply String.eqb_eq in E. subst c.
  destruct rest as [|c' rest]; [contradiction Hq; reflexivity|].
  rewrite Hleaf. specialize (Hold c' rest). rewrite lookup_app, Hl in Hold.
  simpl in Hold. simpl. rewrite Hold. reflexivity.
Qed.

Lemma nothing_below (p : list string) (root : node) :
  view_of (lookup p root) <> IsDir ->
  forall c rest, lookup (p ++ c :: rest)%list root = None.
Proof.
  intros H c rest. rewrite lookup_app.
  destruct (lookup p root) as [[r d|es]|]; try reflexivity. contradiction H. reflexivity.
Qed.

Lemma nothing_below_entry (parent : list string) (name : string) (root : node) :
  view_of (lookup (parent ++ [name])%list root) <> IsDir ->
  forall c rest, lookup (parent ++ name :: c :: rest)%list root = None.
Proof.
  intros H c rest.
  replace (parent ++ name :: c :: rest)%list with ((parent ++ [name]) ++ c :: rest)%list
    by (rewrite <- app_assoc; reflexivity).
  apply nothing_below. exact H.
Qed.

Lemma write_file_ok_old (p : string) (data : bytes) (root root' : node) :
  write_file p data root = (Ok tt, root') -> view_of (lookup (components p) root) <> IsDir.
Proof.
  unfold write_file, resolve. destruct (ends_with_slash p); [discriminate|].
  destruct (lookup (components p) root) as [[r d|es]|]; simpl; try discriminate.
Qed.

Lemma write_file_view (p : string) (data : bytes) (root root' : node) (r : outcome unit) :
  write_file p data root = (r, root') ->
  (forall q, q <> components p -> view_at q root' = view_at q root)
  /\ (r = Ok tt -> view_at (components p) root' = IsFile true data).
Proof.
  intros H. destruct r as [[]|e].
  - pose proof (write_file_ok_old _ _ _ _ H) as Hold.
    apply write_file_ok_inv in H.
    destruct H as (Hs & parent & name & es & Hpn & Hl & ->).
    pose proof (parent_and_name_components _ _ _ Hpn) as Hc. rewrite Hc in *.
    split.
    + intros q Hq. unfold view_at. apply (view_set_child _ _ _ _ _ es Hl).
      * intros c rest. reflexivity.
      * apply nothing_below_entry. exact Hold.
      * exact Hq.
    + intros _. unfold view_at. rewrite (lookup_set_child_same _ _ _ _ es Hl). reflexivity.
  - apply write_file_raise_same in H. subst root'. split; [reflexivity | discriminate].
Qed.

Lemma os_mkdir_view (p : string) (root root' : node) (r : outcome unit) :
  os_mkdir p root = (r, root') ->
  (forall q, view_at q root <> Absent -> view_at q root' = view_at q root)
  /\ (r = Ok tt -> view_at (components p) root' = IsDir).
Proof.
  unfold os_mkdir. intros H.
  destruct (lookup (components p) root) as [n|] eqn:Hres.
  { injection H as <- <-. split; [reflexivity | discriminate]. }
  destruct (parent_and_name p) as [[parent name]|] eqn:Hpn.
  2:{ injection H as <- <-. split; [reflexivity | discriminate]. }
  destruct (lookup parent root) as [[r' d'|es]|] eqn:Hl;
    try (injection H as <- <-; split; [reflexivity | discriminate]).
  injection H as <- <-.
  pose proof (parent_and_name_components _ _ _ Hpn) as Hc.
  split.
  - intros q Hq. unfold view_at in *. apply (view_set_child _ _ _ _ _ es Hl).
    + intros c rest. reflexivity.
    + apply nothing_below_entry. rewrite <- Hc, Hres. discriminate.
    + intros E. apply Hq. rewrite E, <- Hc, Hres. reflexivity.
  - intros _. unfold view_at. rewrite Hc, (lookup_set_child_same _ _ _ _ es Hl). reflexivity.
Qed.

(** ** What a mirror run keeps *)

Section Kept.
Variable over : list string -> Prop.

Lemma kept_refl (root : node) : kept over root root.
Proof. intros q. split; [auto|]. intros r d H. left. exact H. Qed.

Lemma kept_trans (r1 r2 r3 : node) :
  kept over r1 r2 -> kept over r2 r3 -> kept over r1 r3.
Proof.
  intros H12 H23 q. destruct (H12 q) as [D12 F12]. destruct (H23 q) as [D23 F23].
  split; [auto|]. intros r d H.
  destruct (F12 r d H) as [E|[Ho [d' E]]].
  - exact (F23 r d E).
  - destruct (F23 true d' E) as [E'|[_ E']].
    + right. split; [exact Ho|]. exists d'. exact E'.
    + right. split; [exact Ho | exact E'].
Qed.

Lemma kept_write_file (p : string) (data : bytes) (root : node) :
  over (components p) -> kept over root (snd (write_file p data root)).
Proof.
  intros Ho q. destruct (write_file p data root) as [r root'] eqn:H. simpl.
  destruct (write_file_view _ _ _ _ _ H) as [Hv Hat].
  destruct (list_eq_dec string_dec q (components p)) as [->|Hne].
  2:{ rewrite (Hv q Hne). split; [auto|]. intros r0 d E. left. exact E. }
  destruct r as [[]|e].
  - pose proof (write_file_ok_old _ _ _ _ H) as Hold. split.
    + intros E. contradiction Hold.
    + intros r0 d _. right. split; [exact Ho|]. exists data. apply Hat. reflexivity.
  - apply write_file_raise_same in H. subst root'. split; [auto|].
    intros r0 d E. left. exact E.
Qed.

Lemma kept_unchanged_views (root root' : node) :
  (forall q, view_at q root <> Absent -> view_at q root' = view_at q root) ->
  kept over root root'.
Proof.
  intros H q. split.
  - intros E. rewrite H; [exact E | rewrite E; discriminate].
  - intros r d E. left. rewrite H; [exact E | rewrite E; discriminate].
Qed.

Lemma kept_os_mkdir (p : string) (root : node) : kept over root (snd (os_mkdir p root)).
Proof.
  destruct (os_mkdir p root) as [r root'] eqn:H. simpl.
  apply kept_unchanged_views. apply (os_mkdir_view _ _ _ _ H).
Qed.

End Kept.

Lemma makedirs_rel (R : node -> node -> Prop) :
  (forall root, R root root) ->
  (forall r1 r2 r3, R r1 r2 -> R r2 r3 -> R r1 r3) ->
  (forall p root, R root (snd (os_mkdir p root))) ->
  forall (fuel : nat) (name : string) (root : node),
    R root (snd (makedirs fuel name root)).
Proof.
  intros Rrefl Rtrans Rmk. induction fuel as [|fuel IH]; intros name root;
    [apply Rrefl|].
  cbn [makedirs]. unfold path_split.
  destruct (match basename name with
            | "" => (dirname (dirname name), basename (dirname name))
            | _ => (dirname name, basename name)
            end) as [head tail].
  assert (Hmk : forall root1, R root root1 ->
            R root (snd (match os_mkdir name root1 with
                         | (Ok _, root2) => (Ok tt, root2)
                         | (Raise e, root2) =>
                             if is_oserror (exn_cls e) && isdir name root2
                             then (Ok tt, root2) else (Raise e, root2)
                         end))).
  { intros root1 H1. apply (Rtrans _ root1); [exact H1|].
    pose proof (Rmk name root1) as Hm.
    destruct (os_mkdir name root1) as [[u|e] root2]; simpl in *; [exact Hm|].
    destruct (is_oserror (exn_cls e) && isdir name root2); exact Hm. }
  destruct (negb (String.eqb head "") && negb (String.eqb tail "")
            && negb (path_exists head root)).
  - pose proof (IH head root) as IHh.
    destruct (makedirs fuel head root) as [[u|e] root1]; simpl in IHh.
    + destruct (String.eqb tail "."); [exact IHh | apply Hmk; exact IHh].
    + destruct (exn_cls e); try exact IHh.
      destruct (String.eqb tail "."); [exact IHh | apply Hmk; exact IHh].
  - apply Hmk. apply Rrefl.
Qed.

Lemma kept_makedirs (over : list string -> Prop) (fuel : nat) (name : string)
  (root : node) :
  kept over root (snd (makedirs fuel name root)).
Proof.
  apply makedirs_rel; [apply kept_refl | apply kept_trans | apply kept_os_mkdir].
Qed.

Lemma download_files_loop (bucket_name : string) (pats : option (list string)) :
  download_files bucket_name pats
  = (lift_fs (makedirs (S (String.length "/tmp/s3_files/")) "/tmp/s3_files/") ;;;
     keys <- list_objects bucket_name ;;
     for_each keys
       (mirror_object bucket_name (match pats with None => [] | Some l => l end)) ;;;
     ret "/tmp/s3_files/").
Proof. reflexivity. Qed.

Lemma preserves_for_each_in {A : Type} (I : world -> Prop) (xs : list A)
  (body : A -> M unit) :
  (forall x, In x xs -> preserves I (body x)) -> preserves I (for_each xs body).
Proof.
  induction xs as [|x r IH]; intros Hb; simpl.
  - apply preserves_ret.
  - apply preserves_bind; [apply Hb; left; reflexivity|].
    intros _. apply IH. intros y Hy. apply Hb. right. exact Hy.
Qed.

Section MirrorKeeps.
Variable bucket_name : string.
Variable pats : option (list string).
Variable s : s3_store.
Variable root0 : node.
Variable over : list string -> Prop.

Lemma mirror_inv_quiet (w w' : world) :
  w_fs w' = w_fs w -> w_s3 w' = w_s3 w ->
  mirror_invariant s root0 over w -> mirror_invariant s root0 over w'.
Proof. unfold mirror_invariant. intros -> ->. auto. Qed.

Lemma mirror_inv_lift {A : Type} (f : node -> fs_result A) :
  (forall root, kept over root (snd (f root))) ->
  preserves (mirror_invariant s root0 over) (lift_fs f).
Proof.
  intros Hf w [Hs Hk]. unfold lift_fs. specialize (Hf (w_fs w)).
  destruct (f (w_fs w)) as [r root']. simpl in *. split; [exact Hs|].
  eapply kept_trans; [exact Hk | exact Hf].
Qed.

Lemma preserves_mirror_object (key : string) :
  (ignored pats key = false -> over (components (mirror_path key))) ->
  preserves (mirror_invariant s root0 over)
    (mirror_object bucket_name (match pats with None => [] | Some l => l end) key).
Proof.
  intros Ho. unfold mirror_object, logging_info. unfold ignored in Ho.
  destruct (matches_ignore key _); [apply (preserves_log _ mirror_inv_quiet)|].
  apply preserves_bind.
  { apply mirror_inv_lift. intros root. apply kept_makedirs. }
  intros _. apply preserves_bind; [|intros _; apply (preserves_log _ mirror_inv_quiet)].
  unfold download_file. apply preserves_bind.
  { apply (preserves_sdk_call _ mirror_inv_quiet). }
  intros _. apply preserves_bind.
  { intros w H. destruct (s3_get (bucket_name, key) (w_s3 w)); exact H. }
  intros o. apply mirror_inv_lift. intros root. apply kept_write_file.
  apply Ho. reflexivity.
Qed.

Hypothesis over_targets :
  forall key, In key (bucket_keys bucket_name s) -> ignored pats key = false ->
              over (components (mirror_path key)).

Lemma preserves_mirror :
  preserves (mirror_invariant s root0 over) (download_files bucket_name pats).
Proof.
  rewrite download_files_loop. apply preserves_bind.
  { apply mirror_inv_lift. intros root. apply kept_makedirs. }
  intros _. unfold list_objects. intros w H.
  unfold bind at 1 2.
  pose proof (preserves_sdk_call _ mirror_inv_quiet w H) as H1.
  destruct (sdk_call w) as [[[]|e] w1]; simpl in H1; [|exact H1].
  destruct H1 as [Hs Hk]. rewrite Hs.
  apply preserves_bind; [|intros _; apply preserves_ret|split; assumption].
  apply preserves_for_each_in. intros key Hin.
  apply preserves_mirror_object. apply over_targets. exact Hin.
Qed.

End MirrorKeeps.

(** X15: whatever its outcome, [download_files] leaves the store as it is,
    and every path that exists before, other than the log file, to which the
    log handler appends, and the target paths of the keys it mirrors, shows
    the same afterwards: no directory is removed and no other file is removed
    or rewritten. *)
Theorem download_keeps_what_is_there (bucket_name : string)
  (ignore_patterns : option (list string)) (w : world) (q : list string) :
  view_of (lookup q (w_fs w)) <> Absent ->
  q <> components log_filename ->
  (forall key, In key (bucket_keys bucket_name (w_s3 w)) ->
               ignored ignore_patterns key = false ->
               components (mirror_path key) <> q) ->
  view_of (lookup q (w_fs (snd (download_files bucket_name ignore_patterns w))))
  = view_of (lookup q (w_fs w))
  /\ w_s3 (snd (download_files bucket_name ignore_patterns w)) = w_s3 w.
Proof.
  intros Hthere _ Htargets.
  pose proof (preserves_mirror bucket_name ignore_patterns (w_s3 w) (w_fs w)
                (fun q' => q' <> q)) as H.
  destruct (H ltac:(intros key Hin Hig; apply Htargets; assumption)
              w (conj eq_refl (kept_refl _ _))) as [Hs Hk].
  split; [|exact Hs]. destruct (Hk q) as [Hd Hf]. unfold view_at in *.
  destruct (view_of (lookup q (w_fs w))) as [| |r d] eqn:E.
  - contradiction Hthere. reflexivity.
  - apply Hd. reflexivity.
  - destruct (Hf r d eq_refl) as [E'|[Ho _]]; [exact E' | contradiction].
Qed.

Lemma download_beside_other_txt :
  let w := world_of sample_tree sample_store [] in
  let run := download_files sample_bucket (Some [".tar.gz"]) w in
  view_of (lookup ["tmp"; "other.txt"] (w_fs (snd run))) = IsFile true "keep"
  /\ view_of (lookup ["tmp"; "s3_files"] (w_fs (snd run))) = IsDir
  /\ w_s3 (snd run) = w_s3 w.
Proof.
  intros w run.
  destruct (download_keeps_what_is_there sample_bucket (Some [".tar.gz"]) w
              ["tmp"; "other.txt"]) as [H1 H2].
  - discriminate.
  - discriminate.
  - intros key [<-|[<-|[]]] _; discriminate.
  - split; [exact H1|]. split; [|exact H2].
    apply (download_keeps_what_is_there sample_bucket (Some [".tar.gz"]) w
             ["tmp"; "s3_files"]).
    + discriminate.
    + discriminate.
    + intros key [<-|[<-|[]]] _; discriminate.
Defined.

(** ** What a mirror run that returns has done *)

Lemma mirror_object_ok (bucket_name : string) (pats : option (list string)) (key : string)
  (w w1 : world) :
  mirror_object bucket_name (match pats with None => [] | Some l => l end) key w
  = (Ok tt, w1) ->
  w_s3 w1 = w_s3 w
  /\ w_log w1 = (w_log w ++ [mirror_record pats key])%list
  /\ (ignored pats key = false ->
      ends_with_slash (mirror_path key) = false
      /\ exists o, s3_get (bucket_name, key) (w_s3 w) = Some o
                   /\ view_at (components (mirror_path key)) (w_fs w1)
                      = IsFile true (obj_data o)).
Proof.
  unfold mirror_object, mirror_record, ignored, logging_info.
  destruct (matches_ignore key _).
  { intros [= <-]. simpl. split; [reflexivity|]. split; [reflexivity|]. discriminate. }
  intros H.
  apply bind_inv in H. destruct H as ([] & wa & Ha & H).
  apply lift_fs_inv in Ha. destruct Ha as (root_a & _ & ->).
  apply bind_inv in H. destruct H as ([] & wb & Hb & H). injection H as <-.
  unfold download_file in Hb.
  apply bind_inv in Hb. destruct Hb as ([] & wc & Hc & Hb).
  apply sdk_call_inv in Hc. destruct Hc as (Fc & Sc & Lc & _).
  apply bind_inv in Hb. destruct Hb as (o & wd & Hd & Hb).
  destruct (s3_get (bucket_name, key) (w_s3 wc)) as [o'|] eqn:Hget; [|discriminate].
  injection Hd as -> <-.
  apply lift_fs_inv in Hb. destruct Hb as (root_b & Hb & ->). simpl.
  split; [exact Sc|]. split; [rewrite Lc; reflexivity|]. intros _.
  split; [apply (write_file_ok_inv _ _ _ _ Hb)|].
  exists o. split; [rewrite <- Hget, Sc; reflexivity|].
  apply (write_file_view _ _ _ _ _ Hb). reflexivity.
Qed.

Lemma mirror_loop_kept (bucket_name : string) (pats : option (list string))
  (keys : list string) (w : world) :
  kept (fun q => exists key, In key keys /\ ignored pats key = false
                             /\ q = components (mirror_path key))
       (w_fs w)
       (w_fs (snd (for_each keys
                     (mirror_object bucket_name
                        (match pats with None => [] | Some l => l end)) w))).
Proof.
  refine (proj2 (preserves_for_each_in
                   (mirror_invariant (w_s3 w) (w_fs w) _) keys _ _ w
                   (conj eq_refl (kept_refl _ _)))).
  intros key Hin. apply preserves_mirror_object. intros Hig.
  exists key. repeat split; assumption.
Qed.

Lemma mirror_loop_ok (bucket_name : string) (pats : option (list string))
  (keys : list string) :
  forall w w',
    for_each keys (mirror_object bucket_name (match pats with None => [] | Some l => l end)) w
    = (Ok tt, w') ->
    w_s3 w' = w_s3 w
    /\ w_log w' = (w_log w ++ map (mirror_record pats) keys)%list
    /\ forall key, In key keys -> ignored pats key = false ->
         ends_with_slash (mirror_path key) = false
         /\ (exists d, view_at (components (mirror_path key)) (w_fs w') = IsFile true d)
         /\ ((forall key', In key' keys -> ignored pats key' = false ->
                components (mirror_path key') = components (mirror_path key) ->
                key' = key) ->
             exists o, s3_get (bucket_name, key) (w_s3 w) = Some o
                       /\ view_at (components (mirror_path key)) (w_fs w')
                          = IsFile true (obj_data o)).
Proof.
  induction keys as [|k rest IH]; intros w w' H.
  - injection H as <-. split; [reflexivity|]. split; [rewrite app_nil_r; reflexivity|].
    intros key [].
  - cbn [for_each] in H. apply bind_inv in H. destruct H as ([] & w1 & Hk & Hrest).
    pose proof (mirror_loop_kept bucket_name pats rest w1) as Hkept.
    rewrite Hrest in Hkept. simpl in Hkept.
    destruct (IH _ _ Hrest) as (S1 & L1 & K1).
    destruct (mirror_object_ok _ _ _ _ _ Hk) as (S0 & L0 & K0).
    split; [congruence|].
    split; [rewrite L1, L0, <- app_assoc; reflexivity|].
    intros key Hin Hig.
    destruct (in_dec string_dec key rest) as [Hr|Hnr].
    { destruct (K1 key Hr Hig) as (E1 & E2 & E3).
      split; [exact E1|]. split; [exact E2|]. intros Huniq. rewrite <- S0. apply E3.
      intros key' Hin'. apply Huniq. right. exact Hin'. }
    destruct Hin as [->|Hin]; [|contradiction].
    destruct (K0 Hig) as (E1 & o & Hget & Hview).
    split; [exact E1|].
    destruct (proj2 (Hkept (components (mirror_path key))) _ _ Hview)
      as [E|[Hover [d' E]]].
    + split; [exists (obj_data o); exact E|]. intros _. exists o. split; assumption.
    + split; [exists d'; exact E|]. intros Huniq. exfalso.
      destruct Hover as (key' & Hin' & Hig' & Hc).
      apply Hnr. rewrite <- (Huniq key' (or_intror Hin') Hig' (eq_sym Hc)). exact Hin'.
Qed.

Lemma makedirs_working_root (fuel : nat) (root root' : node) :
  makedirs (S fuel) "/tmp/s3_files/" root = (Ok tt, root') ->
  isdir "/tmp/s3_files/" root' = true.
Proof.
  cbn [makedirs].
  change (path_split "/tmp/s3_files/") with ("/tmp/s3_files", "").
  cbv iota beta.
  change (path_split "/tmp/s3_files") with ("/tmp", "s3_files").
  cbv iota beta.
  assert (Hmk : forall root1,
            match os_mkdir "/tmp/s3_files/" root1 with
            | (Ok _, root2) => (Ok tt, root2)
            | (Raise e, root2) =>
                if is_oserror (exn_cls e) && isdir "/tmp/s3_files/" root2
                then (Ok tt, root2) else (Raise e, root2)
            end = (Ok tt, root') ->
            isdir "/tmp/s3_files/" root' = true).
  { intros root1 H. destruct (os_mkdir "/tmp/s3_files/" root1) as [[[]|e] root2] eqn:E.
    - injection H as <-. rewrite isdir_view.
      change (view_of (lookup (components "/tmp/s3_files/") root2))
        with (view_at (components "/tmp/s3_files/") root2).
      rewrite (proj2 (os_mkdir_view _ _ _ _ E) eq_refl). reflexivity.
    - destruct (is_oserror (exn_cls e) && isdir "/tmp/s3_files/" root2) eqn:B;
        [|discriminate].
      injection H as <-. apply andb_true_iff in B. apply B. }
  change (String.eqb "s3_files" ".") with false.
  destruct (negb (String.eqb "/tmp" "") && negb (String.eqb "s3_files" "")
            && negb (path_exists "/tmp" root)).
  - destruct (makedirs fuel "/tmp" root) as [[u|e] root1].
    + apply Hmk.
    + destruct (exn_cls e); try discriminate. apply Hmk.
  - apply Hmk.
Qed.

Lemma download_files_ok_inv (bucket_name : string) (pats : option (list string))
  (w w' : world) (local_dir : string) :
  download_files bucket_name pats w = (Ok local_dir, w') ->
  local_dir = "/tmp/s3_files/"
  /\ exists wc,
       isdir "/tmp/s3_files/" (w_fs wc) = true
       /\ w_s3 wc = w_s3 w /\ w_log wc = w_log w
       /\ for_each (bucket_keys bucket_name (w_s3 wc))
            (mirror_object bucket_name (match pats with None => [] | Some l => l end)) wc
          = (Ok tt, w').
Proof.
  rewrite download_files_loop. intros H.
  apply bind_inv in H. destruct H as ([] & wa & Ha & H).
  apply lift_fs_inv in Ha. destruct Ha as (root_a & Ha & ->).
  apply makedirs_working_root in Ha.
  apply bind_inv in H. destruct H as (keys & wb & Hb & H).
  unfold list_objects in Hb.
  apply bind_inv in Hb. destruct Hb as ([] & wc & Hc & Hb).
  apply sdk_call_inv in Hc. destruct Hc as (Fc & Sc & Lc & _).
  injection Hb as <- <-.
  apply bind_inv in H. destruct H as ([] & wd & Hd & H). injection H as <- <-.
  split; [reflexivity|]. exists wc.
  split; [rewrite Fc; exact Ha|]. split; [exact Sc|]. split; [exact Lc | exact Hd].
Qed.

Lemma isdir_kept (over : list string -> Prop) (p : string) (root root' : node) :
  kept over root root' -> isdir p root = true -> isdir p root' = true.
Proof.
  intros Hk. rewrite !isdir_view. intros H.
  change (view_of (lookup (components p) root')) with (view_at (components p) root').
  rewrite (proj1 (Hk (components p))); [reflexivity|]. unfold view_at.
  destruct (view_of (lookup (components p) root)); try discriminate H. reflexivity.
Qed.

(** X16: when [download_files] returns, it returns ["/tmp/s3_files/"], that
    path is a directory, and the log has gained exactly one record for every
    key of the bucket, in listing order: skipped or downloaded. *)
Theorem download_returns_the_working_root (bucket_name : string)
  (ignore_patterns : option (list string)) (w w' : world) (local_dir : string) :
  download_files bucket_name ignore_patterns w = (Ok local_dir, w') ->
  local_dir = "/tmp/s3_files/"
  /\ isdir local_dir (w_fs w') = true
  /\ w_log w'
     = (w_log w
        ++ map (mirror_record ignore_patterns) (bucket_keys bucket_name (w_s3 w)))%list.
Proof.
  intros H. apply download_files_ok_inv in H.
  destruct H as (-> & wc & Hdir & Sc & Lc & Hd).
  split; [reflexivity|].
  pose proof (mirror_loop_kept bucket_name ignore_patterns
                (bucket_keys bucket_name (w_s3 wc)) wc) as Hkept.
  rewrite Hd in Hkept. simpl in Hkept.
  destruct (mirror_loop_ok _ _ _ _ _ Hd) as (_ & L & _).
  split; [exact (isdir_kept _ _ _ _ Hkept Hdir)|].
  rewrite L, Lc, Sc. reflexivity.
Qed.

Lemma download_of_the_sample_bucket :
  let w := world_of empty_tmp sample_store [] in
  let run := download_files sample_bucket (Some [".tar.gz"]) w in
  fst run = Ok "/tmp/s3_files/"
  /\ isdir "/tmp/s3_files/" (w_fs (snd run)) = true
  /\ w_log (snd run)
     = [(INFO, "Downloaded a/b.txt to /tmp/s3_files/a/b.txt");
        (INFO, "Downloaded c.txt to /tmp/s3_files/c.txt")].
Proof.
  intros w run. split; [reflexivity|].
  exact (proj2 (download_returns_the_working_root sample_bucket (Some [".tar.gz"])
                  w (snd run) "/tmp/s3_files/" eq_refl)).
Defined.

(** X17: when [download_files] returns, every key of the bucket that no
    pattern ignores is a regular file at its target path; and when no other
    mirrored key has the same target path, that file holds exactly the bytes
    of the object. *)
Theorem mirror_holds_the_objects (bucket_name : string)
  (ignore_patterns : option (list string)) (w w' : world) (local_dir key : string) :
  download_files bucket_name ignore_patterns w = (Ok local_dir, w') ->
  In key (bucket_keys bucket_name (w_s3 w)) ->
  ignored ignore_patterns key = false ->
  isfile (mirror_path key) (w_fs w') = true
  /\ ((forall key', In key' (bucket_keys bucket_name (w_s3 w)) ->
         ignored ignore_patterns key' = false ->
         components (mirror_path key') = components (mirror_path key) ->
         key' = key) ->
      exists o, s3_get (bucket_name, key) (w_s3 w) = Some o
                /\ file_bytes (mirror_path key) (w_fs w') = Some (obj_data o)).
Proof.
  intros H Hin Hig. apply download_files_ok_inv in H.
  destruct H as (_ & wc & _ & Sc & _ & Hd). rewrite <- Sc in *.
  destruct (mirror_loop_ok _ _ _ _ _ Hd) as (_ & _ & K).
  destruct (K key Hin Hig) as (Hs & [d Hd1] & Hu). unfold view_at in *.
  split.
  - rewrite isfile_view, Hd1, Hs. reflexivity.
  - intros Huniq. destruct (Hu Huniq) as (o & Hget & Hv). exists o.
    split; [exact Hget|]. rewrite file_bytes_view, Hv, Hs. reflexivity.
Qed.

Lemma mirror_of_the_sample_bucket :
  let w := world_of empty_tmp sample_store [] in
  let run := download_files sample_bucket None w in
  isfile "/tmp/s3_files/a/b.txt" (w_fs (snd run)) = true
  /\ file_bytes "/tmp/s3_files/a/b.txt" (w_fs (snd run)) = Some "hi".
Proof.
  intros w run.
  destruct (mirror_holds_the_objects sample_bucket None w (snd run) "/tmp/s3_files/"
              "a/b.txt" eq_refl (or_introl eq_refl) eq_refl) as [Hfile Hbytes].
  split; [exact Hfile|].
  destruct Hbytes as (o & Hget & Hb).
  - intros key' [<-|[<-|[]]] _ E; [reflexivity | discriminate E].
  - injection Hget as <-. exact Hb.
Defined.

(** ** Every file of the tree is in the archive *)

Lemma In_insert_by_name {A : Type} (x y : string * A) (l : list (string * A)) :
  In y (insert_by_name x l) <-> y = x \/ In y l.
Proof.
  induction l as [|z l IH]; simpl; [intuition congruence|].
  destruct (String.leb (fst x) (fst z)); simpl; [intuition congruence|].
  rewrite IH. intuition congruence.
Qed.

Lemma In_sort_by_name {A : Type} (y : string * A) (l : list (string * A)) :
  In y (sort_by_name l) <-> In y l.
Proof.
  unfold sort_by_name. induction l as [|x l IH]; simpl; [tauto|].
  rewrite In_insert_by_name, IH. intuition congruence.
Qed.

Lemma in_sequence_done (steps : list tar_progress) (ms : list tar_member) :
  in_sequence steps = (ms, None) ->
  forall step, In step steps -> snd step = None /\ incl (fst step) ms.
Proof.
  revert ms. induction steps as [|[ms1 [e|]] steps IH]; intros ms H step Hin; simpl in *.
  - contradiction.
  - discriminate.
  - destruct (in_sequence steps) as [ms' e'] eqn:E. injection H as <- ->.
    destruct Hin as [<-|Hin]; simpl.
    + split; [reflexivity | apply incl_appl, incl_refl].
    + destruct (IH _ eq_refl _ Hin) as [H1 H2]. split; [exact H1|].
      apply incl_appr. exact H2.
Qed.

Lemma starts_with_app_false (p r q : list string) :
  starts_with p q = false -> starts_with (p ++ r) q = false.
Proof.
  intros H. destruct (starts_with (p ++ r) q) eqn:E; [|reflexivity].
  rewrite (starts_with_trans p (p ++ r) q (starts_with_app p r) E) in H. discriminate.
Qed.

Lemma tar_add_node_holds (self_name : list string) (rel : list string) :
  forall (n : node) (name arcname : string) (ms : list tar_member) (r : bool) (d : bytes),
    wf_node n = true ->
    starts_with (components name) self_name = false ->
    tar_add_node self_name n name arcname = (ms, None) ->
    lookup rel n = Some (File r d) ->
    r = true /\ In (mk_member (relative_name arcname rel) false d) ms.
Proof.
  induction rel as [|c rel IH]; intros n name arcname ms r d Hwf Hself Hadd Hl.
  - injection Hl as ->. cbn [tar_add_node] in Hadd.
    destruct (list_eq_dec string_dec (components name) self_name) as [E|_].
    { rewrite E, starts_with_refl in Hself. discriminate. }
    destruct r; [|discriminate]. injection Hadd as <-.
    split; [reflexivity | left; reflexivity].
  - destruct n as [r0 d0|es]; [discriminate|]. cbn [lookup] in Hl.
    destruct (child c es) as [n'|] eqn:Hc; [|discriminate].
    cbn [tar_add_node] in Hadd.
    destruct (list_eq_dec string_dec (components name) self_name) as [E|_].
    { rewrite E, starts_with_refl in Hself. discriminate. }
    destruct (in_sequence _) as [ms0 e0] eqn:Hseq in Hadd.
    injection Hadd as Hms He. subst ms e0.
    rewrite wf_node_Dir in Hwf. apply andb_true_iff in Hwf. destruct Hwf as [Hwf Hsub].
    apply andb_true_iff in Hwf. destruct Hwf as [Hvalid _].
    pose proof (child_In _ _ _ Hc) as Hin.
    assert (Hv : valid_name c = true).
    { rewrite forallb_forall in Hvalid. apply Hvalid.
      apply in_map_iff. exists (c, n'). split; [reflexivity | exact Hin]. }
    destruct (in_sequence_done _ _ Hseq
                (tar_add_node self_name n' (path_join name c) (path_join arcname c)))
      as [Hnone Hincl].
    { apply in_map_iff.
      exists (c, tar_add_node self_name n' (path_join name c) (path_join arcname c)).
      split; [reflexivity|]. apply In_sort_by_name. apply in_map_iff.
      exists (c, n'). split; [reflexivity | exact Hin]. }
    destruct (tar_add_node self_name n' (path_join name c) (path_join arcname c))
      as [ms' e'] eqn:Hsub_add.
    simpl in Hnone, Hincl. subst e'.
    destruct (IH n' (path_join name c) (path_join arcname c) ms' r d) as [Hr Hm].
    + eapply wf_child; eassumption.
    + rewrite (components_join _ _ Hv). apply starts_with_app_false. exact Hself.
    + exact Hsub_add.
    + exact Hl.
    + split; [exact Hr|]. right. apply Hincl. exact Hm.
Qed.

Lemma tar_add_holds (tar_path name arcname : string) (root : node)
  (ms : list tar_member) (rel : list string) (r : bool) (d : bytes) :
  wf_node root = true ->
  starts_with (components name) (components tar_path) = false ->
  tar_add tar_path name arcname root = (ms, None) ->
  lookup (components name ++ rel)%list root = Some (File r d) ->
  r = true /\ In (mk_member (relative_name arcname rel) false d) ms.
Proof.
  intros Hwf Hself Hadd Hl. unfold tar_add in Hadd.
  destruct (resolve name root) as [n|] eqn:Hres.
  - assert (Hn : lookup (components name) root = Some n).
    { unfold resolve in Hres.
      destruct (lookup (components name) root) as [[r0 d0|es]|]; try discriminate;
        [destruct (ends_with_slash name); [discriminate|]|]; exact Hres. }
    rewrite lookup_app, Hn in Hl.
    apply (tar_add_node_holds (components tar_path) rel n name arcname ms r d);
      try assumption.
    eapply wf_node_lookup; eassumption.
  - destruct (list_eq_dec string_dec (components name) (components tar_path)) as [E|_];
      [|discriminate].
    rewrite E, starts_with_refl in Hself. discriminate.
Qed.

Section Holds.
Context {codec : Codec}.

Lemma tar_add_after_create (tar_path source_dir arcname : string) (root root_a : node)
  (members : list tar_member) :
  wf_node root = true ->
  starts_with (components source_dir) (components tar_path) = false ->
  write_file tar_path "" root = (Ok tt, root_a) ->
  tar_add tar_path source_dir arcname root_a = (members, None) ->
  forall rel r d,
    lookup (components source_dir ++ rel)%list root = Some (File r d) ->
    In (mk_member (relative_name arcname rel) false d) members.
Proof.
  intros Hwf Hself Ha Hadd rel r d Hl.
  apply (tar_add_holds tar_path source_dir arcname root_a members rel r d).
  - pose proof (wf_write_file tar_path "" _ Hwf) as H. rewrite Ha in H. exact H.
  - exact Hself.
  - exact Hadd.
  - destruct (write_file_view _ _ _ _ _ Ha) as [Hv _].
    assert (Hq : (components source_dir ++ rel)%list <> components tar_path).
    { intros E. rewrite <- E, starts_with_app in Hself. discriminate. }
    specialize (Hv _ Hq). unfold view_at in Hv. rewrite Hl in Hv.
    destruct (lookup (components source_dir ++ rel) root_a) as [[r' d'|es]|];
      try discriminate.
    injection Hv as -> ->. reflexivity.
Qed.

(** X18: when [create_tar_gz_archive] returns on a well-formed file system,
    with the intermediate file outside the source directory, the output file
    is the gzip stream of a tar archive that has, for every regular file
    below the source directory, a member with its bytes under its relative
    name. *)
Theorem archive_holds_every_file (source_dir stem gz : string) (w w' : world) :
  wf_node (w_fs w) = true ->
  starts_with (components source_dir) (components (stem ++ ".tar")) = false ->
  create_tar_gz_archive source_dir stem w = (Ok gz, w') ->
  exists members,
    file_bytes gz (w_fs w')
    = Some (gzip_stream gz (epoch (next_reading w)) (tar_archive members))
    /\ forall rel r d,
         lookup (components source_dir ++ rel)%list (w_fs w) = Some (File r d) ->
         In (mk_member (relative_name (basename source_dir) rel) false d) members.
Proof.
  intros Hwf Hself H.
  apply create_ok_inv in H. destruct H as (-> & root_a & members & Ha & Hadd & Hbytes).
  exists members. split; [exact Hbytes|].
  exact (tar_add_after_create _ _ _ _ _ _ Hwf Hself Ha Hadd).
Qed.

End Holds.

Lemma archive_of_the_sample_mirror :
  let w := world_of mirror_tree sample_store [sample_time] in
  let run := @create_tar_gz_archive stored_codec "/tmp/s3_files/" "/tmp/weekly-archive" w in
  exists members,
    file_bytes "/tmp/weekly-archive.tar.gz" (w_fs (snd run))
    = Some (@gzip_stream stored_codec "/tmp/weekly-archive.tar.gz" 1700000000
              (@tar_archive stored_codec members))
    /\ In (mk_member "a/b.txt" false "hi") members.
Proof.
  intros w run.
  destruct (@archive_holds_every_file stored_codec "/tmp/s3_files/" "/tmp/weekly-archive"
              "/tmp/weekly-archive.tar.gz" w (snd run) eq_refl eq_refl
              ltac:(vm_compute; reflexivity)) as (members & Hgz & Hall).
  exists members. split; [exact Hgz|].
  exact (Hall ["a"; "b.txt"] true "hi" eq_refl).
Defined.

(** ** A run that completes, stage by stage *)

Lemma fs_kept {A : Type} (m : M A) (w w1 : world) (r : outcome A) :
  preserves (fun w' => w_fs w' = w_fs w) m -> m w = (r, w1) -> w_fs w1 = w_fs w.
Proof. intros Hp E. specialize (Hp w eq_refl). rewrite E in Hp. exact Hp. Qed.

Lemma fs_is_quiet (root : node) (w w' : world) :
  w_fs w' = w_fs w -> w_s3 w' = w_s3 w -> w_fs w = root -> w_fs w' = root.
Proof. congruence. Qed.

Lemma preserves_fs_upload_file (root : node) (filename bucket_name key : string)
  (ct : option string) :
  preserves (fun w => w_fs w = root) (upload_file filename bucket_name key ct).
Proof.
  intros w H. rewrite upload_file_fs. exact H.
Qed.

Lemma preserves_fs_tagging (root : node) (bucket_name key : string)
  (tags : list (string * string)) :
  preserves (fun w => w_fs w = root) (put_object_tagging bucket_name key tags).
Proof.
  unfold put_object_tagging. intros w H. unfold bind.
  pose proof (preserves_sdk_call _ (fs_is_quiet root) w H) as Hs.
  destruct (sdk_call w) as [[u|e] w1]; [|exact Hs]. simpl in Hs.
  destruct (s3_get (bucket_name, key) (w_s3 w1)); exact Hs.
Qed.

Lemma file_bytes_lookup (p : string) (root : node) (data : bytes) :
  file_bytes p root = Some data ->
  exists r, lookup (components p) root = Some (File r data).
Proof.
  unfold file_bytes, resolve.
  destruct (lookup (components p) root) as [[r d|es]|]; try discriminate.
  destruct (ends_with_slash p); [discriminate|]. intros [= ->]. exists r. reflexivity.
Qed.

Section CompletedRun.
Context {codec : Codec}.

Lemma main_ok_inv (w w' : world) :
  wf_node (w_fs w) = true ->
  main w = (Ok tt, w') ->
  exists w2 w3 w4 w7 gz archive log_data,
    w_s3 w2 = w_s3 w
    /\ wf_node (w_fs w2) = true
    /\ download_files "my-app-090823" (Some [".tar.gz"; "archival-logs/"]) w2
       = (Ok "/tmp/s3_files/", w3)
    /\ create_tar_gz_archive "/tmp/s3_files/" "/tmp/weekly-archive" w3 = (Ok gz, w4)
    /\ file_bytes gz (w_fs w4) = Some archive
    /\ w_fs w7 = w_fs w4
    /\ cleanup_local_resources w7 = (Ok tt, w')
    /\ w_s3 w'
       = s3_put ("my-app-090823",
                 "archival-logs/python-log-" ++ strftime_stamp (next_reading w) ++ ".txt")
           (mk_object log_data None [])
           (s3_put ("my-app-090823",
                    "weekly-archive-" ++ strftime_stamp (next_reading w) ++ ".tar.gz")
              (mk_object archive (Some "application/gzip")
                 [("ArchiveStatus", "ReadyForGlacier")])
              (w_s3 w)).
Proof.
  unfold main. intros Hwf H.
  apply bind_inv in H. destruct H as (now & w1 & H1 & H).
  assert (Hnow : now = next_reading w /\ w_s3 w1 = w_s3 w /\ w_fs w1 = w_fs w).
  { unfold read_clock, next_reading in *. destruct (w_clock w); injection H1 as <- <-;
      repeat split; reflexivity. }
  destruct Hnow as (-> & S1 & F1). clear H1.
  apply bind_inv in H. destruct H as ([] & w2 & H2 & H).
  assert (W2 : wf_node (w_fs w2) = true).
  { refine (wf_kept _ _ _ _ (preserves_configure_aws _ fs_wf_quiet) _ H2).
    rewrite F1. exact Hwf. }
  apply (store_kept _ _ _ _ (preserves_configure_aws _ (store_is_quiet _))) in H2.
  apply bind_inv in H. destruct H as (local_dir & w3 & H3 & H).
  pose proof (download_files_ok_inv _ _ _ _ _ H3) as [-> _].
  pose proof (store_kept _ _ _ _ (preserves_download_files _ (store_is_quiet _)
                                    (store_quiet_lift _) _ _) H3) as S3.
  apply bind_inv in H. destruct H as (archive_path & w4 & H4 & H).
  pose proof (store_kept _ _ _ _ (preserves_create_archive _ (store_is_quiet _)
                                    (store_quiet_lift _) _ _) H4) as S4.
  apply bind_inv in H. destruct H as ([] & w5 & H5 & H).
  pose proof (fs_kept _ _ _ _
                (preserves_bind _ _ _
                   (preserves_fs_upload_file _ _ _ _ _)
                   (fun _ => preserves_log _ (fs_is_quiet _) _ _)) H5) as F5.
  unfold upload_archive_to_s3 in H5.
  apply bind_inv in H5. destruct H5 as ([] & w5a & H5 & H5l).
  apply upload_file_inv in H5. destruct H5 as (archive & Hread & S5).
  apply log_store in H5l.
  apply bind_inv in H. destruct H as ([] & w6 & H6 & H).
  pose proof (fs_kept _ _ _ _
                (preserves_bind _ _ _
                   (preserves_fs_tagging _ _ _ _)
                   (fun _ => preserves_log _ (fs_is_quiet _) _ _)) H6) as F6.
  unfold tag_archive in H6.
  apply bind_inv in H6. destruct H6 as ([] & w6a & H6 & H6l).
  apply put_object_tagging_inv in H6. destruct H6 as (o & Ho & S6).
  apply log_store in H6l.
  apply bind_inv in H. destruct H as ([] & w7 & H7 & H).
  pose proof (fs_kept _ _ _ _
                (preserves_bind _ _ _
                   (preserves_fs_upload_file _ _ _ _ _)
                   (fun _ => preserves_log _ (fs_is_quiet _) _ _)) H7) as F7.
  unfold upload_log_to_s3 in H7.
  apply bind_inv in H7. destruct H7 as ([] & w7a & H7 & H7l).
  apply upload_file_inv in H7. destruct H7 as (log_data & _ & S7).
  apply log_store in H7l.
  pose proof (store_kept _ _ _ _ (preserves_cleanup _ (store_is_quiet _)
                                    (store_quiet_lift _)) H) as S8.
  exists w2, w3, w4, w7, archive_path, archive, log_data.
  split; [congruence|]. split; [exact W2|]. split; [exact H3|]. split; [exact H4|].
  split; [apply read_file_bytes; exact Hread|].
  split; [congruence|]. split; [exact H|].
  rewrite S8, H7l, S7, H6l, S6. f_equal.
  rewrite H5l, S5 in Ho. rewrite s3_get_put_same in Ho. injection Ho as <-.
  rewrite H5l, S5, s3_put_put_same. simpl. congruence.
Qed.


(** X20: end to end: after a run of [main] that completes, for every key of
    the bucket that is not ignored and whose target path no other mirrored
    key shares, the object stored under the archive key of the run is, typed
    and tagged, the gzip stream of a tar archive in which a member under the
    key's path relative to the working root holds exactly the bytes of that
    object. *)
Theorem run_archives_every_object (w w' : world) (key : string) (rel : list string) :
  wf_node (w_fs w) = true ->
  main w = (Ok tt, w') ->
  In key (bucket_keys "my-app-090823" (w_s3 w)) ->
  ignored (Some [".tar.gz"; "archival-logs/"]) key = false ->
  (forall key', In key' (bucket_keys "my-app-090823" (w_s3 w)) ->
                ignored (Some [".tar.gz"; "archival-logs/"]) key' = false ->
                components (mirror_path key') = components (mirror_path key) ->
                key' = key) ->
  components (mirror_path key) = (components "/tmp/s3_files/" ++ rel)%list ->
  exists o mtime members,
    s3_get ("my-app-090823", key) (w_s3 w) = Some o
    /\ s3_get ("my-app-090823",
               "weekly-archive-" ++ strftime_stamp (next_reading w) ++ ".tar.gz")
         (w_s3 w')
       = Some (mk_object
                 (gzip_stream "/tmp/weekly-archive.tar.gz" mtime (tar_archive members))
                 (Some "application/gzip") [("ArchiveStatus", "ReadyForGlacier")])
    /\ In (mk_member (relative_name "" rel) false (obj_data o)) members.
Proof.
  intros Hwf H Hin Hig Huniq Hrel.
  destruct (main_ok_inv _ _ Hwf H)
    as (w2 & w3 & w4 & w7 & gz & archive & log_data
        & S2 & W2 & H3 & H4 & Hbytes & _ & _ & Hs).
  assert (W3 : wf_node (w_fs w3) = true).
  { exact (wf_kept _ _ _ _ (preserves_download_files _ fs_wf_quiet (@wf_lift_fs) _ _)
             W2 H3). }
  destruct (download_files_ok_inv _ _ _ _ _ H3) as (_ & wc & _ & Sc & _ & Hloop).
  rewrite Sc, S2 in Hloop.
  destruct (mirror_loop_ok "my-app-090823" (Some [".tar.gz"; "archival-logs/"])
              _ _ _ Hloop) as (_ & _ & K).
  destruct (K key Hin Hig) as (Hslash & _ & Hu).
  destruct (Hu Huniq) as (o & Hget & Hview). rewrite Sc, S2 in Hget.
  destruct (create_ok_inv _ _ _ _ _ H4) as (-> & root_a & members & Ha & Hadd & Hgz).
  pose proof (tar_add_after_create ("/tmp/weekly-archive" ++ ".tar") "/tmp/s3_files/"
                (basename "/tmp/s3_files/") _ _ _ W3 eq_refl Ha Hadd) as Hall.
  rewrite Hbytes in Hgz. injection Hgz as ->.
  exists o, (epoch (next_reading w3)), members.
  split; [exact Hget|]. split.
  - rewrite Hs. rewrite s3_get_put_other by reflexivity. apply s3_get_put_same.
  - unfold view_at in Hview. rewrite Hrel in Hview.
    destruct (lookup (components "/tmp/s3_files/" ++ rel) (w_fs w3))
      as [[r d|es]|] eqn:El; try discriminate.
    injection Hview as -> ->.
    exact (Hall rel true (obj_data o) El).
Qed.

End CompletedRun.


Lemma sample_run_archives_b_txt :
  let w := world_of started_tmp sample_store [sample_time] in
  exists o mtime members,
    s3_get ("my-app-090823", "a/b.txt") (w_s3 w) = Some o
    /\ s3_get ("my-app-090823",
               "weekly-archive-" ++ strftime_stamp (next_reading w) ++ ".tar.gz")
         (w_s3 (snd (@main stored_codec w)))
       = Some (mk_object
                 (@gzip_stream stored_codec "/tmp/weekly-archive.tar.gz" mtime
                    (@tar_archive stored_codec members))
                 (Some "application/gzip") [("ArchiveStatus", "ReadyForGlacier")])
    /\ In (mk_member (relative_name "" ["a"; "b.txt"]) false (obj_data o)) members.
Proof.
  intros w.
  refine (@run_archives_every_object stored_codec w (snd (@main stored_codec w))
            "a/b.txt" ["a"; "b.txt"] eq_refl ltac:(vm_compute; reflexivity)
            (or_introl eq_refl) eq_refl _ eq_refl).
  intros key' [<-|[<-|[]]] _ E; [reflexivity | discriminate E].
Defined.

(** ** The objects a run touches *)

Lemma s3_get_put (k k' : string * string) (o : s3_object) (s : s3_store) :
  s3_get k' (s3_put k o s) = if same_key k k' then Some o else s3_get k' s.
Proof.
  destruct (same_key k k') eqn:E.
  - apply same_key_eq in E. subst k'. apply s3_get_put_same.
  - apply s3_get_put_other. exact E.
Qed.

Section StoreFrame.
Variable keys : list (string * string).
Variable s0 : s3_store.

Lemma store_frame_quiet (w w' : world) :
  w_fs w' = w_fs w -> w_s3 w' = w_s3 w -> store_frame keys s0 w -> store_frame keys s0 w'.
Proof. unfold store_frame. intros _ ->. auto. Qed.

Lemma store_frame_lift (A : Type) (f : node -> fs_result A) :
  (forall root, wf_node root = true -> wf_node (snd (f root)) = true) ->
  preserves (store_frame keys s0) (lift_fs f).
Proof.
  intros _ w H. unfold lift_fs. destruct (f (w_fs w)) as [r root']. exact H.
Qed.

Lemma store_frame_put (k : string * string) (o : s3_object) (w : world) :
  In k keys -> store_frame keys s0 w -> store_frame keys s0 (set_s3 (s3_put k o (w_s3 w)) w).
Proof.
  intros Hin [Hout Hkeep]. split; simpl.
  - intros k' Hk'. rewrite s3_get_put, (Hk' k Hin). apply Hout. exact Hk'.
  - intros k' Hk'. rewrite s3_get_put. destruct (same_key k k'); [discriminate|].
    apply Hkeep. exact Hk'.
Qed.

Lemma store_frame_upload_file (filename bucket_name key : string) (ct : option string) :
  In (bucket_name, key) keys ->
  preserves (store_frame keys s0) (upload_file filename bucket_name key ct).
Proof.
  intros Hin w H. unfold upload_file, bind.
  destruct (read_file filename (w_fs w)); [|exact H].
  pose proof (preserves_sdk_call _ store_frame_quiet w H) as Hs.
  destruct (sdk_call w) as [[u|e] w1]; [|exact Hs].
  apply store_frame_put; assumption.
Qed.

Lemma store_frame_tagging (bucket_name key : string) (tags : list (string * string)) :
  In (bucket_name, key) keys ->
  preserves (store_frame keys s0) (put_object_tagging bucket_name key tags).
Proof.
  intros Hin w H. unfold put_object_tagging, bind.
  pose proof (preserves_sdk_call _ store_frame_quiet w H) as Hs.
  destruct (sdk_call w) as [[u|e] w1]; [|exact Hs]. simpl in Hs.
  destruct (s3_get (bucket_name, key) (w_s3 w1)); [|exact Hs].
  apply store_frame_put; assumption.
Qed.

End StoreFrame.

Section TouchedObjects.
Context {codec : Codec}.

Lemma main_guard_store_frame (w : world) :
  let timestamp := strftime_stamp (next_reading w) in
  store_frame
    [("my-app-090823", "weekly-archive-" ++ timestamp ++ ".tar.gz");
     ("my-app-090823", "archival-logs/python-log-" ++ timestamp ++ ".txt")]
    (w_s3 w) (snd (main_guard w)).
Proof.
  intros timestamp.
  set (keys := [("my-app-090823", "weekly-archive-" ++ timestamp ++ ".tar.gz");
                ("my-app-090823", "archival-logs/python-log-" ++ timestamp ++ ".txt")]).
  assert (Hq := store_frame_quiet keys (w_s3 w)).
  assert (Hl := store_frame_lift keys (w_s3 w)).
  assert (Hcleanup : preserves (store_frame keys (w_s3 w)) cleanup_local_resources)
    by exact (preserves_cleanup _ Hq Hl).
  assert (Hmain : store_frame keys (w_s3 w) (snd (main w))).
  { unfold main. unfold bind at 1.
    assert (H1 : exists w1, read_clock w = (Ok (next_reading w), w1)
                            /\ store_frame keys (w_s3 w) w1).
    { unfold read_clock, next_reading. destruct (w_clock w); eexists;
        (split; [reflexivity|]); split; auto. }
    destruct H1 as (w1 & -> & H1). revert w1 H1.
    change (preserves (store_frame keys (w_s3 w))
              (configure_aws ;;;
               local_dir <- download_files "my-app-090823"
                              (Some [".tar.gz"; "archival-logs" ++ "/"]) ;;
               archive_path <- create_tar_gz_archive local_dir "/tmp/weekly-archive" ;;
               upload_archive_to_s3 "my-app-090823" archive_path
                 ("weekly-archive-" ++ timestamp ++ ".tar.gz") ;;;
               tag_archive "my-app-090823" ("weekly-archive-" ++ timestamp ++ ".tar.gz")
                 [("ArchiveStatus", "ReadyForGlacier")] ;;;
               upload_log_to_s3 "my-app-090823" log_filename "archival-logs" timestamp ;;;
               cleanup_local_resources)).
    apply preserves_bind; [apply (preserves_configure_aws _ Hq) | intros _].
    apply preserves_bind; [apply (preserves_download_files _ Hq Hl) | intros local_dir].
    apply preserves_bind; [apply (preserves_create_archive _ Hq Hl) | intros archive_path].
    apply preserves_bind.
    { unfold upload_archive_to_s3, logging_info. apply preserves_bind;
        [apply store_frame_upload_file; left; reflexivity
        | intros _; apply (preserves_log _ Hq)]. }
    intros _. apply preserves_bind.
    { unfold tag_archive, logging_info. apply preserves_bind;
        [apply store_frame_tagging; left; reflexivity
        | intros _; apply (preserves_log _ Hq)]. }
    intros _. apply preserves_bind; [|intros _; exact Hcleanup].
    unfold upload_log_to_s3, logging_info. apply preserves_bind;
      [apply store_frame_upload_file; right; left; reflexivity
      | intros _; apply (preserves_log _ Hq)]. }
  unfold main_guard. destruct (main w) as [[[]|e] w1]; simpl in Hmain; [exact Hmain|].
  assert (Hh : store_frame keys (w_s3 w)
                 (snd ((logging_error ("An error occurred in the main execution: "
                                       ++ exn_msg e) ;;;
                        cleanup_local_resources) w1))).
  { apply (preserves_bind _ _ _ (preserves_log _ Hq _ _) (fun _ => Hcleanup)).
    exact Hmain. }
  destruct ((logging_error ("An error occurred in the main execution: " ++ exn_msg e) ;;;
             cleanup_local_resources) w1) as [[[]|e'] w2]; exact Hh.
Qed.

(** X21: whatever a run does, and however it ends, after the guard every
    object other than the two keys of the run, the archive key and the log
    key of its timestamp, is exactly what it was before, present or
    absent. *)
Theorem run_touches_only_its_two_keys (w : world) (k : string * string) :
  same_key ("my-app-090823",
            "weekly-archive-" ++ strftime_stamp (next_reading w) ++ ".tar.gz") k = false ->
  same_key ("my-app-090823",
            "archival-logs/python-log-" ++ strftime_stamp (next_reading w) ++ ".txt") k
  = false ->
  s3_get k (w_s3 (snd (main_guard w))) = s3_get k (w_s3 w).
Proof.
  intros Ha Hl. apply (proj1 (main_guard_store_frame w)).
  intros k' [<-|[<-|[]]]; assumption.
Qed.

(** X22: a run never deletes an object: whatever it does and however it
    ends, a key that held an object before the run holds one after the
    guard. *)
Theorem run_deletes_no_object (w : world) (k : string * string) :
  s3_get k (w_s3 w) <> None -> s3_get k (w_s3 (snd (main_guard w))) <> None.
Proof. apply (proj2 (main_guard_store_frame w)). Qed.

End TouchedObjects.

Lemma clashing_run_keeps_its_objects :
  let w := world_of empty_tmp clashing_store [sample_time] in
  s3_get (sample_bucket, "a/b") (w_s3 (snd (@main_guard stored_codec w)))
  = Some (plain_object "x").
Proof.
  intros w.
  exact (@run_touches_only_its_two_keys stored_codec w (sample_bucket, "a/b")
           eq_refl eq_refl).
Defined.

Lemma sample_run_keeps_c_txt :
  let w := world_of started_tmp sample_store [sample_time] in
  s3_get (sample_bucket, "c.txt") (w_s3 (snd (@main_guard stored_codec w))) <> None.
Proof.
  intros w.
  apply (@run_deletes_no_object stored_codec w (sample_bucket, "c.txt")). discriminate.
Defined.
